(** * healthcare-api-benchmark: metrics collector, worker pool, object pool
      and latency simulator, embedded from the Go sources.

    - [Int64], [Float64]: Go's [int64] wrap-around and IEEE-754 binary64
      (the Standard Library's executable [SpecFloat] model, 53 bits).
    - [Metrics]: [metrics.Collector] of [src/main.go] (second document).
    - [Simulator]: [simulator.Database.getRandomLatency].
    - [Pool]: [patterns.WorkerPoolHandler] as a transition system over Go
      channels, and [patterns.NaiveHandler.Shutdown].
    - [Optimized]: the [sync.Pool] of response containers of
      [patterns.OptimizedHandler].
    - [Samples], [Queries], [Patients]: the rest of the collector, of
      [simulator.Database] ([QueryPatient] sequences, [BatchQueryPatients],
      [GetStats], [ResetStats]) and of the [models] package
      ([GeneratePatient], [Validate], [GetAge], [hashString]).
    - [Loadtest], [Main]: [runTest] of the load test, and [parseFlags] and
      [createHandler] of the server.
    - [PoolInvariants]: [GetStats] of the pool handlers and the invariants
      of their transition system. *)

From Stdlib Require Import ZArith Lia Bool SpecFloat.
From stdpp Require Import base numbers list sorting gmap strings pretty.

Local Open Scope Z_scope.

(** ** Go's int64 *)

Module Int64.

Definition min_int : Z := - 2 ^ 63.
Definition max_int : Z := 2 ^ 63 - 1.

(** Two's-complement wrap-around of an arithmetic result. *)
Definition wrap (z : Z) : Z := (z + 2 ^ 63) mod 2 ^ 64 - 2 ^ 63.

Definition add (a b : Z) : Z := wrap (a + b).
Definition sub (a b : Z) : Z := wrap (a - b).
Definition mul (a b : Z) : Z := wrap (a * b).

Definition in_range (z : Z) : Prop := min_int <= z <= max_int.

(** Saturation, as [time.Time.Sub] does on overflow. *)
Definition saturate (z : Z) : Z := Z.max min_int (Z.min max_int z).

End Int64.

(** ** IEEE-754 binary64, as Go's float64 *)

Module Float64.

Definition prec : Z := 53.
Definition emax : Z := 1024.

Abbreviation float64 := spec_float (only parsing).

(** [float64(z)] for an integer [z]: round to nearest, ties to even. *)
Definition of_int (z : Z) : float64 := binary_normalize prec emax z 0 false.

Definition mul : float64 -> float64 -> float64 := SFmul prec emax.
Definition div : float64 -> float64 -> float64 := SFdiv prec emax.
Definition add : float64 -> float64 -> float64 := SFadd prec emax.
Definition ltb : float64 -> float64 -> bool := SFltb.

Definition zero : float64 := S754_zero false.

(** [int(f)] and [int64(f)]: truncation toward zero.  For NaN, infinities
    and values outside int64 the Go specification leaves the result to the
    implementation; amd64 yields the minimum int64. *)
Definition to_int (f : float64) : Z :=
  match f with
  | S754_zero _ => 0
  | S754_finite s m e =>
      let a := match e with
               | Z0 => Z.pos m
               | Z.pos _ => Z.pos m * 2 ^ e
               | Z.neg _ => Z.pos m / 2 ^ (- e)
               end in
      if a <=? Int64.max_int then cond_Zopp s a else Int64.min_int
  | _ => Int64.min_int
  end.

(** Round to nearest, ties to even, of [M / 2^s]: the integer that the
    rounding of [SpecFloat] produces when it shifts [M] right by [s] bits. *)
Definition rne_shift (M s : Z) : Z :=
  let X := M / 2 ^ s in
  if Z.testbit M (s - 1) && (negb (M mod 2 ^ (s - 1) =? 0) || Z.odd X)
  then X + 1 else X.

End Float64.

(** ** The metrics collector ([package metrics]) *)

Module Metrics.

(** [time.Time] as nanoseconds since the zero instant; [time.Time{}] is
    [0] and [IsZero] tests for it.  [time.Duration] is an int64 count of
    nanoseconds. *)
Abbreviation Time := Z (only parsing).
Abbreviation Duration := Z (only parsing).

Definition time_zero : Time := 0.
Definition IsZero (t : Time) : bool := t =? 0.
Definition Sub (t u : Time) : Duration := Int64.saturate (t - u).

Definition Millisecond : Duration := 1000000.
Definition Second : Duration := 1000000000.

Record Collector : Type := mkCollector {
  totalRequests : Z;
  successRequests : Z;
  errorRequests : Z;
  rejectedRequests : Z;
  latencies : list Duration;
  startTime : Time;
  endTime : Time;
  memoryAllocations : Z;
  memoryBytes : Z
}.

(** [NewCollector]: [now] is the reading of [time.Now()]. *)
Definition NewCollector (now : Time) : Collector :=
  {| totalRequests := 0; successRequests := 0; errorRequests := 0;
     rejectedRequests := 0; latencies := []; startTime := now;
     endTime := time_zero; memoryAllocations := 0; memoryBytes := 0 |}.

Definition RecordRequest (latency : Duration) (success : bool)
    (c : Collector) : Collector :=
  {| totalRequests := Int64.add (totalRequests c) 1;
     successRequests :=
       if success then Int64.add (successRequests c) 1 else successRequests c;
     errorRequests :=
       if success then errorRequests c else Int64.add (errorRequests c) 1;
     rejectedRequests := rejectedRequests c;
     latencies := latencies c ++ [latency];
     startTime := startTime c;
     endTime := endTime c;
     memoryAllocations := memoryAllocations c;
     memoryBytes := memoryBytes c |}.

Definition RecordRejection (c : Collector) : Collector :=
  {| totalRequests := Int64.add (totalRequests c) 1;
     successRequests := successRequests c;
     errorRequests := errorRequests c;
     rejectedRequests := Int64.add (rejectedRequests c) 1;
     latencies := latencies c;
     startTime := startTime c;
     endTime := endTime c;
     memoryAllocations := memoryAllocations c;
     memoryBytes := memoryBytes c |}.

Definition RecordMemory (allocations bytes : Z) (c : Collector) : Collector :=
  {| totalRequests := totalRequests c;
     successRequests := successRequests c;
     errorRequests := errorRequests c;
     rejectedRequests := rejectedRequests c;
     latencies := latencies c;
     startTime := startTime c;
     endTime := endTime c;
     memoryAllocations := Int64.add (memoryAllocations c) allocations;
     memoryBytes := Int64.add (memoryBytes c) bytes |}.

Definition Stop (now : Time) (c : Collector) : Collector :=
  {| totalRequests := totalRequests c;
     successRequests := successRequests c;
     errorRequests := errorRequests c;
     rejectedRequests := rejectedRequests c;
     latencies := latencies c;
     startTime := startTime c;
     endTime := now;
     memoryAllocations := memoryAllocations c;
     memoryBytes := memoryBytes c |}.

Definition Reset (now : Time) (c : Collector) : Collector :=
  {| totalRequests := 0; successRequests := 0; errorRequests := 0;
     rejectedRequests := 0; latencies := []; startTime := now;
     endTime := time_zero; memoryAllocations := 0; memoryBytes := 0 |}.

(** A call of a mutating method, and an event: the call together with the
    wall-clock instant at which it runs ([Stop] and [Reset] read
    [time.Now()] there; the recording methods do not read the clock). *)
Inductive call : Type :=
  | CRecordRequest (latency : Duration) (success : bool)
  | CRecordRejection
  | CRecordMemory (allocations bytes : Z)
  | CStop
  | CReset.

Definition event : Type := Time * call.

Definition apply_event (c : Collector) (ev : event) : Collector :=
  match ev with
  | (_, CRecordRequest l s) => RecordRequest l s c
  | (_, CRecordRejection) => RecordRejection c
  | (_, CRecordMemory a b) => RecordMemory a b c
  | (now, CStop) => Stop now c
  | (now, CReset) => Reset now c
  end.

Definition run (evs : list event) (c : Collector) : Collector :=
  foldl apply_event c evs.

Import Float64.

Record Stats : Type := mkStats {
  TotalRequests : Z;
  SuccessRequests : Z;
  ErrorRequests : Z;
  RejectedRequests : Z;
  ErrorRate : float64;
  RejectionRate : float64;
  MinLatency : float64;
  MaxLatency : float64;
  MeanLatency : float64;
  MedianLatency : float64;
  P95Latency : float64;
  P99Latency : float64;
  Duration_seconds : float64;
  RequestsPerSec : float64;
  MemoryAllocations : Z;
  MemoryBytes : Z;
  MemoryMB : float64
}.

(** [time.Duration.Seconds]: [float64(d / Second) + float64(d % Second) / 1e9]
    with Go's truncating division. *)
Definition Seconds (d : Duration) : float64 :=
  add (of_int (Z.quot d Second)) (div (of_int (Z.rem d Second)) (of_int 1000000000)).

(** The closure [toMs] of [GetStats]. *)
Definition toMs (d : Duration) : float64 := div (of_int d) (of_int Millisecond).

(** [sort.Slice] with [less i j := a[i] < a[j]] on a copy: the ascending
    arrangement of the samples. *)
Definition sort_latencies (l : list Duration) : list Duration :=
  merge_sort Z.le l.

(** [rank := int(float64(p) / 100.0 * float64(n))]. *)
Definition rank (p n : Z) : Z :=
  to_int (mul (div (of_int p) (of_int 100)) (of_int n)).

(** [percentile]; [None] is the run-time panic of an index out of range. *)
Definition percentile (sorted : list Duration) (p : Z) : option Duration :=
  let n := Z.of_nat (length sorted) in
  if n =? 0 then Some 0
  else
    let r := rank p n in
    let r := if r >=? n then n - 1 else r in
    if r <? 0 then None else sorted !! Z.to_nat r.

Definition sum_latencies (l : list Duration) : Duration :=
  foldl Int64.add 0 l.

Record LatencyStats : Type := mkLatencyStats {
  ls_min : float64; ls_max : float64; ls_mean : float64;
  ls_median : float64; ls_p95 : float64; ls_p99 : float64
}.

Definition no_latency : LatencyStats :=
  mkLatencyStats zero zero zero zero zero zero.

(** The block [if len(c.latencies) > 0 { ... }] of [GetStats]. *)
Definition latency_stats (lat : list Duration) : option LatencyStats :=
  match lat with
  | [] => Some no_latency
  | _ :: _ =>
      let latenciesCopy := sort_latencies lat in
      let n := Z.of_nat (length latenciesCopy) in
      lo ← latenciesCopy !! 0%nat;
      hi ← latenciesCopy !! Z.to_nat (n - 1);
      p50 ← percentile latenciesCopy 50;
      p95 ← percentile latenciesCopy 95;
      p99 ← percentile latenciesCopy 99;
      Some (mkLatencyStats (toMs lo) (toMs hi)
              (toMs (Z.quot (sum_latencies latenciesCopy) n))
              (toMs p50) (toMs p95) (toMs p99))
  end.

(** [GetStats]; [now] is the reading of [time.Now()] taken when [endTime]
    is the zero time. *)
Definition GetStats (now : Time) (c : Collector) : option Stats :=
  let fl := of_int in
  let errorRate :=
    if 0 <? totalRequests c
    then mul (div (fl (errorRequests c)) (fl (totalRequests c))) (fl 100)
    else zero in
  let rejectionRate :=
    if 0 <? totalRequests c
    then mul (div (fl (rejectedRequests c)) (fl (totalRequests c))) (fl 100)
    else zero in
  let memoryMB :=
    if 0 <? memoryBytes c
    then div (div (fl (memoryBytes c)) (fl 1024)) (fl 1024)
    else zero in
  let endT := if IsZero (endTime c) then now else endTime c in
  let duration := Seconds (Sub endT (startTime c)) in
  let rps :=
    if ltb zero duration
    then div (fl (totalRequests c)) duration
    else zero in
  ls ← latency_stats (latencies c);
  Some {| TotalRequests := totalRequests c;
          SuccessRequests := successRequests c;
          ErrorRequests := errorRequests c;
          RejectedRequests := rejectedRequests c;
          ErrorRate := errorRate;
          RejectionRate := rejectionRate;
          MinLatency := ls_min ls;
          MaxLatency := ls_max ls;
          MeanLatency := ls_mean ls;
          MedianLatency := ls_median ls;
          P95Latency := ls_p95 ls;
          P99Latency := ls_p99 ls;
          Duration_seconds := duration;
          RequestsPerSec := rps;
          MemoryAllocations := memoryAllocations c;
          MemoryBytes := memoryBytes c;
          MemoryMB := memoryMB |}.

(** The start of the measured window as the code keeps it: the instant of
    construction, moved by every [Reset]. *)
Definition window_start (t0 : Time) (evs : list event) : Time :=
  foldl (fun t ev => match ev with (now, CReset) => now | _ => t end) t0 evs.

(** The end of the window: the instant of the last [Stop] since the last
    [Reset], the zero time when there is none. *)
Definition window_end (evs : list event) : Time :=
  foldl (fun t ev => match ev with
                     | (now, CStop) => now
                     | (_, CReset) => time_zero
                     | _ => t
                     end) time_zero evs.

(** The window start in the specification's words: the instant of the
    first recorded request. *)
Fixpoint spec_first_record (evs : list event) : option Time :=
  match evs with
  | [] => None
  | (t, CRecordRequest _ _) :: _ => Some t
  | _ :: rest => spec_first_record rest
  end.

(** Throughput in the specification's words: total requests over the
    seconds elapsed from the first recorded request to [stop_or_now]. *)
Definition spec_RequestsPerSec (evs : list event) (total : Z)
    (stop_or_now : Time) : option float64 :=
  t1 ← spec_first_record evs;
  Some (div (of_int total) (Seconds (Sub stop_or_now t1))).

(** The end of the measured window as [GetStats] takes it. *)
Definition measured_end (now : Time) (evs : list event) : Time :=
  if IsZero (window_end evs) then now else window_end evs.

(** The throughput claim in the specification's words, for a collector
    built at [t0], driven by [evs] and read at [now]. *)
Definition spec_throughput_claim (t0 : Time) (evs : list event) (now : Time)
    : Prop :=
  forall st, GetStats now (run evs (NewCollector t0)) = Some st ->
    spec_RequestsPerSec evs (TotalRequests st) (measured_end now evs)
    = Some (RequestsPerSec st).

(** The counters agree, with Go's int64 addition. *)
Definition counters_consistent (c : Collector) : Prop :=
  totalRequests c =
    Int64.add (Int64.add (successRequests c) (errorRequests c))
      (rejectedRequests c).

(** The counters agree as integers and stay below [k]. *)
Definition counters_exact (k : Z) (c : Collector) : Prop :=
  0 <= successRequests c /\ 0 <= errorRequests c /\ 0 <= rejectedRequests c /\
  successRequests c + errorRequests c + rejectedRequests c <= k /\
  totalRequests c = successRequests c + errorRequests c + rejectedRequests c.

(** A run: built at second 1, ten requests recorded at second 11, stopped
    at second 21. *)
Definition ten_requests : list event :=
  replicate 10 (11000000000, CRecordRequest 5000000 true)
  ++ [(21000000000, CStop)].

Definition empty_stats : Stats :=
  mkStats 0 0 0 0 zero zero zero zero zero zero zero zero zero zero 0 0 zero.

Definition ten_requests_stats : Stats :=
  Eval vm_compute in
    default empty_stats
      (GetStats 30000000000 (run ten_requests (NewCollector 1000000000))).

(** *** The rank, analysed *)

(** [float64(p) / 100.0]. *)
Definition quotient (p : Z) : float64 := div (of_int p) (of_int 100).

(** [quotient p] as a multiple of 2^-59. *)
Definition scaled (p : Z) : Z :=
  match quotient p with
  | S754_finite false mc ec => Z.pos mc * 2 ^ (59 + ec)
  | _ => 0
  end.

(** [quotient p] is a normalised positive number, at most 1 and within
    6400 * 2^-59 / 100 of [p / 100]. *)
Definition quotient_ok (p : Z) : bool :=
  match quotient p with
  | S754_finite false mc ec =>
      (2 ^ 52 <=? Z.pos mc) && (Z.pos mc <? 2 ^ 53)
      && (-59 <=? ec) && (ec <=? -52) && (Z.pos mc <=? 2 ^ (- ec))
      && (-6400 <=? 100 * scaled p - p * 2 ^ 59)
      && (100 * scaled p - p * 2 ^ 59 <=? 6400)
  | _ => false
  end.

(** The percentiles [p] in 0..100 for which [float64(p) / 100.0] lies so far
    below [p / 100] that the product with some [n] rounds below an integer
    [p * n / 100]. *)
Definition inexact_percentiles : list Z :=
  [29; 35; 41; 47; 57; 58; 69; 70; 82; 94].

(** [quotient p] is close enough to [p / 100], from below, for the rounding
    of the product to make up for it. *)
Definition quotient_exact (p : Z) : bool :=
  0 <=? 2 ^ 54 * (100 * scaled p - p * 2 ^ 59) + 100 * scaled p.

(** A check of the quotient for [p]: it is in order, it is inexact exactly
    when listed, and no quotient for a larger percentile is below it. *)
Definition table_row (p : Z) : bool :=
  quotient_ok p
  && Bool.eqb (quotient_exact p)
       (negb (bool_decide (p ∈ inexact_percentiles)))
  && forallb (fun p' => implb (p <=? p') (scaled p <=? scaled p'))
       (seqZ 1 100).

(** The number whose truncation at 60 bits is the rank: twice the exact
    product of [v] (a multiple of 2^-59) and [n], plus one unit in the last
    place of its binary64 rounding. *)
Definition rounded (v n : Z) : Z :=
  2 * (n * v) + 2 ^ (Zdigits2 (n * v) - 53).

(** The rank in the specification's words: [floor(p/100 * n)]. *)
Definition spec_rank (p n : Z) : Z := p * n / 100.

(** The percentile in the specification's words. *)
Definition spec_percentile (sorted : list Duration) (p : Z) : option Duration :=
  let n := Z.of_nat (length sorted) in
  sorted !! Z.to_nat (Z.min (spec_rank p n) (n - 1)).

Definition spec_percentile_claim (lat : list Duration) (p : Z) : Prop :=
  percentile (sort_latencies lat) p = spec_percentile (sort_latencies lat) p.

(** The samples 1ns, 2ns, ..., 100ns. *)
Definition hundred_samples : list Duration := seqZ 1 100.

End Metrics.

(** ** Run-time outcomes of Go code *)

Module Go.

(** A call either returns or panics with a message. *)
Inductive result (A : Type) : Type :=
  | Ok (a : A)
  | Panic (msg : string).
Global Arguments Ok {A} a.
Global Arguments Panic {A} msg.

Definition is_panic {A : Type} (r : result A) : bool :=
  match r with Panic _ => true | Ok _ => false end.

End Go.

(** ** Patient records and responses ([package models]) *)

Module Models.

Record Patient : Type := mkPatient {
  ID : string;
  MedicalRecordNumber : string;
  FirstName : string;
  LastName : string;
  DateOfBirth : Metrics.Time;
  Gender : string;
  DiagnosisCodes : list string;
  Medications : list string;
  Allergies : list string;
  LastVisitDate : Metrics.Time;
  PrimaryPhysician : string;
  InsuranceProvider : string;
  BloodType : string
}.

(** [Patient] is a pointer in the source: [None] is [nil]. *)
Record PatientResponse : Type := mkPatientResponse {
  Success : bool;
  Patient_ : option Patient;
  Error : string;
  Timestamp : Metrics.Time;
  RequestID : string
}.

(** The zero value [PatientResponse{}]. *)
Definition zero_response : PatientResponse :=
  mkPatientResponse false None "" Metrics.time_zero "".

Definition NewPatientResponse (now : Metrics.Time) (patient : Patient)
    (requestID : string) : PatientResponse :=
  mkPatientResponse true (Some patient) "" now requestID.

Definition NewErrorResponse (now : Metrics.Time) (err : string)
    (requestID : string) : PatientResponse :=
  mkPatientResponse false None err now requestID.

End Models.

(** ** The latency and error source ([package simulator]) *)

Module Simulator.
Import Go Models Float64.

Record Database : Type := mkDatabase {
  queryCount : Z;
  errorCount : Z;
  minLatency : Metrics.Duration;
  maxLatency : Metrics.Duration;
  errorRate : float64
}.

Definition NewDatabase (minLatencyMs maxLatencyMs : Z) (rate : float64)
    : Database :=
  {| queryCount := 0; errorCount := 0;
     minLatency := Int64.mul minLatencyMs Metrics.Millisecond;
     maxLatency := Int64.mul maxLatencyMs Metrics.Millisecond;
     errorRate := rate |}.

(** [rand.Rand.Int63n n]: panics unless [0 < n]; otherwise reduces the raw
    63-bit draw [v] that the generator accepts into [0, n). *)
Definition Int63n (n : Z) (v : Z) : result Z :=
  if n <=? 0 then Panic "invalid argument to Int63n"
  else Ok (v mod n).

Definition getRandomLatency (db : Database) (v : Z) : result Metrics.Duration :=
  let delta := Int64.sub (maxLatency db) (minLatency db) in
  match Int63n delta v with
  | Panic msg => Panic msg
  | Ok randomDelta => Ok (Int64.add (minLatency db) randomDelta)
  end.

Definition incrementQueryCount (db : Database) : Database :=
  {| queryCount := Int64.add (queryCount db) 1; errorCount := errorCount db;
     minLatency := minLatency db; maxLatency := maxLatency db;
     errorRate := errorRate db |}.

Definition incrementErrorCount (db : Database) : Database :=
  {| queryCount := queryCount db; errorCount := Int64.add (errorCount db) 1;
     minLatency := minLatency db; maxLatency := maxLatency db;
     errorRate := errorRate db |}.

(** [shouldSimulateError]: [u] is the draw of [rng.Float64()]. *)
Definition shouldSimulateError (db : Database) (u : float64) : bool :=
  ltb u (errorRate db).

(** What [QueryPatient] hands back: a record or an error text. *)
Inductive query_outcome : Type :=
  | QPatient (p : Patient)
  | QError (msg : string).

(** [QueryPatient].  [v] and [u] are the two random draws; [ctx_err] is
    [Some e] when the context is done before the drawn latency elapses, [e]
    being the text of [ctx.Err()]; [generate] stands for
    [models.GeneratePatient]. *)
Definition QueryPatient (db : Database) (v : Z) (ctx_err : option string)
    (u : float64) (generate : string -> Patient) (patientID : string)
    : result (Database * query_outcome) :=
  match getRandomLatency db v with
  | Panic msg => Panic msg
  | Ok _ =>
      match ctx_err with
      | Some e =>
          Ok (incrementErrorCount db, QError ("query cancelled: " +:+ e))
      | None =>
          let db := incrementQueryCount db in
          if shouldSimulateError db u then
            Ok (incrementErrorCount db,
                QError ("database error: connection timeout for patient "
                          +:+ patientID))
          else Ok (db, QPatient (generate patientID))
      end
  end.

End Simulator.

(** ** The object reuse pool of [OptimizedHandler] *)

Module Optimized.
Import Models.

(** Containers are heap objects handled through pointers. *)
Abbreviation loc := nat (only parsing).

Record handler : Type := mkHandler {
  heap : gmap loc PatientResponse;
  next_loc : loc;
  idle : list loc;
  poolHits : Z;
  poolMisses : Z
}.

(** The pool part of [NewOptimizedHandler]: an empty [sync.Pool]. *)
Definition NewOptimizedHandler : handler :=
  {| heap := ∅; next_loc := 0%nat; idle := []; poolHits := 0;
     poolMisses := 0 |}.

(** The [New] closure of the pool: count a miss, allocate a container. *)
Definition pool_New (h : handler) : loc * handler :=
  (next_loc h,
   {| heap := <[next_loc h := zero_response]> (heap h);
      next_loc := S (next_loc h);
      idle := idle h;
      poolHits := poolHits h;
      poolMisses := Int64.add (poolMisses h) 1 |}).

(** [sync.Pool.Get]: removes and returns an arbitrary idle item, here the
    one at index [i] when [pick = Some i]; it may also treat the pool as
    empty ([pick = None]), and then, as when nothing is idle, calls [New]. *)
Definition pool_Get (pick : option nat) (h : handler) : loc * handler :=
  match pick ≫= (fun i => idle h !! i ≫= fun l => Some (i, l)) with
  | Some (i, l) =>
      (l, {| heap := heap h; next_loc := next_loc h;
             idle := delete i (idle h);
             poolHits := poolHits h; poolMisses := poolMisses h |})
  | None => pool_New h
  end.

Definition pool_Put (l : loc) (h : handler) : handler :=
  {| heap := heap h; next_loc := next_loc h; idle := idle h ++ [l];
     poolHits := poolHits h; poolMisses := poolMisses h |}.

Definition update (f : PatientResponse -> PatientResponse) (l : loc)
    (h : handler) : handler :=
  {| heap := alter f l (heap h); next_loc := next_loc h; idle := idle h;
     poolHits := poolHits h; poolMisses := poolMisses h |}.

(** [getResponse]. *)
Definition getResponse (pick : option nat) (h : handler) : loc * handler :=
  let '(resp, h) := pool_Get pick h in
  let h := {| heap := heap h; next_loc := next_loc h; idle := idle h;
              poolHits := Int64.add (poolHits h) 1;
              poolMisses := poolMisses h |} in
  (resp, update (fun _ => mkPatientResponse false None "" Metrics.time_zero "")
           resp h).

(** [putResponse]. *)
Definition putResponse (resp : loc) (h : handler) : handler :=
  let h := update (fun r => mkPatientResponse (Success r) None ""
                              (Timestamp r) (RequestID r)) resp h in
  pool_Put resp h.

(** The assignments of [processJob] on its container. *)
Definition stamp (now : Metrics.Time) (resp : loc) (h : handler) : handler :=
  update (fun r => mkPatientResponse (Success r) (Patient_ r) (Error r) now
                     (RequestID r)) resp h.

Definition fill_error (err : string) (resp : loc) (h : handler) : handler :=
  update (fun r => mkPatientResponse false (Patient_ r) err (Timestamp r)
                     (RequestID r)) resp h.

Definition fill_success (patient : Patient) (resp : loc) (h : handler)
    : handler :=
  update (fun r => mkPatientResponse true (Some patient) (Error r)
                     (Timestamp r) (RequestID r)) resp h.

(** The container's side of [processJob], start to end: acquire, stamp,
    fill from the query's outcome; on an error the container goes straight
    back to the pool, on success it is left to the submitter. *)
Definition processJob (pick : option nat) (now : Metrics.Time)
    (outcome : Simulator.query_outcome) (h : handler) : loc * handler :=
  let '(response, h) := getResponse pick h in
  let h := stamp now response h in
  match outcome with
  | Simulator.QError err =>
      (response, putResponse response (fill_error err response h))
  | Simulator.QPatient patient =>
      (response, fill_success patient response h)
  end.

(** [GetPoolStats], counters only. *)
Definition GetPoolStats (h : handler) : Z * Z := (poolHits h, poolMisses h).

(** Every idle container is an allocated one. *)
Definition pool_wf (h : handler) : Prop :=
  forall l, l ∈ idle h -> is_Some (heap h !! l).

(** The release claim in the specification's words: once released, the
    container holds nothing of its last use. *)
Definition spec_release_clears_all (l : loc) (h : handler) : Prop :=
  forall r, heap (putResponse l h) !! l = Some r -> r = zero_response.

Definition sample_patient : Patient :=
  mkPatient "P00042" "MRN-0000042" "Mary" "Smith" 0 "Female" ["I10"]
    ["Lisinopril 10mg"] ["Penicillin"] 0 "Dr. Chen" "Aetna" "O+".

(** A fresh handler after one successful job stamped at instant 5000:
    the container the submitter holds, and the handler. *)
Definition served : loc * handler :=
  processJob None 5000 (Simulator.QPatient sample_patient) NewOptimizedHandler.

End Optimized.

(** ** The worker pool ([WorkerPoolHandler], [OptimizedHandler]) *)

Module Pool.
Import Go Models.

(** Jobs and workers are known by their index. *)
Abbreviation job_id := nat (only parsing).
Abbreviation worker_id := nat (only parsing).

(** A response travels as a pointer: to a freshly allocated value
    ([WorkerPoolHandler]) or to a pooled container ([OptimizedHandler]). *)
Inductive response_ref : Type :=
  | Fresh (r : PatientResponse)
  | Pooled (l : Optimized.loc).

Inductive outcome : Type :=
  | OResult (r : response_ref)
  | OError (err : string).

(** A job with its context and its result conduit: two channels of
    capacity 1.  [written] is a history variable: every send ever performed
    on either channel, oldest first. *)
Record job : Type := mkJob {
  patientID : string;
  ctx_done : bool;
  resultChan : list response_ref;
  errChan : list string;
  written : list outcome
}.

(** Where a worker goroutine stands: about to evaluate the [select] of
    its loop, parked in it, holding a job it received, inside [processJob]
    waiting for the database, or returned. *)
Inductive wstate : Type :=
  | WSelect
  | WParked
  | WReceived (j : job_id)
  | WBusy (j : job_id) (resp : option Optimized.loc)
  | WExited.

Record WorkerPoolConfig : Type := mkConfig {
  Workers : Z;
  QueueSize : Z
}.

Definition DefaultWorkerPoolConfig : WorkerPoolConfig := mkConfig 20 100.

(** The handler.  [jobQueue] is the buffer of the channel, [queue_closed]
    its closed flag, [cancelled] the state of [h.ctx]; [jobs] is the heap of
    job objects, a job's identifier being its index; [workersDone] is the
    channel that [Shutdown]'s helper goroutine closes; [pool] is the object
    pool of the optimized variant. *)
Record state : Type := mkState {
  workers_n : Z;
  queueSize : Z;
  jobQueue : list job_id;
  queue_closed : bool;
  cancelled : bool;
  workers : list wstate;
  activeJobs : Z;
  queuedJobs : Z;
  jobs : list job;
  workersDone : bool;
  pool : option Optimized.handler
}.

Definition set_jobQueue (q : list job_id) (s : state) : state :=
  mkState (workers_n s) (queueSize s) q (queue_closed s) (cancelled s)
    (workers s) (activeJobs s) (queuedJobs s) (jobs s) (workersDone s) (pool s).
Definition set_queue_closed (b : bool) (s : state) : state :=
  mkState (workers_n s) (queueSize s) (jobQueue s) b (cancelled s)
    (workers s) (activeJobs s) (queuedJobs s) (jobs s) (workersDone s) (pool s).
Definition set_cancelled (b : bool) (s : state) : state :=
  mkState (workers_n s) (queueSize s) (jobQueue s) (queue_closed s) b
    (workers s) (activeJobs s) (queuedJobs s) (jobs s) (workersDone s) (pool s).
Definition set_workers (ws : list wstate) (s : state) : state :=
  mkState (workers_n s) (queueSize s) (jobQueue s) (queue_closed s)
    (cancelled s) ws (activeJobs s) (queuedJobs s) (jobs s) (workersDone s)
    (pool s).
Definition set_activeJobs (n : Z) (s : state) : state :=
  mkState (workers_n s) (queueSize s) (jobQueue s) (queue_closed s)
    (cancelled s) (workers s) n (queuedJobs s) (jobs s) (workersDone s)
    (pool s).
Definition set_queuedJobs (n : Z) (s : state) : state :=
  mkState (workers_n s) (queueSize s) (jobQueue s) (queue_closed s)
    (cancelled s) (workers s) (activeJobs s) n (jobs s) (workersDone s)
    (pool s).
Definition set_jobs (js : list job) (s : state) : state :=
  mkState (workers_n s) (queueSize s) (jobQueue s) (queue_closed s)
    (cancelled s) (workers s) (activeJobs s) (queuedJobs s) js
    (workersDone s) (pool s).
Definition set_workersDone (b : bool) (s : state) : state :=
  mkState (workers_n s) (queueSize s) (jobQueue s) (queue_closed s)
    (cancelled s) (workers s) (activeJobs s) (queuedJobs s) (jobs s) b
    (pool s).
Definition set_pool (p : option Optimized.handler) (s : state) : state :=
  mkState (workers_n s) (queueSize s) (jobQueue s) (queue_closed s)
    (cancelled s) (workers s) (activeJobs s) (queuedJobs s) (jobs s)
    (workersDone s) p.

(** [NewWorkerPoolHandler] ([optimized = false]) and [NewOptimizedHandler]
    ([optimized = true]).  [make(chan *job, n)] panics on a negative [n];
    [startWorkers] spawns [Workers] goroutines, none for a count below 1. *)
Definition NewHandler (optimized : bool) (config : WorkerPoolConfig)
    : result state :=
  if QueueSize config <? 0 then Panic "makechan: size out of range"
  else Ok {| workers_n := Workers config;
             queueSize := QueueSize config;
             jobQueue := [];
             queue_closed := false;
             cancelled := false;
             workers := replicate (Z.to_nat (Workers config)) WSelect;
             activeJobs := 0;
             queuedJobs := 0;
             jobs := [];
             workersDone := false;
             pool := if optimized then Some Optimized.NewOptimizedHandler
                     else None |}.

Definition NewWorkerPoolHandler : WorkerPoolConfig -> result state :=
  NewHandler false.
Definition NewOptimizedHandler : WorkerPoolConfig -> result state :=
  NewHandler true.

(** *** Go's [select] *)

(** Among the ready cases the run time takes one at random, here the one
    that [choice] designates; [None] when no case is ready. *)
Definition select_case {A : Type} (ready : list A) (choice : nat) : option A :=
  ready !! (choice `mod` length ready)%nat.

Definition when {A : Type} (b : bool) (x : A) : list A :=
  if b then [x] else [].

(** *** Sending on the job queue *)

(** The receiver parked on the queue that a send serves. *)
Fixpoint find_parked (ws : list wstate) : option worker_id :=
  match ws with
  | [] => None
  | WParked :: _ => Some 0%nat
  | _ :: rest => S <$> find_parked rest
  end.

(** What a send on [h.jobQueue] meets: a closed channel (it panics), a
    parked receiver (direct hand-over), room in the buffer, or neither (it
    would block). *)
Inductive send_status : Type :=
  | SendClosed
  | SendHandoff (w : worker_id)
  | SendBuffer
  | SendBlocked.

Definition chansend_status (s : state) : send_status :=
  if queue_closed s then SendClosed
  else match find_parked (workers s) with
       | Some w => SendHandoff w
       | None =>
           if Z.of_nat (length (jobQueue s)) <? queueSize s then SendBuffer
           else SendBlocked
       end.

Definition send_ready (s : state) : bool :=
  match chansend_status s with SendBlocked => false | _ => true end.

Definition new_job (id : string) (done : bool) : job :=
  mkJob id done [] [] [].

(** The case [h.jobQueue <- j] once selected, with the
    [atomic.AddInt64(&h.queuedJobs, 1)] that follows it.  The job object is
    allocated at index [length (jobs s)]. *)
Definition send_job (id : string) (done : bool) (s : state)
    : result (job_id * state) :=
  let j := length (jobs s) in
  match chansend_status s with
  | SendClosed => Panic "send on closed channel"
  | SendHandoff w =>
      Ok (j, set_queuedJobs (Int64.add (queuedJobs s) 1)
               (set_workers (<[w := WReceived j]> (workers s))
                  (set_jobs (jobs s ++ [new_job id done]) s)))
  | _ =>
      Ok (j, set_queuedJobs (Int64.add (queuedJobs s) 1)
               (set_jobQueue (jobQueue s ++ [j])
                  (set_jobs (jobs s ++ [new_job id done]) s)))
  end.

(** *** Submission *)

Record request : Type := mkRequest {
  req_patient : string;
  req_ctx_done : bool;
  req_request_id : string
}.

Inductive submit_case : Type := CaseSend | CaseCtxDone | CaseTimer.

(** How the first half of a submission ends: an immediate reply of
    [ServeHTTP] (status and text of [http.Error]), an immediate error of
    [HandleRequest], or the job is in the queue and the submitter goes on to
    wait for it. *)
Inductive submitted : Type :=
  | Replied (status : Z) (msg : string)
  | Failed (err : string)
  | Enqueued (j : job_id).

Definition StatusBadRequest : Z := 400.
Definition StatusRequestTimeout : Z := 408.
Definition StatusInternalServerError : Z := 500.
Definition StatusServiceUnavailable : Z := 503.

(** [ServeHTTP] up to and including the enqueueing [select], which has a
    [default] case. *)
Definition ServeHTTP_submit (r : request) (choice : nat) (s : state)
    : result (submitted * state) :=
  if String.eqb (req_patient r) "" then
    Ok (Replied StatusBadRequest "patient ID required", s)
  else
    let ready := when (send_ready s) CaseSend
                 ++ when (req_ctx_done r) CaseCtxDone in
    match select_case ready choice with
    | Some CaseSend =>
        match send_job (req_patient r) (req_ctx_done r) s with
        | Panic msg => Panic msg
        | Ok (j, s) => Ok (Enqueued j, s)
        end
    | Some _ => Ok (Replied StatusRequestTimeout "request cancelled", s)
    | None =>
        Ok (Replied StatusServiceUnavailable
              "service overloaded, please retry", s)
    end.

(** [HandleRequest] up to and including its enqueueing [select], which
    has no [default] but a 100ms timer: [None] while no case is ready.
    [ctx_err] is [Some e] when the caller's context is done, [e] being the
    text of [ctx.Err()]; [timer] tells whether the 100ms have passed. *)
Definition HandleRequest_submit (patient : string) (ctx_err : option string)
    (timer : bool) (choice : nat) (s : state)
    : result (option (submitted * state)) :=
  let ready := when (send_ready s) CaseSend
               ++ when (bool_decide (is_Some ctx_err)) CaseCtxDone
               ++ when timer CaseTimer in
  match select_case ready choice with
  | Some CaseSend =>
      match send_job patient (bool_decide (is_Some ctx_err)) s with
      | Panic msg => Panic msg
      | Ok (j, s) => Ok (Some (Enqueued j, s))
      end
  | Some CaseCtxDone => Ok (Some (Failed (default "" ctx_err), s))
  | Some CaseTimer => Ok (Some (Failed "queue full: request rejected", s))
  | None => Ok None
  end.

(** *** The worker loop *)

Inductive worker_case : Type := CaseHandlerDone | CaseRecv.

(** The head of [processJob]: the two counters and, in the optimized
    variant, [getResponse]; the worker then waits in [QueryPatient]. *)
Definition begin_job (w : worker_id) (j : job_id) (pick : option nat)
    (s : state) : state :=
  let s := set_activeJobs (Int64.add (activeJobs s) 1) s in
  let s := set_queuedJobs (Int64.add (queuedJobs s) (-1)) s in
  match pool s with
  | None => set_workers (<[w := WBusy j None]> (workers s)) s
  | Some h =>
      let '(l, h) := Optimized.getResponse pick h in
      set_pool (Some h) (set_workers (<[w := WBusy j (Some l)]> (workers s)) s)
  end.

Definition nonempty {A : Type} (l : list A) : bool :=
  match l with [] => false | _ :: _ => true end.

(** One move of worker [w]: at its [select] it returns on the handler's
    cancellation, receives the head of the queue, returns on a closed and
    drained queue, or parks; holding a job it enters [processJob]. *)
Definition worker_step (w : worker_id) (choice : nat) (pick : option nat)
    (s : state) : state :=
  match workers s !! w with
  | Some WSelect =>
      let ready := when (cancelled s) CaseHandlerDone
                   ++ when (nonempty (jobQueue s) || queue_closed s) CaseRecv in
      match select_case ready choice with
      | Some CaseHandlerDone => set_workers (<[w := WExited]> (workers s)) s
      | Some CaseRecv =>
          match jobQueue s with
          | j :: rest => begin_job w j pick (set_jobQueue rest s)
          | [] => set_workers (<[w := WExited]> (workers s)) s
          end
      | None => set_workers (<[w := WParked]> (workers s)) s
      end
  | Some (WReceived j) => begin_job w j pick s
  | _ => s
  end.

Inductive deliver_case : Type := CaseDeliver | CaseJobDone.

Definition push_result (r : response_ref) (jb : job) : job :=
  mkJob (patientID jb) (ctx_done jb) (resultChan jb ++ [r]) (errChan jb)
    (written jb ++ [OResult r]).

Definition push_error (err : string) (jb : job) : job :=
  mkJob (patientID jb) (ctx_done jb) (resultChan jb) (errChan jb ++ [err])
    (written jb ++ [OError err]).

Definition on_pool (f : Optimized.handler -> Optimized.handler) (s : state)
    : state :=
  set_pool (f <$> pool s) s.

(** The return of [processJob]: the deferred decrement, and the worker is
    back at its [select]. *)
Definition end_job (w : worker_id) (s : state) : state :=
  set_workers (<[w := WSelect]> (workers s))
    (set_activeJobs (Int64.add (activeJobs s) (-1)) s).

(** The rest of [processJob] for worker [w], once [QueryPatient] has
    returned [qo]: a [select] between the send on the job's channel and the
    job's context.  While neither is ready the worker stays where it is. *)
Definition finish_job (w : worker_id) (qo : Simulator.query_outcome)
    (now : Metrics.Time) (choice : nat) (s : state) : state :=
  match workers s !! w with
  | Some (WBusy j c) =>
      match jobs s !! j with
      | None => s
      | Some jb =>
          match qo with
          | Simulator.QError err =>
              let ready := when (length (errChan jb) <? 1)%nat CaseDeliver
                           ++ when (ctx_done jb) CaseJobDone in
              let recycle s :=
                match c with
                | Some l =>
                    on_pool (fun h =>
                      Optimized.putResponse l
                        (Optimized.fill_error err l (Optimized.stamp now l h))) s
                | None => s
                end in
              match select_case ready choice with
              | Some CaseDeliver =>
                  end_job w (recycle
                    (set_jobs (<[j := push_error err jb]> (jobs s)) s))
              | Some CaseJobDone => end_job w (recycle s)
              | None => s
              end
          | Simulator.QPatient patient =>
              let ready := when (length (resultChan jb) <? 1)%nat CaseDeliver
                           ++ when (ctx_done jb) CaseJobDone in
              let response :=
                match c with
                | Some l => Pooled l
                | None => Fresh (NewPatientResponse now patient "")
                end in
              let fill s :=
                match c with
                | Some l =>
                    on_pool (fun h =>
                      Optimized.fill_success patient l
                        (Optimized.stamp now l h)) s
                | None => s
                end in
              match select_case ready choice with
              | Some CaseDeliver =>
                  end_job w (fill
                    (set_jobs (<[j := push_result response jb]> (jobs s)) s))
              | Some CaseJobDone => end_job w (fill s)
              | None => s
              end
          end
      end
  | _ => s
  end.

(** *** Waiting for the outcome *)

Inductive wait_case : Type := CaseResult | CaseErr | CaseRequestDone.

Inductive delivered : Type :=
  | GotResult (r : response_ref)
  | GotError (err : string)
  | GotCancelled.

(** The second [select] of [ServeHTTP] and of [HandleRequest] on job [j];
    [None] while no case is ready.  [ServeHTTP] of the optimized variant
    puts a pooled response back after encoding it ([put_back]). *)
Definition await (j : job_id) (put_back : bool) (choice : nat) (s : state)
    : option (delivered * state) :=
  jb ← jobs s !! j;
  let ready := when (nonempty (resultChan jb)) CaseResult
               ++ when (nonempty (errChan jb)) CaseErr
               ++ when (ctx_done jb) CaseRequestDone in
  c ← select_case ready choice;
  match c with
  | CaseResult =>
      r ← head (resultChan jb);
      let jb' := mkJob (patientID jb) (ctx_done jb) (tail (resultChan jb))
                   (errChan jb) (written jb) in
      let s := set_jobs (<[j := jb']> (jobs s)) s in
      Some (GotResult r,
            match r with
            | Pooled l =>
                if put_back then on_pool (Optimized.putResponse l) s else s
            | Fresh _ => s
            end)
  | CaseErr =>
      e ← head (errChan jb);
      let jb' := mkJob (patientID jb) (ctx_done jb) (resultChan jb)
                   (tail (errChan jb)) (written jb) in
      Some (GotError e, set_jobs (<[j := jb']> (jobs s)) s)
  | CaseRequestDone => Some (GotCancelled, s)
  end.

(** The submitter's context is cancelled or times out. *)
Definition cancel_request (j : job_id) (s : state) : state :=
  set_jobs (alter (fun jb => mkJob (patientID jb) true (resultChan jb)
                               (errChan jb) (written jb)) j (jobs s)) s.

(** *** Shutdown *)

(** Closing a channel or a context wakes the goroutines parked on it. *)
Definition wake (ws : list wstate) : list wstate :=
  (fun w => match w with WParked => WSelect | _ => w end) <$> ws.

(** [close(h.jobQueue)]. *)
Definition Shutdown_close (s : state) : result state :=
  if queue_closed s then Panic "close of closed channel"
  else Ok (set_workers (wake (workers s)) (set_queue_closed true s)).

(** [h.cancel()]. *)
Definition Shutdown_cancel (s : state) : state :=
  set_workers (wake (workers s)) (set_cancelled true s).

Definition exited (w : wstate) : bool :=
  match w with WExited => true | _ => false end.

(** The helper goroutine: [h.wg.Wait(); close(workersDone)]. *)
Definition waiter_step (s : state) : state :=
  if forallb exited (workers s) then set_workersDone true s else s.

Inductive shutdown_case : Type := CaseWorkersDone | CaseDeadline.

Definition shutdown_timeout_text : string :=
  "shutdown timeout: workers still processing".

(** The final [select] of [Shutdown]: [Some None] is the [nil] error,
    [Some (Some e)] the error [e], [None] means still waiting. *)
Definition Shutdown_select (deadline_done : bool) (choice : nat) (s : state)
    : option (option string) :=
  match select_case (when (workersDone s) CaseWorkersDone
                     ++ when deadline_done CaseDeadline) choice with
  | Some CaseWorkersDone => Some None
  | Some CaseDeadline => Some (Some shutdown_timeout_text)
  | None => None
  end.

(** The number of workers that have not returned. *)
Definition outstanding (s : state) : nat :=
  length (filter (fun w => exited w = false) (workers s)).

(** *** The handler as a transition system *)

Inductive label : Type :=
  | LServeHTTP (r : request) (choice : nat)
  | LHandleRequest (patient : string) (ctx_err : option string)
      (timer : bool) (choice : nat)
  | LAwait (j : job_id) (put_back : bool) (choice : nat)
  | LWorker (w : worker_id) (choice : nat) (pick : option nat)
  | LFinish (w : worker_id) (qo : Simulator.query_outcome)
      (now : Metrics.Time) (choice : nat)
  | LCancelRequest (j : job_id)
  | LShutdownClose
  | LShutdownCancel
  | LWaiter.

Definition step (l : label) (s : state) : result state :=
  match l with
  | LServeHTTP r choice =>
      match ServeHTTP_submit r choice s with
      | Panic msg => Panic msg
      | Ok (_, s) => Ok s
      end
  | LHandleRequest patient ctx_err timer choice =>
      match HandleRequest_submit patient ctx_err timer choice s with
      | Panic msg => Panic msg
      | Ok (Some (_, s)) => Ok s
      | Ok None => Ok s
      end
  | LAwait j put_back choice =>
      match await j put_back choice s with
      | Some (_, s) => Ok s
      | None => Ok s
      end
  | LWorker w choice pick => Ok (worker_step w choice pick s)
  | LFinish w qo now choice => Ok (finish_job w qo now choice s)
  | LCancelRequest j => Ok (cancel_request j s)
  | LShutdownClose => Shutdown_close s
  | LShutdownCancel => Ok (Shutdown_cancel s)
  | LWaiter => Ok (waiter_step s)
  end.

Fixpoint exec (ls : list label) (s : state) : result state :=
  match ls with
  | [] => Ok s
  | l :: rest =>
      match step l s with
      | Panic msg => Panic msg
      | Ok s => exec rest s
      end
  end.

(** *** [NaiveHandler.Shutdown] *)

(** The loop reads the counter, returns [nil] on zero, and otherwise
    polls the context.  Each round sees one pair: the counter's value and
    whether the context is done; [None] when the rounds run out with the
    loop still spinning. *)
Fixpoint Naive_Shutdown (rounds : list (Z * bool)) : option (option string) :=
  match rounds with
  | [] => None
  | (active, done) :: rest =>
      if active =? 0 then Some None
      else if done then
        Some (Some ("shutdown timeout: " +:+ pretty active
                      +:+ " goroutines still active"))
      else Naive_Shutdown rest
  end.

(** *** Invariants and statements *)

(** The job a worker holds, if any. *)
Definition holds_job (x : wstate) : option job_id :=
  match x with
  | WReceived j | WBusy j _ => Some j
  | _ => None
  end.

(** The jobs in flight: queued, or held by a worker. *)
Definition in_flight (s : state) : list job_id :=
  jobQueue s ++ omap holds_job (workers s).

Definition unwritten (jb : job) : Prop :=
  written jb = [] /\ resultChan jb = [] /\ errChan jb = [].

(** At most one outcome was ever sent, and the channels hold no more
    than what was sent. *)
Definition conduit_ok (jb : job) : Prop :=
  (length (written jb) <= 1)%nat
  /\ (length (resultChan jb) + length (errChan jb) <= length (written jb))%nat.

(** No job is in flight twice, nothing was written for a job in flight,
    and every conduit is in order. *)
Definition conduits_ok (s : state) : Prop :=
  NoDup (in_flight s)
  /\ (forall j, j ∈ in_flight s ->
        exists jb, jobs s !! j = Some jb /\ unwritten jb)
  /\ (forall j jb, jobs s !! j = Some jb -> conduit_ok jb).

(** A receiver parks only on an empty queue. *)
Definition queue_or_parked (s : state) : Prop :=
  jobQueue s = [] \/ find_parked (workers s) = None.

(** [workersDone] is closed only after every worker has returned. *)
Definition done_means_exited (s : state) : Prop :=
  workersDone s = true -> forallb exited (workers s) = true.

Definition invariant (P : state -> Prop) : Prop :=
  forall l s s', P s -> step l s = Ok s' -> P s'.

(** The reply to a submission that finds the queue full. *)
Definition overloaded : submitted :=
  Replied StatusServiceUnavailable "service overloaded, please retry".

Definition sample_request : request := mkRequest "P00042" false "req-1".

(** The shutdown claim in the specification's words: the timeout error
    names how many workers are still outstanding, that is, the count can be
    read off the error. *)
Definition spec_timeout_names_outstanding : Prop :=
  exists count_of : string -> nat,
    forall config s0 ls s choice e,
      NewWorkerPoolHandler config = Ok s0 -> exec ls s0 = Ok s ->
      Shutdown_select true choice s = Some (Some e) ->
      count_of e = outstanding s.

Definition state_of (r : result state) : state :=
  match r with
  | Ok s => s
  | Panic _ => mkState 0 0 [] false false [] 0 0 [] false None
  end.

(** Sample runs: a request accepted into the queue; the same with the
    job taken by the worker and then shutdown begun; two workers, each with
    a job, and shutdown begun; a job served to its end. *)
Definition one_queued : list label := [LServeHTTP sample_request 0].

Definition one_in_flight : list label :=
  [LServeHTTP sample_request 0; LWorker 0 0 None;
   LShutdownClose; LShutdownCancel].

Definition two_in_flight : list label :=
  [LServeHTTP sample_request 0; LServeHTTP sample_request 0;
   LWorker 0 0 None; LWorker 1 0 None; LShutdownClose; LShutdownCancel].

Definition one_served : list label :=
  [LServeHTTP sample_request 0; LWorker 0 0 None;
   LFinish 0 (Simulator.QPatient Optimized.sample_patient) 5000 0].

Definition pool_1_1 : state :=
  Eval vm_compute in state_of (NewWorkerPoolHandler (mkConfig 1 1)).
Definition pool_2_2 : state :=
  Eval vm_compute in state_of (NewWorkerPoolHandler (mkConfig 2 2)).
Definition state_one_queued : state :=
  Eval vm_compute in state_of (exec one_queued pool_1_1).
Definition state_one_in_flight : state :=
  Eval vm_compute in state_of (exec one_in_flight pool_1_1).
Definition state_two_in_flight : state :=
  Eval vm_compute in state_of (exec two_in_flight pool_2_2).
Definition state_one_served : state :=
  Eval vm_compute in state_of (exec one_served pool_1_1).
Definition job_one_served : job :=
  Eval vm_compute in default (new_job "" false) (jobs state_one_served !! 0%nat).

End Pool.

(** ** The collector's samples *)

Module Samples.
Import Metrics Float64.

(** The sample a call records, if any. *)
Definition sample_of (ev : event) : option Duration :=
  match ev with
  | (_, CRecordRequest latency _) => Some latency
  | _ => None
  end.

Definition is_reset (ev : event) : bool :=
  match ev with (_, CReset) => true | _ => false end.

(** The exact sum of a list of samples. *)
Definition total (l : list Duration) : Z := foldr Z.add 0 l.

End Samples.

(** ** The simulated database: queries, batches, statistics *)

Module Queries.
Import Go Models Float64 Simulator.

(** [Database.GetStats] and [Database.ResetStats]. *)
Definition GetStats (db : Database) : Z * Z := (queryCount db, errorCount db).

Definition ResetStats (db : Database) : Database :=
  {| queryCount := 0; errorCount := 0;
     minLatency := minLatency db; maxLatency := maxLatency db;
     errorRate := errorRate db |}.

(** What one call of [QueryPatient] meets: the raw draw for the latency,
    the state of its context (as for [QueryPatient]) and the draw of
    [rng.Float64()]. *)
Record draw : Type := mkDraw {
  latency_draw : Z;
  ctx_err : option string;
  error_draw : float64
}.

Definition is_error (o : query_outcome) : bool :=
  match o with QError _ => true | QPatient _ => false end.

(** A sequence of [QueryPatient] calls on one database, each with its
    patient id and what it meets. *)
Fixpoint run_queries (db : Database) (generate : string -> Patient)
    (reqs : list (string * draw))
    : result (Database * list query_outcome) :=
  match reqs with
  | [] => Ok (db, [])
  | (id, d) :: rest =>
      match QueryPatient db (latency_draw d) (ctx_err d) (error_draw d)
              generate id with
      | Panic msg => Panic msg
      | Ok (db, o) =>
          match run_queries db generate rest with
          | Panic msg => Panic msg
          | Ok (db, os) => Ok (db, o :: os)
          end
      end
  end.

(** The loop of [BatchQueryPatients], [patients] being the slice built
    so far: the first error ends it with a [nil] slice and the wrapped
    error. *)
Fixpoint BatchQueryPatients_loop (db : Database) (generate : string -> Patient)
    (reqs : list (string * draw)) (patients : list Patient)
    : result (Database * (list Patient + string)) :=
  match reqs with
  | [] => Ok (db, inl patients)
  | (id, d) :: rest =>
      match QueryPatient db (latency_draw d) (ctx_err d) (error_draw d)
              generate id with
      | Panic msg => Panic msg
      | Ok (db, QError err) =>
          Ok (db, inr ("failed to query patient " +:+ id +:+ ": " +:+ err))
      | Ok (db, QPatient patient) =>
          BatchQueryPatients_loop db generate rest (patients ++ [patient])
      end
  end.

(** [BatchQueryPatients]: the ids, each paired with what its query
    meets. *)
Definition BatchQueryPatients (db : Database) (generate : string -> Patient)
    (reqs : list (string * draw))
    : result (Database * (list Patient + string)) :=
  BatchQueryPatients_loop db generate reqs [].

(** The latency bounds allow a draw. *)
Definition bounds_ok (db : Database) : Prop :=
  0 < Int64.sub (maxLatency db) (minLatency db).

Definition live (r : string * draw) : bool :=
  bool_decide (ctx_err r.2 = None).

Definition sample_db : Database := NewDatabase 50 100 (S754_zero false).

Definition sample_draws : list (string * draw) :=
  [("P00001", mkDraw 7 None (S754_zero false));
   ("P00002", mkDraw 8 (Some "context canceled") (S754_zero false));
   ("P00003", mkDraw 9 None (S754_zero false))].

End Queries.

(** ** Patient records: [GeneratePatient], [Validate], [GetAge],
       [hashString] *)

Module Patients.
Import Go Models.

(** [hashString]; [s] is the sequence of runes that [range s] yields. *)
Definition hashString (s : list Z) : Z :=
  foldl (fun h c => Int64.add (Int64.mul 31 h) c) 0 s.

(** The same polynomial over the integers. *)
Definition horner (h : Z) (s : list Z) : Z :=
  foldl (fun h c => 31 * h + c) h s.

(** [Validate]; [now] is the reading of [time.Now()], [None] the [nil]
    error. *)
Definition Validate (now : Metrics.Time) (p : Patient) : option string :=
  if String.eqb (ID p) "" then Some "patient ID is required"
  else if String.eqb (FirstName p) "" || String.eqb (LastName p) ""
  then Some "patient name is required"
  else if now <? DateOfBirth p
  then Some "date of birth cannot be in the future"
  else None.

(** A calendar date, as [Time.Year], [Time.Month] and [Time.Day] give
    it. *)
Record Date : Type := mkDate { Year : Z; Month : Z; Day : Z }.

(** [GetAge]; [now] and [dob] are the calendar readings of [time.Now()]
    and of [p.DateOfBirth]. *)
Definition GetAge (now dob : Date) : Z :=
  let age := Int64.sub (Year now) (Year dob) in
  if (Month now <? Month dob)
     || ((Month now =? Month dob) && (Day now <? Day dob))
  then Int64.sub age 1
  else age.

(** Dates in calendar order. *)
Definition date_le (a b : Date) : Prop :=
  Year a < Year b
  \/ (Year a = Year b
      /\ (Month a < Month b \/ (Month a = Month b /\ Day a <= Day b))).

(** The day of the year [Year d + k] with the month and day of [d]. *)
Definition anniversary (d : Date) (k : Z) : Date :=
  mkDate (Year d + k) (Month d) (Day d).

(** *** The sample tables *)

Definition firstNames : list string :=
  ["James"; "Mary"; "John"; "Patricia"; "Robert"; "Jennifer";
   "Michael"; "Linda"; "William"; "Elizabeth"; "David"; "Barbara";
   "Richard"; "Susan"; "Joseph"; "Jessica"; "Thomas"; "Sarah"].

Definition lastNames : list string :=
  ["Smith"; "Johnson"; "Williams"; "Brown"; "Jones"; "Garcia";
   "Miller"; "Davis"; "Rodriguez"; "Martinez"; "Hernandez"; "Lopez";
   "Wilson"; "Anderson"; "Thomas"; "Taylor"; "Moore"; "Jackson"].

Definition diagnosisCodes : list string :=
  ["E11.9"; "I10"; "J44.9"; "E78.5"; "M54.5"; "F41.9"; "K21.9"; "J45.909"].

Definition medications : list string :=
  ["Metformin 500mg"; "Lisinopril 10mg"; "Atorvastatin 20mg";
   "Omeprazole 20mg"; "Albuterol inhaler"; "Levothyroxine 75mcg";
   "Amlodipine 5mg"; "Gabapentin 300mg"; "Sertraline 50mg"].

Definition allergies : list string :=
  ["Penicillin"; "Sulfa drugs"; "Aspirin"; "Iodine";
   "Latex"; "Shellfish"; "No known allergies"].

Definition physicians : list string :=
  ["Dr. Anderson"; "Dr. Patel"; "Dr. Chen"; "Dr. Williams";
   "Dr. Johnson"; "Dr. Rodriguez"; "Dr. Kim"; "Dr. Thompson"].

Definition insuranceProviders : list string :=
  ["Blue Cross Blue Shield"; "UnitedHealthcare"; "Aetna";
   "Cigna"; "Humana"; "Kaiser Permanente"; "Medicare"; "Medicaid"].

Definition bloodTypes : list string :=
  ["A+"; "A-"; "B+"; "B-"; "AB+"; "AB-"; "O+"; "O-"].

(** *** The global random source *)

(** A computation that draws from the source: [src] lists the raw
    values the seeded source yields, the state is the position of the next
    one; it may panic. *)
Definition Rand (A : Type) : Type := (nat -> Z) -> nat -> result (A * nat).

#[global] Instance Rand_ret : MRet Rand := fun A a _ k => Ok (a, k).

#[global] Instance Rand_bind : MBind Rand := fun A B f m src k =>
  match m src k with
  | Panic msg => Panic msg
  | Ok (a, k) => f a src k
  end.

(** [rand.Intn n]: panics unless [0 < n]; otherwise reduces the raw
    draw into [0, n). *)
Definition Intn (n : Z) : Rand Z := fun src k =>
  if n <=? 0 then Panic "invalid argument to Intn"
  else Ok (src k mod n, S k).

(** [table[i]]: an index out of range panics. *)
Definition index (table : list string) (i : Z) : Rand string := fun _ k =>
  match (if i <? 0 then None else table !! Z.to_nat i) with
  | Some x => Ok (x, k)
  | None => Panic "index out of range"
  end.

Definition len (table : list string) : Z := Z.of_nat (length table).

(** [for i := 0; i < count; i++ { selected[i] = table[rand.Intn(len(table))] }]. *)
Fixpoint choose (count : nat) (table : list string) : Rand (list string) :=
  match count with
  | O => mret []
  | S count =>
      i ← Intn (len table);
      x ← index table i;
      rest ← choose count table;
      mret (x :: rest)
  end.

Fixpoint zeros (k : nat) : string :=
  match k with O => "" | S k => "0" +:+ zeros k end.

(** [fmt.Sprintf("MRN-%07d", n)] for a non-negative [n]. *)
Definition mrn (n : Z) : string :=
  "MRN-" +:+ zeros (7 - String.length (pretty n)) +:+ pretty n.

(** [GeneratePatient], after its [rand.Seed].  [AddDate t years months
    days] stands for [t.AddDate(years, months, days)]; [now_dob] and
    [now_visit] are the two later readings of [time.Now()]. *)
Definition GeneratePatient (AddDate : Metrics.Time -> Z -> Z -> Z -> Metrics.Time)
    (now_dob now_visit : Metrics.Time) (id : string) : Rand Patient :=
  y ← Intn 72;
  let yearsOld := Int64.add y 18 in
  m ← Intn 12;
  d ← Intn 28;
  let dob := AddDate now_dob (Int64.sub 0 yearsOld) (Int64.sub 0 m)
               (Int64.sub 0 d) in
  dc ← Intn 3;
  let diagnosisCount := Int64.add dc 1 in
  selectedDiagnoses ← choose (Z.to_nat diagnosisCount) diagnosisCodes;
  medCount ← Intn 5;
  selectedMeds ← choose (Z.to_nat medCount) medications;
  ac ← Intn 3;
  let allergyCount := if ac =? 0 then 1 else ac in
  selectedAllergies ← choose (Z.to_nat allergyCount) allergies;
  vm ← Intn 12;
  vd ← Intn 28;
  let lastVisit := AddDate now_visit 0 (Int64.sub 0 vm) (Int64.sub 0 vd) in
  g ← Intn 2;
  let gender := if g =? 0 then "Female" else "Male" in
  n ← Intn 9999999;
  fi ← Intn (len firstNames);
  first ← index firstNames fi;
  li ← Intn (len lastNames);
  last ← index lastNames li;
  pi ← Intn (len physicians);
  physician ← index physicians pi;
  ii ← Intn (len insuranceProviders);
  insurance ← index insuranceProviders ii;
  bi ← Intn (len bloodTypes);
  blood ← index bloodTypes bi;
  mret {| ID := id;
          MedicalRecordNumber := mrn n;
          FirstName := first;
          LastName := last;
          DateOfBirth := dob;
          Gender := gender;
          DiagnosisCodes := selectedDiagnoses;
          Medications := selectedMeds;
          Allergies := selectedAllergies;
          LastVisitDate := lastVisit;
          PrimaryPhysician := physician;
          InsuranceProvider := insurance;
          BloodType := blood |}.

End Patients.

(** ** The load test: [runTest] *)

Module Loadtest.
Import Go.

Record LoadTestConfig : Type := mkLoadTestConfig {
  TotalRequests : Z;
  Concurrency : Z;
  Workers : Z;
  QueueSize : Z
}.

(** Go's [a / b] and [a % b] on [int]: a zero divisor panics, the
    quotient is truncated toward zero. *)
Definition quo (a b : Z) : result Z :=
  if b =? 0 then Panic "integer divide by zero"
  else Ok (Int64.wrap (Z.quot a b)).

Definition rem (a b : Z) : result Z :=
  if b =? 0 then Panic "integer divide by zero"
  else Ok (Z.rem a b).

(** [numRequests] of the client goroutine [i]. *)
Definition numRequests (requestsPerWorker remainder i : Z) : Z :=
  if i <? remainder then Int64.add requestsPerWorker 1 else requestsPerWorker.

(** The head of [runTest]: the number of requests each of the client
    goroutines [0 .. Concurrency - 1] is started with. *)
Definition plan (config : LoadTestConfig) : result (list Z) :=
  match quo (TotalRequests config) (Concurrency config) with
  | Panic msg => Panic msg
  | Ok requestsPerWorker =>
      match rem (TotalRequests config) (Concurrency config) with
      | Panic msg => Panic msg
      | Ok remainder =>
          Ok (numRequests requestsPerWorker remainder
                <$> seqZ 0 (Concurrency config))
      end
  end.

(** The calls one client makes on the collector: its loop
    [for j := 0; j < numRequests; j++] records request [j] with the latency
    and the success that [HandleRequest] had for it. *)
Definition client_calls (outcome : Z -> Z -> Metrics.Duration * bool)
    (workerID numRequests : Z) : list Metrics.call :=
  (fun j => Metrics.CRecordRequest (outcome workerID j).1 (outcome workerID j).2)
    <$> seqZ 0 numRequests.

(** The calls of all clients, client after client. *)
Definition all_calls (outcome : Z -> Z -> Metrics.Duration * bool)
    (numbers : list Z) : list Metrics.call :=
  concat (imap (fun i n => client_calls outcome (Z.of_nat i) n) numbers).

(** The tail of [runTest]: the collector is built at [t0]; its mutex
    puts the clients' calls in some order [evs]; after [wg.Wait()] comes
    [collector.Stop()] at [t_stop] and then [GetStats]. *)
Definition runTest_stats (t0 : Metrics.Time) (evs : list Metrics.event)
    (t_stop now : Metrics.Time) : option Metrics.Stats :=
  Metrics.GetStats now
    (Metrics.run (evs ++ [(t_stop, Metrics.CStop)]) (Metrics.NewCollector t0)).

Definition sample_config : LoadTestConfig := mkLoadTestConfig 3 2 20 100.

(** Sample outcomes: request [j] of client [i] takes [i + j + 1] ms and
    succeeds unless [j] is 1; and an order in which the collector may see
    the three calls of [sample_config]. *)
Definition sample_outcome (i j : Z) : Metrics.Duration * bool :=
  ((i + j + 1) * 1000000, negb (j =? 1)).

Definition sample_events : list Metrics.event :=
  [(5, Metrics.CRecordRequest 2000000 true);
   (6, Metrics.CRecordRequest 1000000 true);
   (7, Metrics.CRecordRequest 2000000 false)].

(** A call that records a request. *)
Definition is_record (c : Metrics.call) : Prop :=
  exists latency success, c = Metrics.CRecordRequest latency success.

End Loadtest.

(** ** The server: [parseFlags], [createHandler] *)

Module Main.
Import Go.

Record Config : Type := mkConfig {
  Pattern : string;
  Port : Z;
  Workers : Z;
  QueueSize : Z;
  MinLatency : Z;
  MaxLatency : Z;
  ErrorRate : Float64.float64
}.

(** The map [validPatterns] of [parseFlags]. *)
Definition validPatterns : gmap string bool :=
  {[ "naive" := true; "workerpool" := true; "optimized" := true ]}.

(** The check of [parseFlags]: [validPatterns[config.Pattern]], a missing
    key reading as [false]; [None] is the exit of [log.Fatalf]. *)
Definition validate (config : Config) : option Config :=
  if default false (validPatterns !! Pattern config) then Some config
  else None.

(** The handler built: the naive one has no state to start with, the two
    pools are the [Pool] machine. *)
Inductive Handler : Type :=
  | NaiveHandler
  | WorkerPoolHandler (h : Pool.state)
  | OptimizedHandler (h : Pool.state).

(** [createHandler]: a handler, or the error of the [default] case. *)
Definition createHandler (config : Config) : result (Handler + string) :=
  let poolConfig := Pool.mkConfig (Workers config) (QueueSize config) in
  if String.eqb (Pattern config) "naive" then Ok (inl NaiveHandler)
  else if String.eqb (Pattern config) "workerpool" then
    match Pool.NewWorkerPoolHandler poolConfig with
    | Panic msg => Panic msg
    | Ok h => Ok (inl (WorkerPoolHandler h))
    end
  else if String.eqb (Pattern config) "optimized" then
    match Pool.NewOptimizedHandler poolConfig with
    | Panic msg => Panic msg
    | Ok h => Ok (inl (OptimizedHandler h))
    end
  else Ok (inr ("unknown pattern: " +:+ Pattern config)).

Definition default_config : Config :=
  mkConfig "workerpool" 8080 20 100 50 100 (Float64.of_int 0).

End Main.

(** ** The pool handlers: statistics and invariants *)

Module PoolInvariants.
Import Go Models Pool.

(** [GetStats] of both pool handlers. *)
Definition GetStats (s : state) : Z * Z * Z :=
  (activeJobs s, queuedJobs s, queueSize s).

(** A worker inside [processJob]. *)
Definition busy (w : wstate) : bool :=
  match w with WBusy _ _ => true | _ => false end.

Definition busy_workers (s : state) : nat :=
  length (filter (fun w => busy w = true) (workers s)).

(** The counter of active jobs is the number of workers inside
    [processJob], of [n] workers in all. *)
Definition active_ok (n : nat) (s : state) : Prop :=
  length (workers s) = n
  /\ activeJobs s = Z.of_nat (busy_workers s).

(** The queue respects its capacity and holds the jobs in the order of
    their submission (a job's identifier is its rank among the
    submissions). *)
Definition queue_ok (s : state) : Prop :=
  Z.of_nat (length (jobQueue s)) <= Z.max 0 (queueSize s)
  /\ StronglySorted lt (jobQueue s)
  /\ Forall (fun j => (j < length (jobs s))%nat) (jobQueue s).

(** Every worker has returned, and nothing is in the conduit of job [j],
    whose context is done exactly when [done]. *)
Definition stranded (j : job_id) (done : bool) (s : state) : Prop :=
  forallb exited (workers s) = true
  /\ exists jb, jobs s !! j = Some jb /\ resultChan jb = []
       /\ errChan jb = [] /\ ctx_done jb = done.

(** The step ends the context of job [j]'s submitter. *)
Definition cancels (j : job_id) (l : label) : bool :=
  match l with
  | LCancelRequest j' => bool_decide (j' = j)
  | _ => false
  end.

(** A request is queued, [Shutdown] closes the queue and cancels the
    context, and the only worker, finding both cases of its [select] ready,
    returns on the cancellation. *)
Definition one_stranded : list label :=
  [LHandleRequest "P00042" None false 0; LShutdownClose; LShutdownCancel;
   LWorker 0 0 None].

Definition state_one_stranded : state :=
  Eval vm_compute in state_of (exec one_stranded pool_1_1).

(** After at most [k] acquisitions: the miss counter is the number of
    containers allocated, the hit counter the number of acquisitions. *)
Definition counters_ok (k : Z) (s : state) : Prop :=
  forall h, pool s = Some h ->
    Optimized.poolMisses h = Z.of_nat (Optimized.next_loc h)
    /\ Optimized.poolMisses h <= Optimized.poolHits h <= k.

(** Two requests served one after the other by the optimized handler,
    the second one reusing the container of the first. *)
Definition two_served : list label :=
  [LServeHTTP sample_request 0; LWorker 0 0 None;
   LFinish 0 (Simulator.QPatient Optimized.sample_patient) 5000 0;
   LAwait 0 true 0;
   LServeHTTP sample_request 0; LWorker 0 0 (Some 0%nat);
   LFinish 0 (Simulator.QPatient Optimized.sample_patient) 6000 0;
   LAwait 1 true 0].

Definition opt_1_1 : state :=
  Eval vm_compute in state_of (NewOptimizedHandler (mkConfig 1 1)).

Definition state_two_served : state :=
  Eval vm_compute in state_of (exec two_served opt_1_1).

(** The pooled container a worker is filling. *)
Definition held_loc (x : wstate) : option Optimized.loc :=
  match x with WBusy _ (Some l) => Some l | _ => None end.

Definition chan_loc (r : response_ref) : option Optimized.loc :=
  match r with Pooled l => Some l | Fresh _ => None end.

(** The pooled containers that sit in some job's result channel. *)
Definition in_transit (s : state) : list Optimized.loc :=
  jobs s ≫= fun jb => omap chan_loc (resultChan jb).

(** The pooled containers in use: held by a worker or on their way to a
    submitter. *)
Definition in_use (s : state) : list Optimized.loc :=
  omap held_loc (workers s) ++ in_transit s.

(** No container is at two places at once, and all are allocated. *)
Definition containers_ok (s : state) : Prop :=
  forall h, pool s = Some h ->
    NoDup (Optimized.idle h ++ in_use s)
    /\ Forall (fun l => (l < Optimized.next_loc h)%nat)
         (Optimized.idle h ++ in_use s).

(** What the submitter of a job receives when worker-side delivery was
    of [qo] at instant [now], the worker holding the container [c]. *)
Definition delivery (c : option Optimized.loc) (qo : Simulator.query_outcome)
    (now : Metrics.Time) : delivered :=
  match qo with
  | Simulator.QPatient patient =>
      GotResult (match c with
                 | Some l => Pooled l
                 | None => Fresh (NewPatientResponse now patient "")
                 end)
  | Simulator.QError err => GotError err
  end.

Definition one_busy : list label :=
  [LServeHTTP sample_request 0; LWorker 0 0 None].

Definition state_one_busy : state :=
  Eval vm_compute in state_of (exec one_busy pool_1_1).




End PoolInvariants.

(** * Properties *)

(** ** int64 arithmetic *)

Section Int64Facts.
Import Int64.

Lemma wrap_add_idemp_l (a b : Z) : wrap (wrap a + b) = wrap (a + b).
Proof.
  unfold wrap. f_equal.
  replace ((a + 2 ^ 63) mod 2 ^ 64 - 2 ^ 63 + b + 2 ^ 63)
    with ((a + 2 ^ 63) mod 2 ^ 64 + b) by ring.
  rewrite Zplus_mod_idemp_l. f_equal. ring.
Qed.

Lemma wrap_small (a : Z) : min_int <= a <= max_int -> wrap a = a.
Proof.
  unfold wrap, min_int, max_int. intros H.
  rewrite Z.mod_small; lia.
Qed.

Lemma wrap_in_range (a : Z) : min_int <= wrap a <= max_int.
Proof.
  unfold wrap, min_int, max_int.
  pose proof (Z.mod_pos_bound (a + 2 ^ 63) (2 ^ 64)). lia.
Qed.

Lemma sub_diag (a : Z) : sub a a = 0.
Proof. unfold sub. rewrite Z.sub_diag. reflexivity. Qed.

End Int64Facts.

(** ** The collector's counters *)

Section CollectorCounters.
Import Metrics.

Lemma counters_consistent_alt (c : Collector) :
  counters_consistent c <->
  totalRequests c =
    Int64.wrap (successRequests c + errorRequests c + rejectedRequests c).
Proof.
  unfold counters_consistent, Int64.add. now rewrite wrap_add_idemp_l.
Qed.

Lemma apply_event_consistent (c : Collector) (ev : event) :
  counters_consistent c -> counters_consistent (apply_event c ev).
Proof.
  rewrite !counters_consistent_alt.
  destruct ev as [now [l [] | | a b | | ]]; simpl; intros H;
    unfold Int64.add; rewrite ?H, ?wrap_add_idemp_l; try reflexivity.
  - replace (Int64.wrap (successRequests c + 1) + errorRequests c
             + rejectedRequests c)
      with (Int64.wrap (successRequests c + 1)
            + (errorRequests c + rejectedRequests c)) by ring.
    rewrite wrap_add_idemp_l. f_equal. ring.
  - replace (successRequests c + Int64.wrap (errorRequests c + 1)
             + rejectedRequests c)
      with (Int64.wrap (errorRequests c + 1)
            + (successRequests c + rejectedRequests c)) by ring.
    rewrite wrap_add_idemp_l. f_equal. ring.
  - replace (successRequests c + errorRequests c
             + Int64.wrap (rejectedRequests c + 1))
      with (Int64.wrap (rejectedRequests c + 1)
            + (successRequests c + errorRequests c)) by ring.
    rewrite wrap_add_idemp_l. f_equal. ring.
Qed.

Lemma run_consistent (evs : list event) (c : Collector) :
  counters_consistent c -> counters_consistent (run evs c).
Proof.
  revert c. induction evs as [|ev evs IH]; intros c H; simpl; [exact H|].
  apply IH, apply_event_consistent, H.
Qed.

Lemma apply_event_exact (k : Z) (c : Collector) (ev : event) :
  k < Int64.max_int -> counters_exact k c ->
  counters_exact (k + 1) (apply_event c ev).
Proof.
  unfold counters_exact, Int64.max_int. intros Hk (Hs & He & Hr & Hle & Ht).
  assert (Hw : forall x, 0 <= x <= k -> Int64.add x 1 = x + 1).
  { intros x Hx. unfold Int64.add. apply wrap_small.
    unfold Int64.min_int, Int64.max_int. lia. }
  destruct ev as [now [l [] | | a b | | ]]; simpl;
    rewrite ?Ht, ?Hw by lia; lia.
Qed.

Lemma run_exact (evs : list event) (k : Z) (c : Collector) :
  k + Z.of_nat (length evs) <= Int64.max_int -> counters_exact k c ->
  counters_exact (k + Z.of_nat (length evs)) (run evs c).
Proof.
  revert k c. induction evs as [|ev evs IH]; intros k c Hk H; simpl in *.
  - now rewrite Z.add_0_r.
  - replace (k + Z.of_nat (S (length evs)))
      with (k + 1 + Z.of_nat (length evs)) by lia.
    apply IH; [lia|]. apply apply_event_exact; [lia | exact H].
Qed.

Lemma GetStats_counts (now : Time) (c : Collector) (st : Stats) :
  GetStats now c = Some st ->
  TotalRequests st = totalRequests c /\ SuccessRequests st = successRequests c
  /\ ErrorRequests st = errorRequests c
  /\ RejectedRequests st = rejectedRequests c.
Proof.
  unfold GetStats. destruct (latency_stats (latencies c)); simpl; [|discriminate].
  intros [= <-]. simpl. auto.
Qed.

Lemma ten_requests_stats_eq :
  GetStats 30000000000 (run ten_requests (NewCollector 1000000000))
  = Some ten_requests_stats.
Proof. vm_compute. reflexivity. Qed.

(** C10: in every state the collector reaches from [NewCollector], the
    total counter is the sum of the success, error and rejected counters
    (with Go's int64 addition, and as plain integers while fewer than 2^63
    calls were made); each of [RecordRequest], [RecordRejection],
    [RecordMemory], [Stop] and [Reset] preserves the equality, and every
    snapshot [GetStats] returns satisfies it. *)
Theorem counters_sum_invariant (t0 : Time) (evs : list event) (now : Time) :
  let c := run evs (NewCollector t0) in
  counters_consistent c
  /\ (forall c' ev, counters_consistent c' ->
        counters_consistent (apply_event c' ev))
  /\ (forall st, GetStats now c = Some st ->
        TotalRequests st =
          Int64.add (Int64.add (SuccessRequests st) (ErrorRequests st))
            (RejectedRequests st))
  /\ (Z.of_nat (length evs) <= Int64.max_int ->
        totalRequests c
        = successRequests c + errorRequests c + rejectedRequests c).
Proof.
  intros c.
  assert (Hc : counters_consistent c).
  { apply run_consistent. reflexivity. }
  split; [exact Hc|]. split; [exact apply_event_consistent|]. split.
  - intros st Hst. apply GetStats_counts in Hst.
    destruct Hst as (-> & -> & -> & ->). exact Hc.
  - intros Hlen.
    assert (He : counters_exact (0 + Z.of_nat (length evs)) c).
    { apply run_exact; [lia|]. unfold counters_exact. simpl. lia. }
    apply He.
Qed.

Lemma counters_sum_invariant_witness :
  TotalRequests ten_requests_stats =
    Int64.add (Int64.add (SuccessRequests ten_requests_stats)
                 (ErrorRequests ten_requests_stats))
      (RejectedRequests ten_requests_stats)
  /\ totalRequests (run ten_requests (NewCollector 1000000000))
     = successRequests (run ten_requests (NewCollector 1000000000))
       + errorRequests (run ten_requests (NewCollector 1000000000))
       + rejectedRequests (run ten_requests (NewCollector 1000000000)).
Proof.
  destruct (counters_sum_invariant 1000000000 ten_requests 30000000000)
    as (_ & _ & Hst & Hex).
  split.
  - apply Hst. exact ten_requests_stats_eq.
  - apply Hex. vm_compute. discriminate.
Defined.

End CollectorCounters.

(** ** The measured window and the throughput *)

Section Throughput.
Import Metrics Float64.

Lemma run_app (evs1 evs2 : list event) (c : Collector) :
  run (evs1 ++ evs2) c = run evs2 (run evs1 c).
Proof. unfold run. apply foldl_app. Qed.

Lemma run_window (t0 : Time) (evs : list event) :
  startTime (run evs (NewCollector t0)) = window_start t0 evs
  /\ endTime (run evs (NewCollector t0)) = window_end evs.
Proof.
  induction evs as [|ev evs IH] using rev_ind; [split; reflexivity|].
  rewrite run_app. unfold window_start, window_end in *.
  rewrite !foldl_app. simpl. destruct IH as [IHs IHe].
  destruct ev as [now [l s | | a b | | ]]; simpl; auto.
Qed.

(** C5, as the code has it: the snapshot's duration runs from the
    collector's construction, or its last [Reset], to the last [Stop] since
    then, or to the instant of the snapshot when there is none; the
    throughput is the total number of requests divided by that duration in
    seconds (binary64 division), and 0 when the duration is not positive. *)
Theorem throughput_window (t0 : Time) (evs : list event) (now : Time)
    (st : Stats) :
  GetStats now (run evs (NewCollector t0)) = Some st ->
  Duration_seconds st
    = Seconds (Sub (measured_end now evs) (window_start t0 evs))
  /\ RequestsPerSec st
     = (if ltb zero (Duration_seconds st)
        then div (of_int (TotalRequests st)) (Duration_seconds st)
        else zero).
Proof.
  unfold GetStats, measured_end.
  destruct (run_window t0 evs) as [-> ->].
  destruct (latency_stats _); simpl; [|discriminate].
  intros [= <-]. simpl. split; reflexivity.
Qed.

Lemma throughput_window_witness :
  Duration_seconds ten_requests_stats
    = Seconds (Sub (measured_end 30000000000 ten_requests)
                 (window_start 1000000000 ten_requests))
  /\ RequestsPerSec ten_requests_stats
     = (if ltb zero (Duration_seconds ten_requests_stats)
        then div (of_int (TotalRequests ten_requests_stats))
               (Duration_seconds ten_requests_stats)
        else zero).
Proof.
  apply (throughput_window 1000000000 ten_requests 30000000000
           ten_requests_stats).
  exact ten_requests_stats_eq.
Defined.

(** C5 as stated fails: with the collector built at second 1, ten
    requests recorded at second 11 and [Stop] at second 21, the code
    reports 10 / 20 s = 0.5 requests per second, not 10 / 10 s = 1. *)
Lemma throughput_not_from_first_record :
  ~ spec_throughput_claim 1000000000 ten_requests 30000000000.
Proof.
  intros H.
  pose proof (H _ ten_requests_stats_eq) as H1.
  vm_compute in H1. discriminate H1.
Qed.

End Throughput.

(** ** The simulated delay *)

Section Latency.
Import Go Simulator.

(** C9, the code at equal bounds: whatever the bound and the draw,
    [getRandomLatency] panics in [rand.Int63n], whose argument
    [maxLatency - minLatency] is then 0, and [QueryPatient] with it. *)
Theorem getRandomLatency_equal_bounds_panics (ms : Z)
    (rate : Float64.float64) (v : Z) (ctx_err : option string)
    (u : Float64.float64) (generate : string -> Models.Patient)
    (patientID : string) :
  getRandomLatency (NewDatabase ms ms rate) v
    = Panic "invalid argument to Int63n"
  /\ QueryPatient (NewDatabase ms ms rate) v ctx_err u generate patientID
    = Panic "invalid argument to Int63n".
Proof.
  assert (H : getRandomLatency (NewDatabase ms ms rate) v
              = Panic "invalid argument to Int63n").
  { unfold getRandomLatency, NewDatabase. simpl.
    rewrite sub_diag. reflexivity. }
  split; [exact H|]. unfold QueryPatient. rewrite H. reflexivity.
Qed.

(** With distinct bounds that fit int64 in nanoseconds the draw succeeds
    and lies in [min, max). *)
Lemma getRandomLatency_in_range (minMs maxMs : Z) (rate : Float64.float64)
    (v : Z) :
  0 <= minMs < maxMs -> maxMs <= 9223372036854 ->
  exists d, getRandomLatency (NewDatabase minMs maxMs rate) v = Ok d
    /\ minMs * 1000000 <= d < maxMs * 1000000.
Proof.
  intros Hm Hb. unfold getRandomLatency, NewDatabase, Int63n. simpl.
  unfold Int64.sub, Int64.mul, Int64.add, Metrics.Millisecond.
  rewrite !(wrap_small (_ * 1000000))
    by (unfold Int64.min_int, Int64.max_int; lia).
  rewrite (wrap_small (_ - _)) by (unfold Int64.min_int, Int64.max_int; lia).
  destruct (Z.leb_spec (maxMs * 1000000 - minMs * 1000000) 0) as [Hle|Hlt];
    [lia|].
  pose proof (Z.mod_pos_bound v (maxMs * 1000000 - minMs * 1000000) Hlt).
  eexists. split; [reflexivity|].
  rewrite wrap_small by (unfold Int64.min_int, Int64.max_int; lia). lia.
Qed.

End Latency.

(** ** The object reuse pool *)

Section ObjectPool.
Import Models Optimized.

Lemma update_lookup (f : PatientResponse -> PatientResponse) (l : loc)
    (h : handler) :
  heap (update f l h) !! l = f <$> heap h !! l.
Proof. unfold update. simpl. apply lookup_alter_eq. Qed.

Lemma pool_Get_cases (pick : option nat) (h : handler) :
  pool_Get pick h = pool_New h
  \/ exists i l, idle h !! i = Some l
       /\ pool_Get pick h
          = (l, mkHandler (heap h) (next_loc h) (delete i (idle h))
                  (poolHits h) (poolMisses h)).
Proof.
  unfold pool_Get. destruct pick as [i|]; simpl; [|now left].
  destruct (idle h !! i) as [l|] eqn:Hl; simpl; [|now left].
  right. exists i, l. auto.
Qed.

(** Every acquire counts a hit; the miss counter moves exactly when the
    pool's [New] runs, and then both counters move. *)
Lemma getResponse_counters (pick : option nat) (h : handler) :
  poolHits (getResponse pick h).2 = Int64.add (poolHits h) 1
  /\ (pool_Get pick h = pool_New h ->
      poolMisses (getResponse pick h).2 = Int64.add (poolMisses h) 1)
  /\ (pool_Get pick h <> pool_New h ->
      poolMisses (getResponse pick h).2 = poolMisses h).
Proof.
  unfold getResponse.
  destruct (pool_Get_cases pick h) as [E | (i & l & Hl & E)]; rewrite E.
  - simpl. split; [reflexivity|]. split; [reflexivity|]. intros H. now destruct H.
  - simpl. split; [reflexivity|]. split; [|reflexivity].
    intros Heq. apply (f_equal (fun p => poolMisses p.2)) in Heq.
    exact Heq.
Qed.

(** C8, the code on an empty pool: the first acquire of a fresh handler
    allocates, and both the miss counter and the hit counter become 1. *)
Theorem getResponse_miss_counts_hit (pick : option nat) :
  GetPoolStats (getResponse pick NewOptimizedHandler).2 = (1, 1).
Proof. destruct pick; reflexivity. Qed.

Lemma getResponse_cleared (pick : option nat) (h : handler) :
  pool_wf h ->
  heap (getResponse pick h).2 !! (getResponse pick h).1 = Some zero_response.
Proof.
  intros Hwf. unfold getResponse.
  destruct (pool_Get_cases pick h) as [E | (i & l & Hl & E)]; rewrite E.
  - unfold pool_New. simpl. rewrite lookup_alter_eq, lookup_insert_eq.
    reflexivity.
  - simpl. rewrite lookup_alter_eq.
    destruct (Hwf l) as [r Hr]; [eapply list_elem_of_lookup_2, Hl|].
    rewrite Hr. reflexivity.
Qed.

Lemma putResponse_wf (l : loc) (h : handler) :
  is_Some (heap h !! l) -> pool_wf h -> pool_wf (putResponse l h).
Proof.
  intros Hl Hwf l' Hin. unfold putResponse, pool_Put, update in *.
  simpl in *. apply elem_of_app in Hin.
  assert (Hl' : is_Some (heap h !! l')).
  { destruct Hin as [Hin|Hin]; [now apply Hwf|].
    apply list_elem_of_singleton in Hin. now subst. }
  destruct (decide (l = l')) as [->|Hne].
  - rewrite lookup_alter_eq. destruct Hl' as [r ->]. now eexists.
  - rewrite lookup_alter_ne by exact Hne. exact Hl'.
Qed.

(** C4, as the code has it: [putResponse] clears the payload and the
    error text and leaves the success flag, the timestamp and the
    correlation id as they are; the container then joins the idle set;
    whatever container the next [getResponse] hands out, the released one
    included, has all five fields cleared. *)
Theorem release_then_acquire (l : loc) (h : handler) (r : PatientResponse)
    (pick : option nat) :
  heap h !! l = Some r -> pool_wf h ->
  heap (putResponse l h) !! l
    = Some (mkPatientResponse (Success r) None "" (Timestamp r) (RequestID r))
  /\ idle (putResponse l h) = idle h ++ [l]
  /\ heap (getResponse pick (putResponse l h)).2
       !! (getResponse pick (putResponse l h)).1 = Some zero_response.
Proof.
  intros Hl Hwf. split; [|split].
  - unfold putResponse, pool_Put. simpl. rewrite lookup_alter_eq, Hl.
    reflexivity.
  - reflexivity.
  - apply getResponse_cleared, putResponse_wf; [|exact Hwf].
    rewrite Hl. now eexists.
Qed.

Lemma served_wf : pool_wf served.2.
Proof. intros l Hin. vm_compute in Hin. inversion Hin. Qed.

Lemma release_then_acquire_witness :
  heap (putResponse served.1 served.2) !! served.1
    = Some (mkPatientResponse true None "" 5000 "")
  /\ idle (putResponse served.1 served.2) = idle served.2 ++ [served.1]
  /\ heap (getResponse (Some 0%nat) (putResponse served.1 served.2)).2
       !! (getResponse (Some 0%nat) (putResponse served.1 served.2)).1
     = Some zero_response.
Proof.
  apply (release_then_acquire served.1 served.2
           (mkPatientResponse true (Some sample_patient) "" 5000 "")
           (Some 0%nat)).
  - vm_compute. reflexivity.
  - exact served_wf.
Defined.

(** C4 as stated fails: after a successful job the released container
    sits in the idle set with its success flag set and its timestamp
    kept. *)
Lemma release_keeps_flag_and_timestamp :
  ~ spec_release_clears_all served.1 served.2.
Proof.
  intros H.
  specialize (H (mkPatientResponse true None "" 5000 "")).
  assert (E : heap (putResponse served.1 served.2) !! served.1
              = Some (mkPatientResponse true None "" 5000 ""))
    by (vm_compute; reflexivity).
  specialize (H E). discriminate H.
Qed.

End ObjectPool.

(** ** The worker pool *)

Section WorkerPool.
Import Go Models Pool.


Lemma select_case_elem {A : Type} (ready : list A) (choice : nat) (x : A) :
  select_case ready choice = Some x -> x ∈ ready.
Proof. unfold select_case. apply list_elem_of_lookup_2. Qed.

Lemma select_case_nil {A : Type} (ready : list A) (choice : nat) :
  select_case ready choice = None <-> ready = [].
Proof.
  unfold select_case. split.
  - intros H. destruct ready as [|x l]; [reflexivity|].
    apply lookup_ge_None in H.
    pose proof (Nat.mod_upper_bound choice (length (x :: l))) as Hb.
    simpl in *. lia.
  - intros ->. reflexivity.
Qed.

Lemma select_case_singleton {A : Type} (x : A) (choice : nat) :
  select_case [x] choice = Some x.
Proof.
  unfold select_case. cbn [length]. now rewrite Nat.mod_1_r.
Qed.

Lemma find_parked_Some (ws : list wstate) (w : worker_id) :
  find_parked ws = Some w -> ws !! w = Some WParked.
Proof.
  revert w. induction ws as [|x ws IH]; intros w; simpl; [discriminate|].
  destruct x; simpl;
    try (destruct (find_parked ws) as [w'|] eqn:E; simpl; [|discriminate];
         intros [= <-]; simpl; now apply IH).
  intros [= <-]. reflexivity.
Qed.

Lemma find_parked_None (ws : list wstate) :
  find_parked ws = None <-> (forall w, ws !! w <> Some WParked).
Proof.
  induction ws as [|x ws IH]; simpl.
  - split; [intros _ w; rewrite lookup_nil; discriminate | reflexivity].
  - destruct x; simpl;
      try (rewrite fmap_None, IH; split;
           [intros H [|w]; simpl; [discriminate | apply H]
           | intros H w; apply (H (S w))]).
    split; [discriminate|]. intros H. now specialize (H 0%nat).
Qed.

Lemma find_parked_insert (ws : list wstate) (w : worker_id) (x : wstate) :
  find_parked ws = None -> x <> WParked ->
  find_parked (<[w := x]> ws) = None.
Proof.
  rewrite !find_parked_None. intros H Hx w'.
  destruct (decide (w = w')) as [<-|Hne].
  - destruct (decide (w < length ws)%nat).
    + rewrite list_lookup_insert_eq by assumption. congruence.
    + rewrite list_insert_ge by lia. apply H.
  - rewrite list_lookup_insert_ne by assumption. apply H.
Qed.

Lemma find_parked_wake (ws : list wstate) : find_parked (wake ws) = None.
Proof.
  apply find_parked_None. intros w. unfold wake.
  rewrite list_lookup_fmap. destruct (ws !! w) as [[]|]; simpl; discriminate.
Qed.

Lemma forallb_exited_lookup (ws : list wstate) (w : worker_id) (x : wstate) :
  forallb exited ws = true -> ws !! w = Some x -> x = WExited.
Proof.
  rewrite forallb_forall. intros H Hx.
  assert (Hin : In x ws) by (apply list_elem_of_In; eapply list_elem_of_lookup_2, Hx).
  specialize (H x Hin). destruct x; simpl in H; congruence.
Qed.



Lemma exec_invariant (P : state -> Prop) :
  invariant P -> forall ls s s', P s -> exec ls s = Ok s' -> P s'.
Proof.
  intros HP ls. induction ls as [|l ls IH]; intros s s' Hs; simpl.
  - intros [= <-]. exact Hs.
  - destruct (step l s) as [s1|] eqn:E; [|discriminate].
    apply IH. eapply HP; eauto.
Qed.

Lemma send_job_inv (id : string) (done : bool) (s s' : state) (j : job_id) :
  send_job id done s = Ok (j, s') ->
  queue_closed s = false /\ j = length (jobs s)
  /\ jobs s' = jobs s ++ [new_job id done]
  /\ queueSize s' = queueSize s /\ queue_closed s' = queue_closed s
  /\ cancelled s' = cancelled s /\ workersDone s' = workersDone s
  /\ pool s' = pool s
  /\ ((exists w, find_parked (workers s) = Some w
               /\ workers s' = <[w := WReceived j]> (workers s)
               /\ jobQueue s' = jobQueue s)
      \/ (find_parked (workers s) = None /\ workers s' = workers s
          /\ jobQueue s' = jobQueue s ++ [j])).
Proof.
  unfold send_job, chansend_status.
  destruct (queue_closed s) eqn:Hc; [discriminate|].
  destruct (find_parked (workers s)) as [w|] eqn:Hp.
  - intros [= <- <-]. simpl. rewrite Hc. repeat split; eauto 10.
  - destruct (_ <? _); intros [= <- <-]; simpl; rewrite Hc; repeat split; eauto 10.
Qed.

Lemma worker_step_cases (w : worker_id) (choice : nat) (pick : option nat)
    (s : state) :
  worker_step w choice pick s = s
  \/ (exists x, x <> WParked /\ workers s !! w <> Some WExited /\
        (x = WExited \/ exists j c, x = WBusy j c) /\
        workers (worker_step w choice pick s) = <[w := x]> (workers s)
        /\ (jobQueue (worker_step w choice pick s) = jobQueue s
            \/ exists j, jobQueue s = j :: jobQueue (worker_step w choice pick s)))
  \/ (jobQueue s = [] /\ workers s !! w = Some WSelect /\
      worker_step w choice pick s = set_workers (<[w := WParked]> (workers s)) s).
Proof.
  unfold worker_step.
  destruct (workers s !! w) as [[| |j|j c|]|] eqn:Hw; auto.
  - destruct (select_case _ choice) as [[]|] eqn:Hsel.
    + right. left. exists WExited. simpl. repeat split; eauto; congruence.
    + destruct (jobQueue s) as [|j rest] eqn:Hq.
      * right. left. exists WExited. simpl. rewrite ?Hq. repeat split; eauto; congruence.
      * right. left. unfold begin_job. simpl.
        destruct (pool s) as [h|].
        -- destruct (Optimized.getResponse pick h) as [l h'].
           exists (WBusy j (Some l)). simpl. rewrite ?Hq.
           repeat split; eauto; congruence.
        -- exists (WBusy j None). simpl. rewrite ?Hq.
           repeat split; eauto; congruence.
    + right. right. split; [|split; reflexivity].
      apply select_case_nil in Hsel.
      destruct (jobQueue s); [reflexivity|].
      destruct (cancelled s); simpl in Hsel; discriminate.
  - right. left. unfold begin_job. simpl. destruct (pool s) as [h|].
    + destruct (Optimized.getResponse pick h) as [l h'].
      exists (WBusy j (Some l)). simpl. repeat split; eauto; congruence.
    + exists (WBusy j None). simpl. repeat split; eauto; congruence.
Qed.

Lemma finish_job_workers (w : worker_id) (qo : Simulator.query_outcome)
    (now : Metrics.Time) (choice : nat) (s : state) :
  (finish_job w qo now choice s = s
   \/ (workers (finish_job w qo now choice s) = <[w := WSelect]> (workers s)
       /\ exists j c, workers s !! w = Some (WBusy j c)))
  /\ jobQueue (finish_job w qo now choice s) = jobQueue s
  /\ queueSize (finish_job w qo now choice s) = queueSize s
  /\ queue_closed (finish_job w qo now choice s) = queue_closed s
  /\ workersDone (finish_job w qo now choice s) = workersDone s.
Proof.
  unfold finish_job.
  destruct (workers s !! w) as [[| |j|j c|]|] eqn:Hw; auto 10.
  destruct (jobs s !! j) as [jb|]; auto 10.
  destruct qo as [p|err];
    destruct (select_case _ choice) as [[]|]; auto 10;
    (split; [right; split; [|eauto] |]);
    destruct c; simpl; auto.
Qed.

Lemma await_frame (j : job_id) (put_back : bool) (choice : nat) (s s' : state)
    (d : delivered) :
  await j put_back choice s = Some (d, s') ->
  workers s' = workers s /\ jobQueue s' = jobQueue s
  /\ queueSize s' = queueSize s /\ queue_closed s' = queue_closed s
  /\ workersDone s' = workersDone s.
Proof.
  unfold await. destruct (jobs s !! j) as [jb|]; simpl; [|discriminate].
  destruct (select_case _ choice) as [[]|]; simpl; [| |intros [= <- <-]; auto|discriminate].
  - destruct (head (resultChan jb)) as [[r|l]|]; simpl; [| |discriminate];
      intros [= <- <-]; [auto|]. destruct put_back; simpl; auto.
  - destruct (head (errChan jb)); simpl; [|discriminate].
    intros [= <- <-]. auto.
Qed.

Lemma queue_or_parked_invariant : invariant queue_or_parked.
Proof.
  intros l s s' Hs. unfold queue_or_parked in *.
  destruct l as [r c|p d t c|j pb c|w c pk|w qo now c|j| | |]; simpl.
  - unfold ServeHTTP_submit. destruct (String.eqb _ _); [intros [= <-]; exact Hs|].
    destruct (select_case _ c) as [[]|]; try (intros [= <-]; exact Hs).
    destruct (send_job _ _ s) as [[j s1]|] eqn:E; [|discriminate].
    intros [= <-]. apply send_job_inv in E.
    destruct E as (_ & _ & _ & _ & _ & _ & _ & _ & [(w & Hp & Hw & Hq) | (Hp & Hw & Hq)]).
    + left. rewrite Hq. destruct Hs as [Hs|Hs]; [exact Hs|congruence].
    + right. congruence.
  - unfold HandleRequest_submit.
    destruct (select_case _ c) as [[]|]; try (intros [= <-]; exact Hs).
    destruct (send_job _ _ s) as [[j s1]|] eqn:E; [|discriminate].
    intros [= <-]. apply send_job_inv in E.
    destruct E as (_ & _ & _ & _ & _ & _ & _ & _ & [(w & Hp & Hw & Hq) | (Hp & Hw & Hq)]).
    + left. rewrite Hq. destruct Hs as [Hs|Hs]; [exact Hs|congruence].
    + right. congruence.
  - destruct (await j pb c s) as [[d s1]|] eqn:E; intros [= <-]; [|exact Hs].
    apply await_frame in E. destruct E as (-> & -> & _). exact Hs.
  - intros [= <-].
    destruct (worker_step_cases w c pk s) as [-> | [(x & Hx & _ & _ & Hw & Hq) | (Hq & _ & ->)]];
      [exact Hs | | left; exact Hq].
    rewrite Hw. destruct Hs as [Hs|Hs].
    + left. destruct Hq as [->|(j & Hq)]; [exact Hs | congruence].
    + right. now apply find_parked_insert.
  - intros [= <-].
    destruct (finish_job_workers w qo now c s) as ([-> | (Hw & _)] & Hq & _);
      [exact Hs|].
    rewrite Hw, Hq. destruct Hs as [Hs|Hs]; [now left|right].
    now apply find_parked_insert.
  - intros [= <-]. exact Hs.
  - unfold Shutdown_close. destruct (queue_closed s); [discriminate|].
    intros [= <-]. right. simpl. apply find_parked_wake.
  - intros [= <-]. right. simpl. apply find_parked_wake.
  - intros [= <-]. unfold waiter_step. destruct (forallb _ _); exact Hs.
Qed.


Lemma insert_all_exited (ws : list wstate) (w : worker_id) (x : wstate) :
  forallb exited ws = true -> ws !! w <> Some WExited -> <[w := x]> ws = ws.
Proof.
  intros Hall Hw. apply list_insert_ge.
  destruct (ws !! w) as [y|] eqn:E.
  - apply (forallb_exited_lookup _ _ _ Hall) in E. congruence.
  - now apply lookup_ge_None.
Qed.

Lemma forallb_exited_wake (ws : list wstate) :
  forallb exited (wake ws) = forallb exited ws.
Proof.
  induction ws as [|x ws IH]; [reflexivity|]. simpl. rewrite IH.
  destruct x; reflexivity.
Qed.

Lemma send_job_all_exited (id : string) (done : bool) (s s' : state)
    (j : job_id) :
  send_job id done s = Ok (j, s') -> forallb exited (workers s) = true ->
  workers s' = workers s.
Proof.
  intros E Hall. apply send_job_inv in E.
  destruct E as (_ & _ & _ & _ & _ & _ & _ & _ & [(w & Hp & Hw & Hq) | (Hp & Hw & Hq)]);
    [|exact Hw].
  apply find_parked_Some in Hp.
  apply (forallb_exited_lookup _ _ _ Hall) in Hp. discriminate.
Qed.

Lemma done_means_exited_invariant : invariant done_means_exited.
Proof.
  intros l s s' Hs. unfold done_means_exited in *.
  destruct l as [r c|p d t c|j pb c|w c pk|w qo now c|j| | |]; simpl.
  - unfold ServeHTTP_submit. destruct (String.eqb _ _); [intros [= <-]; exact Hs|].
    destruct (select_case _ c) as [[]|]; try (intros [= <-]; exact Hs).
    destruct (send_job _ _ s) as [[j s1]|] eqn:E; [|discriminate].
    intros [= <-] Hd. pose proof (send_job_inv _ _ _ _ _ E) as Hi.
    destruct Hi as (_ & _ & _ & _ & _ & _ & Hwd & _).
    rewrite Hwd in Hd. specialize (Hs Hd).
    now rewrite (send_job_all_exited _ _ _ _ _ E Hs).
  - unfold HandleRequest_submit.
    destruct (select_case _ c) as [[]|]; try (intros [= <-]; exact Hs).
    destruct (send_job _ _ s) as [[j s1]|] eqn:E; [|discriminate].
    intros [= <-] Hd. pose proof (send_job_inv _ _ _ _ _ E) as Hi.
    destruct Hi as (_ & _ & _ & _ & _ & _ & Hwd & _).
    rewrite Hwd in Hd. specialize (Hs Hd).
    now rewrite (send_job_all_exited _ _ _ _ _ E Hs).
  - destruct (await j pb c s) as [[d s1]|] eqn:E; intros [= <-]; [|exact Hs].
    apply await_frame in E. destruct E as (-> & _ & _ & _ & ->). exact Hs.
  - intros [= <-].
    destruct (worker_step_cases w c pk s) as [-> | [(x & Hx & Hne & _ & Hw & Hq) | (Hq & Hsel & ->)]];
      [exact Hs | |].
    + intros Hd. rewrite Hw.
      assert (Hd' : workersDone s = true).
      { revert Hd. unfold worker_step.
        destruct (workers s !! w) as [[| |j|j c0|]|]; auto;
          unfold begin_job;
          repeat (match goal with
                  | |- context [match ?e with _ => _ end] => destruct e
                  end; simpl; auto). }
      specialize (Hs Hd'). now rewrite insert_all_exited.
    + simpl. intros Hd. specialize (Hs Hd).
      apply (forallb_exited_lookup _ _ _ Hs) in Hsel. discriminate.
  - intros [= <-].
    destruct (finish_job_workers w qo now c s) as ([-> | (Hw & j & c0 & Hb)] & _ & _ & _ & Hd);
      [exact Hs|].
    rewrite Hd, Hw. intros Hd'. specialize (Hs Hd').
    apply (forallb_exited_lookup _ _ _ Hs) in Hb. discriminate.
  - intros [= <-]. exact Hs.
  - unfold Shutdown_close. destruct (queue_closed s); [discriminate|].
    intros [= <-]. simpl. rewrite forallb_exited_wake. exact Hs.
  - intros [= <-]. simpl. rewrite forallb_exited_wake. exact Hs.
  - intros [= <-]. unfold waiter_step.
    destruct (forallb exited (workers s)) eqn:E; [|rewrite E; exact Hs].
    simpl. intros _. exact E.
Qed.

Lemma queueSize_invariant (c : Z) : invariant (fun s => queueSize s = c).
Proof.
  intros l s s' Hs.
  destruct l as [r ch|p d t ch|j pb ch|w ch pk|w qo now ch|j| | |]; simpl.
  - unfold ServeHTTP_submit. destruct (String.eqb _ _); [intros [= <-]; exact Hs|].
    destruct (select_case _ ch) as [[]|]; try (intros [= <-]; exact Hs).
    destruct (send_job _ _ s) as [[j s1]|] eqn:E; [|discriminate].
    intros [= <-]. apply send_job_inv in E.
    destruct E as (_ & _ & _ & -> & _). exact Hs.
  - unfold HandleRequest_submit.
    destruct (select_case _ ch) as [[]|]; try (intros [= <-]; exact Hs).
    destruct (send_job _ _ s) as [[j s1]|] eqn:E; [|discriminate].
    intros [= <-]. apply send_job_inv in E.
    destruct E as (_ & _ & _ & -> & _). exact Hs.
  - destruct (await j pb ch s) as [[d s1]|] eqn:E; intros [= <-]; [|exact Hs].
    apply await_frame in E. destruct E as (_ & _ & -> & _). exact Hs.
  - intros [= <-]. unfold worker_step.
    destruct (workers s !! w) as [[| |j|j c0|]|]; auto;
      unfold begin_job;
      repeat (match goal with
              | |- context [match ?e with _ => _ end] => destruct e
              end; simpl; auto).
  - intros [= <-].
    destruct (finish_job_workers w qo now ch s) as (_ & _ & -> & _). exact Hs.
  - intros [= <-]. exact Hs.
  - unfold Shutdown_close. destruct (queue_closed s); [discriminate|].
    intros [= <-]. exact Hs.
  - intros [= <-]. exact Hs.
  - intros [= <-]. unfold waiter_step. destruct (forallb _ _); exact Hs.
Qed.


Lemma held_insert (ws : list wstate) (w : worker_id) (x y : wstate) :
  ws !! w = Some x ->
  exists rest,
    omap holds_job ws ≡ₚ option_list (holds_job x) ++ rest
    /\ omap holds_job (<[w := y]> ws) ≡ₚ option_list (holds_job y) ++ rest.
Proof.
  intros Hw.
  exists (omap holds_job (take w ws) ++ omap holds_job (drop (S w) ws)).
  assert (Hlt : (w < length ws)%nat) by (eapply lookup_lt_Some, Hw).
  rewrite insert_take_drop by exact Hlt.
  rewrite <- (take_drop_middle ws w x Hw) at 1.
  rewrite !omap_app. simpl.
  split.
  - destruct (holds_job x); simpl; [|reflexivity].
    now rewrite Permutation_middle.
  - destruct (holds_job y); simpl; [|reflexivity].
    now rewrite Permutation_middle.
Qed.

Lemma held_wake (ws : list wstate) :
  omap holds_job (wake ws) = omap holds_job ws.
Proof.
  induction ws as [|x ws IH]; [reflexivity|].
  change (wake (x :: ws))
    with ((match x with WParked => WSelect | _ => x end) :: wake ws).
  destruct x; cbn -[wake]; rewrite IH; reflexivity.
Qed.

Lemma unwritten_ok (jb : job) : unwritten jb -> conduit_ok jb.
Proof.
  intros (H1 & H2 & H3). unfold conduit_ok. rewrite H1, H2, H3. simpl. lia.
Qed.

(** A step that leaves the job objects alone and only permutes the jobs
    in flight. *)
Lemma conduits_ok_frame (s s' : state) :
  jobs s' = jobs s -> in_flight s' ≡ₚ in_flight s ->
  conduits_ok s -> conduits_ok s'.
Proof.
  intros Hj Hp (Hnd & Hun & Hok). split; [|split].
  - now rewrite Hp.
  - intros j Hin. rewrite Hj. apply Hun. now rewrite <- Hp.
  - intros j jb. rewrite Hj. apply Hok.
Qed.

Lemma in_flight_fresh (s : state) (j : job_id) :
  conduits_ok s -> j ∈ in_flight s -> (j < length (jobs s))%nat.
Proof.
  intros (_ & Hun & _) Hin. destruct (Hun j Hin) as (jb & Hjb & _).
  eapply lookup_lt_Some, Hjb.
Qed.

Lemma send_job_conduits (id : string) (done : bool) (s s' : state)
    (j : job_id) :
  send_job id done s = Ok (j, s') -> conduits_ok s -> conduits_ok s'.
Proof.
  intros E Hs. pose proof (send_job_inv _ _ _ _ _ E) as Hi.
  destruct Hi as (_ & Hj & Hjobs & _ & _ & _ & _ & _ & Hcases).
  assert (Hp : in_flight s' ≡ₚ j :: in_flight s).
  { unfold in_flight.
    destruct Hcases as [(w & Hp & -> & ->) | (Hp & -> & ->)].
    - apply find_parked_Some in Hp.
      destruct (held_insert _ _ _ (WReceived j) Hp) as (rest & H1 & H2).
      rewrite H2, H1. simpl. now rewrite Permutation_middle.
    - rewrite <- app_assoc. simpl. rewrite <- Permutation_middle.
      reflexivity. }
  assert (Hfresh : j ∉ in_flight s).
  { intros Hin. apply (in_flight_fresh _ _ Hs) in Hin. lia. }
  destruct Hs as (Hnd & Hun & Hok). split; [|split].
  - rewrite Hp. apply NoDup_cons. auto.
  - intros j' Hin. rewrite Hp in Hin. rewrite Hjobs.
    apply elem_of_cons in Hin. destruct Hin as [-> | Hin].
    + exists (new_job id done). split; [|repeat split].
      rewrite Hj. apply list_lookup_middle. reflexivity.
    + destruct (Hun j' Hin) as (jb & Hjb & Hu). exists jb. split; [|exact Hu].
      now apply lookup_app_l_Some.
  - intros j' jb. rewrite Hjobs. intros Hl.
    apply lookup_app_Some in Hl. destruct Hl as [Hl | (_ & Hl)]; [eauto|].
    destruct (j' - length (jobs s))%nat; simpl in Hl; [|discriminate].
    injection Hl as <-. apply unwritten_ok. repeat split.
Qed.

Lemma worker_step_conduits (w : worker_id) (choice : nat) (pick : option nat)
    (s : state) :
  jobs (worker_step w choice pick s) = jobs s
  /\ in_flight (worker_step w choice pick s) ≡ₚ in_flight s.
Proof.
  unfold worker_step, in_flight.
  destruct (workers s !! w) as [[| |j|j c|]|] eqn:Hw; auto.
  - destruct (select_case _ choice) as [[]|].
    + simpl. split; [reflexivity|].
      destruct (held_insert _ _ _ WExited Hw) as (rest & H1 & H2).
      now rewrite H2, H1.
    + destruct (jobQueue s) as [|j rest] eqn:Hq.
      * simpl. rewrite Hq. split; [reflexivity|].
        destruct (held_insert _ _ _ WExited Hw) as (rest & H1 & H2).
        now rewrite H2, H1.
      * unfold begin_job. simpl.
        destruct (pool s) as [h|]; [destruct (Optimized.getResponse pick h) as [l h']|];
          simpl; (split; [reflexivity|]).
        -- destruct (held_insert _ _ _ (WBusy j (Some l)) Hw) as (rest' & H1 & H2).
           rewrite H2, H1. simpl. now rewrite Permutation_middle.
        -- destruct (held_insert _ _ _ (WBusy j None) Hw) as (rest' & H1 & H2).
           rewrite H2, H1. simpl. now rewrite Permutation_middle.
    + simpl. split; [reflexivity|].
      destruct (held_insert _ _ _ WParked Hw) as (rest & H1 & H2).
      now rewrite H2, H1.
  - unfold begin_job. simpl.
    destruct (pool s) as [h|]; [destruct (Optimized.getResponse pick h) as [l h']|];
      simpl; (split; [reflexivity|]).
    + destruct (held_insert _ _ _ (WBusy j (Some l)) Hw) as (rest' & H1 & H2).
      now rewrite H2, H1.
    + destruct (held_insert _ _ _ (WBusy j None) Hw) as (rest' & H1 & H2).
      now rewrite H2, H1.
Qed.


Lemma conduits_ok_retire (s s' : state) (j : job_id) :
  in_flight s ≡ₚ j :: in_flight s' ->
  (jobs s' = jobs s
   \/ exists jb', conduit_ok jb' /\ jobs s' = <[j := jb']> (jobs s)) ->
  conduits_ok s -> conduits_ok s'.
Proof.
  intros Hp Hjobs (Hnd & Hun & Hok).
  rewrite Hp in Hnd. apply NoDup_cons in Hnd. destruct Hnd as [Hnotin Hnd].
  split; [exact Hnd|]. split.
  - intros j' Hin.
    assert (Hne : j <> j') by (intros ->; contradiction).
    destruct (Hun j') as (jb & Hjb & Hu); [rewrite Hp; now right|].
    exists jb. split; [|exact Hu].
    destruct Hjobs as [-> | (jb' & _ & ->)]; [exact Hjb|].
    now rewrite list_lookup_insert_ne.
  - intros j' jb Hl.
    destruct Hjobs as [Hj | (jb' & Hjb' & Hj)]; rewrite Hj in Hl; [eauto|].
    apply list_lookup_insert_Some in Hl.
    destruct Hl as [(-> & -> & _) | (_ & Hl)]; eauto.
Qed.

Lemma finish_job_conduits (w : worker_id) (qo : Simulator.query_outcome)
    (now : Metrics.Time) (choice : nat) (s : state) :
  conduits_ok s -> conduits_ok (finish_job w qo now choice s).
Proof.
  intros Hs. unfold finish_job.
  destruct (workers s !! w) as [[| |j|j c|]|] eqn:Hw; auto.
  destruct (jobs s !! j) as [jb|] eqn:Hjb; auto.
  destruct (held_insert _ _ _ WSelect Hw) as (rest & H1 & H2). simpl in H1, H2.
  assert (Hin : j ∈ in_flight s).
  { unfold in_flight. rewrite H1. apply elem_of_app. right. now left. }
  assert (Hu : unwritten jb).
  { destruct Hs as (_ & Hun & _). destruct (Hun j Hin) as (jb0 & Hjb0 & Hu).
    congruence. }
  destruct Hu as (Hwr & Hres & Herr).
  assert (Hperm : forall s1, jobQueue s1 = jobQueue s ->
            workers s1 = <[w := WSelect]> (workers s) ->
            in_flight s ≡ₚ j :: in_flight s1).
  { intros s1 Hq Hws. unfold in_flight. rewrite Hq, Hws, H1, H2.
    now rewrite Permutation_middle. }
  destruct qo as [p|err]; destruct (select_case _ choice) as [[]|]; auto;
    (eapply (conduits_ok_retire s _ j);
     [apply Hperm; destruct c; reflexivity | | exact Hs]);
    try (left; destruct c; reflexivity).
  - right.
    exists (push_result (match c with
                         | Some l => Pooled l
                         | None => Fresh (NewPatientResponse now p "")
                         end) jb).
    split; [|destruct c; reflexivity].
    unfold conduit_ok, push_result. simpl.
    rewrite Hwr, Hres, Herr. simpl. lia.
  - right. exists (push_error err jb). split; [|destruct c; reflexivity].
    unfold conduit_ok, push_error. simpl.
    rewrite Hwr, Hres, Herr. simpl. lia.
Qed.

Lemma await_conduits (j : job_id) (put_back : bool) (choice : nat)
    (s s' : state) (d : delivered) :
  await j put_back choice s = Some (d, s') -> conduits_ok s -> conduits_ok s'.
Proof.
  intros E Hs. pose proof (await_frame _ _ _ _ _ _ E) as (Hw & Hq & _).
  assert (Hfl : in_flight s' = in_flight s)
    by (unfold in_flight; now rewrite Hw, Hq).
  revert E. unfold await.
  destruct (jobs s !! j) as [jb|] eqn:Hjb; simpl; [|discriminate].
  destruct (select_case _ choice) as [[]|] eqn:Hsel; simpl;
    [| |intros [= _ <-]; exact Hs|discriminate].
  - destruct (head (resultChan jb)) as [r|] eqn:Hh; simpl; [|discriminate].
    intros [= _ Hs'].
    assert (Hjobs : jobs s' =
              <[j := mkJob (patientID jb) (ctx_done jb) (tail (resultChan jb))
                       (errChan jb) (written jb)]> (jobs s)).
    { rewrite <- Hs'. destruct r; [reflexivity|]. destruct put_back; reflexivity. }
    destruct Hs as (Hnd & Hun & Hok). rewrite <- Hfl in Hnd.
    split; [exact Hnd|]. split.
    + intros j' Hin. rewrite Hfl in Hin.
      destruct (Hun j' Hin) as (jb0 & Hjb0 & Hu). exists jb0. split; [|exact Hu].
      rewrite Hjobs. rewrite list_lookup_insert_ne; [exact Hjb0|].
      intros ->. rewrite Hjb in Hjb0. injection Hjb0 as <-.
      destruct Hu as (_ & Hres & _). rewrite Hres in Hh. discriminate.
    + intros j' jb0. rewrite Hjobs. intros Hl.
      apply list_lookup_insert_Some in Hl.
      destruct Hl as [(-> & <- & _) | (_ & Hl)]; [|eauto].
      destruct (Hok _ _ Hjb) as [H1 H2]. unfold conduit_ok. simpl.
      split; [exact H1|]. destruct (resultChan jb); simpl in *; lia.
  - destruct (head (errChan jb)) as [e|] eqn:Hh; simpl; [|discriminate].
    intros [= _ Hs'].
    assert (Hjobs : jobs s' =
              <[j := mkJob (patientID jb) (ctx_done jb) (resultChan jb)
                       (tail (errChan jb)) (written jb)]> (jobs s)).
    { rewrite <- Hs'. reflexivity. }
    destruct Hs as (Hnd & Hun & Hok). rewrite <- Hfl in Hnd.
    split; [exact Hnd|]. split.
    + intros j' Hin. rewrite Hfl in Hin.
      destruct (Hun j' Hin) as (jb0 & Hjb0 & Hu). exists jb0. split; [|exact Hu].
      rewrite Hjobs. rewrite list_lookup_insert_ne; [exact Hjb0|].
      intros ->. rewrite Hjb in Hjb0. injection Hjb0 as <-.
      destruct Hu as (_ & _ & Herr). rewrite Herr in Hh. discriminate.
    + intros j' jb0. rewrite Hjobs. intros Hl.
      apply list_lookup_insert_Some in Hl.
      destruct Hl as [(-> & <- & _) | (_ & Hl)]; [|eauto].
      destruct (Hok _ _ Hjb) as [H1 H2]. unfold conduit_ok. simpl.
      split; [exact H1|]. destruct (errChan jb); simpl in *; lia.
Qed.

Lemma cancel_request_conduits (j : job_id) (s : state) :
  conduits_ok s -> conduits_ok (cancel_request j s).
Proof.
  intros (Hnd & Hun & Hok). unfold cancel_request.
  split; [exact Hnd|]. split.
  - intros j' Hin. change (in_flight (set_jobs _ s)) with (in_flight s) in Hin.
    destruct (Hun j' Hin) as (jb & Hjb & Hu). unfold set_jobs. cbn [jobs].
    destruct (decide (j = j')) as [<-|Hne].
    + exists (mkJob (patientID jb) true (resultChan jb) (errChan jb)
                (written jb)).
      split; [|exact Hu]. rewrite list_lookup_alter_eq, Hjb. reflexivity.
    + exists jb. split; [|exact Hu].
      rewrite list_lookup_alter_ne by exact Hne. exact Hjb.
  - intros j' jb. unfold set_jobs. cbn [jobs].
    destruct (decide (j = j')) as [<-|Hne].
    + rewrite list_lookup_alter_eq.
      destruct (jobs s !! j) as [jb0|] eqn:Hjb; simpl; [|discriminate].
      intros [= <-]. exact (Hok _ _ Hjb).
    + rewrite list_lookup_alter_ne by exact Hne. apply Hok.
Qed.

Lemma conduits_ok_invariant : invariant conduits_ok.
Proof.
  intros l s s' Hs.
  destruct l as [r c|p d t c|j pb c|w c pk|w qo now c|j| | |]; simpl.
  - unfold ServeHTTP_submit. destruct (String.eqb _ _); [intros [= <-]; exact Hs|].
    destruct (select_case _ c) as [[]|]; try (intros [= <-]; exact Hs).
    destruct (send_job _ _ s) as [[j s1]|] eqn:E; [|discriminate].
    intros [= <-]. eapply send_job_conduits; eauto.
  - unfold HandleRequest_submit.
    destruct (select_case _ c) as [[]|]; try (intros [= <-]; exact Hs).
    destruct (send_job _ _ s) as [[j s1]|] eqn:E; [|discriminate].
    intros [= <-]. eapply send_job_conduits; eauto.
  - destruct (await j pb c s) as [[d s1]|] eqn:E; intros [= <-]; [|exact Hs].
    eapply await_conduits; eauto.
  - intros [= <-]. destruct (worker_step_conduits w c pk s) as [Hj Hp].
    eapply conduits_ok_frame; eauto.
  - intros [= <-]. now apply finish_job_conduits.
  - intros [= <-]. now apply cancel_request_conduits.
  - unfold Shutdown_close. destruct (queue_closed s); [discriminate|].
    intros [= <-]. eapply conduits_ok_frame; [| |exact Hs]; [reflexivity|].
    unfold in_flight. simpl. now rewrite held_wake.
  - intros [= <-]. eapply conduits_ok_frame; [| |exact Hs]; [reflexivity|].
    unfold in_flight. simpl. now rewrite held_wake.
  - intros [= <-]. unfold waiter_step. destruct (forallb _ _); exact Hs.
Qed.


Lemma held_replicate (n : nat) : omap holds_job (replicate n WSelect) = [].
Proof. induction n as [|n IH]; [reflexivity|]. simpl. exact IH. Qed.

Lemma NewHandler_init (optimized : bool) (config : WorkerPoolConfig)
    (s0 : state) :
  NewHandler optimized config = Ok s0 ->
  conduits_ok s0 /\ queue_or_parked s0 /\ done_means_exited s0
  /\ queueSize s0 = QueueSize config /\ 0 <= QueueSize config.
Proof.
  unfold NewHandler. destruct (Z.ltb_spec (QueueSize config) 0) as [|Hq];
    [discriminate|].
  intros [= <-]. split; [|split; [|split; [|split]]].
  - unfold conduits_ok, in_flight. simpl. rewrite held_replicate.
    split; [constructor|]. split.
    + intros j Hj. inversion Hj.
    + intros j jb Hj. rewrite lookup_nil in Hj. discriminate.
  - left. reflexivity.
  - intros H. discriminate H.
  - reflexivity.
  - exact Hq.
Qed.

Lemma held_unique (ws : list wstate) (w1 w2 : worker_id) (x1 x2 : wstate)
    (j : job_id) :
  NoDup (omap holds_job ws) ->
  ws !! w1 = Some x1 -> ws !! w2 = Some x2 ->
  holds_job x1 = Some j -> holds_job x2 = Some j -> w1 = w2.
Proof.
  revert w1 w2. induction ws as [|x ws IH]; intros w1 w2 Hnd H1 H2 Hj1 Hj2.
  - rewrite lookup_nil in H1. discriminate.
  - assert (Htl : NoDup (omap holds_job ws)).
    { simpl in Hnd. destruct (holds_job x); [|exact Hnd].
      now apply NoDup_cons in Hnd. }
    assert (Hhd : forall w y, holds_job x = Some j -> ws !! w = Some y ->
                    holds_job y = Some j -> False).
    { intros w y Hx Hw Hy. simpl in Hnd. rewrite Hx in Hnd.
      apply NoDup_cons in Hnd. destruct Hnd as [Hnotin _]. apply Hnotin.
      apply list_elem_of_omap. exists y. split; [|exact Hy].
      eapply list_elem_of_lookup_2, Hw. }
    destruct w1 as [|w1], w2 as [|w2]; simpl in H1, H2.
    + reflexivity.
    + injection H1 as ->. exfalso. eauto.
    + injection H2 as ->. exfalso. eauto.
    + f_equal. eauto.
Qed.

(** C2: in every state the handler reaches ([WorkerPoolHandler] as well
    as [OptimizedHandler]), at most one outcome was ever written to a job's
    conduit, so its two channels together hold 0 or 1 outcomes, never 2; a
    job is held by at most one worker, and that worker's [processJob]
    leaves the count of outcomes written at no more than one. *)
Theorem at_most_one_outcome (optimized : bool) (config : WorkerPoolConfig)
    (s0 : state) (ls : list label) (s : state) (j : job_id) (jb : job) :
  NewHandler optimized config = Ok s0 -> exec ls s0 = Ok s ->
  jobs s !! j = Some jb ->
  (length (written jb) <= 1)%nat
  /\ (length (resultChan jb) + length (errChan jb) <= 1)%nat
  /\ (forall w1 w2 x1 x2,
        workers s !! w1 = Some x1 -> workers s !! w2 = Some x2 ->
        holds_job x1 = Some j -> holds_job x2 = Some j -> w1 = w2)
  /\ (forall w qo now choice jb',
        jobs (finish_job w qo now choice s) !! j = Some jb' ->
        (length (written jb') <= 1)%nat).
Proof.
  intros Hnew Hexec Hj.
  assert (Hinv : conduits_ok s).
  { eapply (exec_invariant _ conduits_ok_invariant); [|exact Hexec].
    now apply (NewHandler_init _ _ _ Hnew). }
  pose proof Hinv as (Hnd & Hun & Hok).
  destruct (Hok j jb Hj) as [H1 H2].
  split; [exact H1|]. split; [lia|]. split.
  - intros w1 w2 x1 x2. apply held_unique.
    unfold in_flight in Hnd. now apply NoDup_app in Hnd.
  - intros w qo now choice jb' Hj'.
    pose proof (finish_job_conduits w qo now choice s Hinv) as (_ & _ & Hok').
    now destruct (Hok' j jb' Hj').
Qed.

Lemma worker_step_frame (w : worker_id) (choice : nat) (pick : option nat)
    (s : state) :
  queueSize (worker_step w choice pick s) = queueSize s
  /\ queue_closed (worker_step w choice pick s) = queue_closed s.
Proof.
  unfold worker_step.
  destruct (workers s !! w) as [[| |j|j c0|]|]; auto;
    unfold begin_job;
    repeat (match goal with
            | |- context [match ?e with _ => _ end] => destruct e
            end; simpl; auto).
Qed.

Lemma submit_blocked (r : request) (choice : nat) (s : state) :
  queue_closed s = false -> find_parked (workers s) = None ->
  queueSize s <= Z.of_nat (length (jobQueue s)) ->
  req_patient r <> "" -> req_ctx_done r = false ->
  ServeHTTP_submit r choice s = Ok (overloaded, s).
Proof.
  intros Hc Hp Hfull Hid Hctx. unfold ServeHTTP_submit.
  destruct (String.eqb_spec (req_patient r) ""); [contradiction|].
  unfold send_ready, chansend_status. rewrite Hc, Hp, Hctx.
  destruct (Z.ltb_spec (Z.of_nat (length (jobQueue s))) (queueSize s)); [lia|].
  reflexivity.
Qed.

Lemma submit_buffered (r : request) (choice : nat) (s : state) :
  queue_closed s = false -> find_parked (workers s) = None ->
  Z.of_nat (length (jobQueue s)) < queueSize s ->
  req_patient r <> "" -> req_ctx_done r = false ->
  exists s', ServeHTTP_submit r choice s = Ok (Enqueued (length (jobs s)), s')
    /\ jobQueue s' = jobQueue s ++ [length (jobs s)]
    /\ workers s' = workers s /\ queue_closed s' = false
    /\ queueSize s' = queueSize s.
Proof.
  intros Hc Hp Hroom Hid Hctx. unfold ServeHTTP_submit.
  destruct (String.eqb_spec (req_patient r) ""); [contradiction|].
  assert (Hlt : (Z.of_nat (length (jobQueue s)) <? queueSize s) = true)
    by (apply Z.ltb_lt; lia).
  unfold send_ready, send_job, chansend_status. rewrite Hc, Hp, Hctx, Hlt.
  cbn [when app]. rewrite select_case_singleton. eexists.
  split; [reflexivity|]. simpl. auto.
Qed.

Lemma submit_full (r : request) (choice : nat) (s : state) :
  queue_closed s = false -> find_parked (workers s) = None ->
  queueSize s <= Z.of_nat (length (jobQueue s)) ->
  exists status msg,
    ServeHTTP_submit r choice s = Ok (Replied status msg, s)
    /\ (req_patient r <> "" -> req_ctx_done r = false ->
        Replied status msg = overloaded).
Proof.
  intros Hc Hp Hfull.
  destruct (String.eqb_spec (req_patient r) "") as [He|Hne].
  - exists StatusBadRequest, "patient ID required". split; [|contradiction].
    unfold ServeHTTP_submit. rewrite He. reflexivity.
  - destruct (req_ctx_done r) eqn:Hctx.
    + exists StatusRequestTimeout, "request cancelled". split; [|discriminate].
      unfold ServeHTTP_submit.
      destruct (String.eqb_spec (req_patient r) ""); [contradiction|].
      unfold send_ready, chansend_status. rewrite Hc, Hp, Hctx.
      destruct (Z.ltb_spec (Z.of_nat (length (jobQueue s))) (queueSize s));
        [lia|].
      cbn [when app]. rewrite select_case_singleton. reflexivity.
    + exists StatusServiceUnavailable, "service overloaded, please retry".
      split; [|reflexivity]. now apply submit_blocked.
Qed.

(** C3: for every positive queue capacity, in every state the running
    handler reaches in which the queue holds as many jobs as its capacity, a
    submission is answered at once and changes nothing; when it carries a
    patient id and its context is live the answer is 503 "service overloaded,
    please retry", not the 400 of a bad request.  After any worker step that
    takes a job off the queue such a submission is accepted at the tail of
    the queue, and the one after it is rejected again. *)
Theorem full_queue_rejects_then_accepts (optimized : bool)
    (config : WorkerPoolConfig) (s0 : state) (ls : list label) (s : state) :
  0 < QueueSize config ->
  NewHandler optimized config = Ok s0 -> exec ls s0 = Ok s ->
  queue_closed s = false ->
  Z.of_nat (length (jobQueue s)) = QueueSize config ->
  (forall r choice,
     exists status msg,
       ServeHTTP_submit r choice s = Ok (Replied status msg, s)
       /\ (req_patient r <> "" -> req_ctx_done r = false ->
           Replied status msg = overloaded))
  /\ StatusServiceUnavailable <> StatusBadRequest
  /\ forall r choice w c pick,
       req_patient r <> "" -> req_ctx_done r = false ->
       (length (jobQueue (worker_step w c pick s)) < length (jobQueue s))%nat ->
       exists s2,
         ServeHTTP_submit r choice (worker_step w c pick s)
           = Ok (Enqueued (length (jobs (worker_step w c pick s))), s2)
         /\ jobQueue s2
            = jobQueue (worker_step w c pick s)
              ++ [length (jobs (worker_step w c pick s))]
         /\ ServeHTTP_submit r choice s2 = Ok (overloaded, s2).
Proof.
  intros Hpos Hnew Hexec Hc Hfull.
  pose proof (NewHandler_init _ _ _ Hnew) as (_ & Hqp0 & _ & Hsz0 & _).
  assert (Hsz : queueSize s = QueueSize config).
  { eapply (exec_invariant _ (queueSize_invariant (QueueSize config))); eauto. }
  assert (Hqp : queue_or_parked s).
  { eapply (exec_invariant _ queue_or_parked_invariant); eauto. }
  assert (Hp : find_parked (workers s) = None).
  { destruct Hqp as [Hq|Hp]; [|exact Hp]. rewrite Hq in Hfull. simpl in Hfull. lia. }
  split; [intros r choice; apply submit_full; auto; lia|].
  split; [discriminate|].
  intros r choice w c pick Hid Hctx Hlt.
  destruct (worker_step_frame w c pick s) as [Hsz1 Hc1].
  destruct (worker_step_cases w c pick s)
    as [E | [(x & Hx & _ & _ & Hw & Hq) | (_ & _ & E)]].
  - rewrite E in Hlt. lia.
  - destruct Hq as [Hq|(j & Hq)]; [rewrite Hq in Hlt; lia|].
    assert (Hp1 : find_parked (workers (worker_step w c pick s)) = None).
    { rewrite Hw. now apply find_parked_insert. }
    assert (Hlen : Z.of_nat (length (jobQueue (worker_step w c pick s)))
                   = QueueSize config - 1).
    { rewrite Hq in Hfull. simpl in Hfull. lia. }
    destruct (submit_buffered r choice (worker_step w c pick s))
      as (s2 & Hsub & Hq2 & Hw2 & Hc2 & Hsz2); auto; try congruence; try lia.
    exists s2. split; [exact Hsub|]. split; [exact Hq2|].
    apply submit_blocked; auto; try congruence.
    rewrite Hq2, length_app. simpl. lia.
  - rewrite E in Hlt. simpl in Hlt. lia.
Qed.

Lemma outstanding_zero (s : state) :
  outstanding s = 0%nat <-> forallb exited (workers s) = true.
Proof.
  unfold outstanding. induction (workers s) as [|x ws IH]; [easy|].
  rewrite filter_cons.
  destruct (decide (exited x = false)) as [Hd|Hd]; simpl.
  - rewrite Hd. split; intros; discriminate.
  - destruct (exited x); [exact IH|]. now destruct Hd.
Qed.

Lemma Shutdown_select_cases (d : bool) (choice : nat) (s : state) :
  (Shutdown_select d choice s = Some None -> workersDone s = true)
  /\ (forall e, Shutdown_select d choice s = Some (Some e) ->
        d = true /\ e = shutdown_timeout_text)
  /\ (workersDone s = false -> d = true ->
      Shutdown_select d choice s = Some (Some shutdown_timeout_text))
  /\ (workersDone s = true -> d = false ->
      Shutdown_select d choice s = Some None).
Proof.
  unfold Shutdown_select.
  assert (Hnil : select_case (@nil shutdown_case) choice = None)
    by reflexivity.
  destruct (workersDone s), d; cbn [when app];
    rewrite ?select_case_singleton, ?Hnil;
    repeat split; intros;
    repeat match goal with
           | H : context [select_case ?l ?c] |- _ =>
               destruct (select_case l c) as [[]|]
           | |- context [select_case ?l ?c] =>
               destruct (select_case l c) as [[]|]
           end; congruence.
Qed.

Lemma Naive_Shutdown_error (rounds : list (Z * bool)) (e : string) :
  Naive_Shutdown rounds = Some (Some e) ->
  exists active, active <> 0 /\ (active, true) ∈ rounds
    /\ e = "shutdown timeout: " +:+ pretty active +:+ " goroutines still active".
Proof.
  induction rounds as [|[active done] rounds IH]; simpl; [discriminate|].
  destruct (Z.eqb_spec active 0); [discriminate|].
  destruct done.
  - intros [= <-]. exists active. split; [assumption|]. split; [now left|reflexivity].
  - intros H. destruct (IH H) as (a & Ha & Hin & He).
    exists a. split; [exact Ha|]. split; [now right|exact He].
Qed.

(** C6, as the code has it: [Shutdown] returns [nil] only after every
    worker has returned, and returns it when the workers' completion is
    signalled and the deadline has not passed; its only error is the fixed
    text "shutdown timeout: workers still processing", returned only when
    the deadline has passed, and always then while some worker has not
    returned; closing a queue that is still open does not panic.  Only
    [NaiveHandler.Shutdown] names a count: the non-zero number of active
    goroutines it read. *)
Theorem shutdown_outcome (optimized : bool) (config : WorkerPoolConfig)
    (s0 : state) (ls : list label) (s : state) (deadline_done : bool)
    (choice : nat) :
  NewHandler optimized config = Ok s0 -> exec ls s0 = Ok s ->
  (Shutdown_select deadline_done choice s = Some None ->
     outstanding s = 0%nat)
  /\ (forall e, Shutdown_select deadline_done choice s = Some (Some e) ->
        deadline_done = true /\ e = shutdown_timeout_text)
  /\ (outstanding s <> 0%nat -> deadline_done = true ->
      Shutdown_select deadline_done choice s
        = Some (Some shutdown_timeout_text))
  /\ (workersDone s = true -> deadline_done = false ->
      Shutdown_select deadline_done choice s = Some None)
  /\ (queue_closed s = false -> is_panic (Shutdown_close s) = false)
  /\ (forall rounds e, Naive_Shutdown rounds = Some (Some e) ->
        exists active, active <> 0 /\ (active, true) ∈ rounds
          /\ e = "shutdown timeout: " +:+ pretty active
                   +:+ " goroutines still active").
Proof.
  intros Hnew Hexec.
  assert (Hinv : done_means_exited s).
  { eapply (exec_invariant _ done_means_exited_invariant); [|exact Hexec].
    now apply (NewHandler_init _ _ _ Hnew). }
  destruct (Shutdown_select_cases deadline_done choice s)
    as (Hnil & Herr & Htimeout & Hdone).
  split; [|split; [|split; [|split; [|split]]]].
  - intros H. apply outstanding_zero, Hinv, Hnil, H.
  - exact Herr.
  - intros Hout Hd. apply Htimeout; [|exact Hd].
    destruct (workersDone s) eqn:E; [|reflexivity].
    exfalso. apply Hout, outstanding_zero, Hinv, E.
  - exact Hdone.
  - intros Hc. unfold Shutdown_close. rewrite Hc. reflexivity.
  - exact Naive_Shutdown_error.
Qed.

Lemma pool_1_1_eq : NewWorkerPoolHandler (mkConfig 1 1) = Ok pool_1_1.
Proof. vm_compute. reflexivity. Qed.

Lemma pool_2_2_eq : NewWorkerPoolHandler (mkConfig 2 2) = Ok pool_2_2.
Proof. vm_compute. reflexivity. Qed.

Lemma state_one_queued_eq : exec one_queued pool_1_1 = Ok state_one_queued.
Proof. vm_compute. reflexivity. Qed.

Lemma state_one_in_flight_eq :
  exec one_in_flight pool_1_1 = Ok state_one_in_flight.
Proof. vm_compute. reflexivity. Qed.

Lemma state_two_in_flight_eq :
  exec two_in_flight pool_2_2 = Ok state_two_in_flight.
Proof. vm_compute. reflexivity. Qed.

Lemma state_one_served_eq : exec one_served pool_1_1 = Ok state_one_served.
Proof. vm_compute. reflexivity. Qed.

Lemma at_most_one_outcome_witness :
  (length (written job_one_served) <= 1)%nat
  /\ (length (resultChan job_one_served)
      + length (errChan job_one_served) <= 1)%nat.
Proof.
  destruct (at_most_one_outcome false (mkConfig 1 1) pool_1_1 one_served
              state_one_served 0%nat job_one_served)
    as (H1 & H2 & _).
  - exact pool_1_1_eq.
  - exact state_one_served_eq.
  - vm_compute. reflexivity.
  - split; [exact H1 | exact H2].
Defined.

Lemma full_queue_rejects_then_accepts_witness :
  exists status msg,
    ServeHTTP_submit sample_request 0 state_one_queued
      = Ok (Replied status msg, state_one_queued)
    /\ (req_patient sample_request <> "" ->
        req_ctx_done sample_request = false ->
        Replied status msg = overloaded).
Proof.
  refine (proj1 (full_queue_rejects_then_accepts false (mkConfig 1 1)
                   pool_1_1 one_queued state_one_queued
                   _ pool_1_1_eq state_one_queued_eq _ _)
            sample_request 0%nat).
  - reflexivity.
  - reflexivity.
  - reflexivity.
Defined.

Lemma shutdown_outcome_witness :
  Shutdown_select true 0 state_one_in_flight
  = Some (Some shutdown_timeout_text).
Proof.
  destruct (shutdown_outcome false (mkConfig 1 1) pool_1_1 one_in_flight
              state_one_in_flight true 0%nat pool_1_1_eq
              state_one_in_flight_eq)
    as (_ & _ & H & _).
  apply H.
  - vm_compute. discriminate.
  - reflexivity.
Defined.

(** C6 as stated fails: with one worker and one job mid-flight, and with
    two workers and two jobs mid-flight, a [Shutdown] whose deadline has
    passed returns the same error, from which no count can be read. *)
Lemma timeout_text_names_no_count : ~ spec_timeout_names_outstanding.
Proof.
  intros (count_of & H).
  assert (T1 : Shutdown_select true 0 state_one_in_flight
               = Some (Some shutdown_timeout_text))
    by (vm_compute; reflexivity).
  assert (T2 : Shutdown_select true 0 state_two_in_flight
               = Some (Some shutdown_timeout_text))
    by (vm_compute; reflexivity).
  pose proof (H (mkConfig 1 1) _ one_in_flight _ 0%nat _ pool_1_1_eq
                state_one_in_flight_eq T1) as H1.
  pose proof (H (mkConfig 2 2) _ two_in_flight _ 0%nat _ pool_2_2_eq
                state_two_in_flight_eq T2) as H2.
  rewrite H1 in H2. vm_compute in H2. discriminate H2.
Qed.

(** After shutdown has begun a queued job can still be taken: a worker
    at its [select] finds both the cancellation and the queue ready, and
    takes the head of the queue when the run time picks that case. *)
Lemma queued_job_drainable_after_shutdown (w : worker_id) (j : job_id)
    (rest : list job_id) (pick : option nat) (s : state) :
  workers s !! w = Some WSelect -> jobQueue s = j :: rest ->
  cancelled s = true -> queue_closed s = true -> pool s = None ->
  workers (worker_step w 1 pick s) = <[w := WBusy j None]> (workers s)
  /\ jobQueue (worker_step w 1 pick s) = rest
  /\ workers (worker_step w 0 pick s) = <[w := WExited]> (workers s).
Proof.
  intros Hw Hq Hc Hcl Hpool. unfold worker_step.
  rewrite Hw, Hq, Hc, Hcl. cbn [nonempty orb when app].
  unfold select_case. cbn [length Nat.modulo Nat.divmod fst snd Nat.sub].
  cbn [lookup list_lookup]. unfold begin_job. cbn. rewrite Hpool. cbn.
  auto.
Qed.

(** C7, the code after shutdown has begun: on a handler of either
    variant, once [Shutdown] has closed the queue and cancelled the context,
    a submission with a patient id and a live context does not get a
    rejection: the send on the closed channel panics, in [ServeHTTP] and in
    [HandleRequest] alike. *)
Theorem submit_after_shutdown_panics (optimized : bool) (choice : nat) :
  exists s0 s1,
    NewHandler optimized DefaultWorkerPoolConfig = Ok s0
    /\ Shutdown_close s0 = Ok s1
    /\ ServeHTTP_submit sample_request choice (Shutdown_cancel s1)
       = Panic "send on closed channel"
    /\ HandleRequest_submit "P00042" None false choice (Shutdown_cancel s1)
       = Panic "send on closed channel".
Proof.
  exists (state_of (NewHandler optimized DefaultWorkerPoolConfig)).
  eexists. split; [destruct optimized; reflexivity|].
  split; [destruct optimized; reflexivity|].
  unfold ServeHTTP_submit, HandleRequest_submit, send_ready, send_job,
    chansend_status.
  cbn [req_patient req_ctx_done sample_request String.eqb Ascii.eqb
       Bool.eqb when app queue_closed Shutdown_cancel set_workers
       set_cancelled set_queue_closed].
  rewrite !select_case_singleton. split; reflexivity.
Qed.


End WorkerPool.

(** ** Binary64 rounding *)

Section Float64Facts.
Import Float64.

Lemma digits2_size (p : positive) : digits2_pos p = Pos.size p.
Proof. induction p; simpl; congruence. Qed.

Lemma Zdigits2_pos (z : Z) : 0 < z -> 0 < Zdigits2 z.
Proof. destruct z; simpl; lia. Qed.

Lemma Zdigits2_bounds (z : Z) :
  0 < z -> 2 ^ (Zdigits2 z - 1) <= z < 2 ^ Zdigits2 z.
Proof.
  destruct z as [|p|p]; try lia. intros _.
  change (Zdigits2 (Z.pos p)) with (Z.pos (digits2_pos p)).
  rewrite digits2_size.
  pose proof (Pos.size_gt p) as Hgt. pose proof (Pos.size_le p) as Hle.
  apply Pos2Z.pos_lt_pos in Hgt. apply Pos2Z.pos_le_pos in Hle.
  rewrite Pos2Z.inj_pow in Hgt, Hle.
  replace (Z.pos (Pos.size p)) with (Z.pos (Pos.size p) - 1 + 1) in Hle at 1
    by lia.
  rewrite Z.pow_add_r in Hle by lia. change (2 ^ 1) with 2 in Hle. lia.
Qed.

Lemma Zdigits2_unique (z d : Z) :
  2 ^ (d - 1) <= z < 2 ^ d -> 0 < z -> Zdigits2 z = d.
Proof.
  intros [Hlo Hhi] Hz.
  destruct (Zdigits2_bounds z Hz) as [Hlo' Hhi'].
  pose proof (Zdigits2_pos z Hz) as Hd.
  assert (Hd0 : 0 < d).
  { destruct (Z.ltb_spec 0 d) as [|Hd0]; [assumption|].
    assert (Hp : 2 ^ d <= 1).
    { destruct (Z.eq_dec d 0) as [->|]; [simpl; lia|].
      rewrite Z.pow_neg_r by lia. lia. }
    lia. }
  assert (H1 : d - 1 < Zdigits2 z).
  { apply (Z.pow_lt_mono_r_iff 2); lia. }
  assert (H2 : Zdigits2 z - 1 < d).
  { apply (Z.pow_lt_mono_r_iff 2); lia. }
  lia.
Qed.

Lemma iter_pos_nat {A : Type} (f : A -> A) (p : positive) (x : A) :
  SpecFloat.iter_pos f p x = Nat.iter (Pos.to_nat p) f x.
Proof.
  revert x. induction p as [p IH|p IH|]; intros x; cbn [SpecFloat.iter_pos].
  - rewrite !IH, Pos2Nat.inj_xI.
    replace (S (2 * Pos.to_nat p)) with (Pos.to_nat p + S (Pos.to_nat p))%nat
      by lia.
    rewrite Nat.iter_add. f_equal. now rewrite Nat.iter_succ_r.
  - rewrite !IH, Pos2Nat.inj_xO.
    replace (2 * Pos.to_nat p)%nat with (Pos.to_nat p + Pos.to_nat p)%nat
      by lia.
    now rewrite Nat.iter_add.
  - reflexivity.
Qed.

Lemma shr_1_spec (m : Z) (r s : bool) :
  0 <= m ->
  shr_1 (Build_shr_record m r s) = Build_shr_record (m / 2) (Z.odd m) (r || s).
Proof.
  intros Hm. rewrite <- Z.div2_div.
  destruct m as [|[p|p|]|p]; try lia; reflexivity.
Qed.

Lemma sticky_step (m : Z) (k : Z) :
  0 <= m -> 0 <= k ->
  (m mod 2 ^ (k + 1) =? 0)
  = negb (Z.testbit m k) && (m mod 2 ^ k =? 0).
Proof.
  intros Hm Hk.
  rewrite Z.pow_add_r by lia. change (2 ^ 1) with 2.
  assert (Hp : 0 < 2 ^ k) by (apply Z.pow_pos_nonneg; lia).
  rewrite Z.rem_mul_r by lia.
  pose proof (Z.testbit_spec' m k Hk) as Hb.
  pose proof (Z.mod_pos_bound m (2 ^ k) Hp) as H1.
  destruct (Z.testbit m k); simpl in Hb; rewrite <- Hb; simpl.
  - apply Z.eqb_neq. lia.
  - rewrite Z.mul_0_r, Z.add_0_r. reflexivity.
Qed.

Lemma shr_1_iter (k : nat) (m : Z) (r s : bool) :
  0 <= m ->
  Nat.iter (S k) shr_1 (Build_shr_record m r s)
  = Build_shr_record (m / 2 ^ Z.of_nat (S k)) (Z.testbit m (Z.of_nat k))
      (r || s || negb (m mod 2 ^ Z.of_nat k =? 0)).
Proof.
  intros Hm. induction k as [|k IH].
  - change (Nat.iter 1 shr_1 (Build_shr_record m r s))
      with (shr_1 (Build_shr_record m r s)).
    rewrite shr_1_spec by exact Hm.
    change (Z.of_nat 1) with 1. change (Z.of_nat 0) with 0.
    rewrite Z.pow_1_r, Z.pow_0_r, Z.mod_1_r, Z.bit0_odd. simpl.
    now rewrite orb_false_r.
  - change (Nat.iter (S (S k)) shr_1 (Build_shr_record m r s))
      with (shr_1 (Nat.iter (S k) shr_1 (Build_shr_record m r s))).
    rewrite IH.
    assert (Hp : 0 < 2 ^ Z.of_nat (S k)) by (apply Z.pow_pos_nonneg; lia).
    rewrite shr_1_spec by (apply Z.div_pos; lia).
    f_equal.
    + rewrite Z.div_div by lia.
      replace (Z.of_nat (S (S k))) with (Z.of_nat (S k) + 1) by lia.
      rewrite Z.pow_add_r by lia. reflexivity.
    + rewrite <- Z.bit0_odd, <- Z.shiftr_div_pow2 by lia.
      rewrite Z.shiftr_spec by lia. f_equal. 
    + replace (Z.of_nat (S k)) with (Z.of_nat k + 1) by lia.
      rewrite sticky_step by lia.
      destruct (Z.testbit m (Z.of_nat k)), r, s,
        (m mod 2 ^ Z.of_nat k =? 0); reflexivity.
Qed.

Lemma shr_exact (m e s : Z) :
  0 <= m -> 0 < s ->
  shr (Build_shr_record m false false) e s
  = (Build_shr_record (m / 2 ^ s) (Z.testbit m (s - 1))
       (negb (m mod 2 ^ (s - 1) =? 0)), e + s).
Proof.
  intros Hm Hs. destruct s as [|p|p]; try lia.
  unfold shr. f_equal. rewrite iter_pos_nat.
  destruct (Pos2Nat.is_succ p) as [k Hk]. rewrite Hk.
  rewrite shr_1_iter by exact Hm.
  assert (Hz : Z.pos p = Z.of_nat (S k)) by lia.
  rewrite Hz. replace (Z.of_nat (S k) - 1) with (Z.of_nat k) by lia.
  reflexivity.
Qed.

Lemma rne_loc (X : Z) (rb st : bool) :
  round_nearest_even X (loc_of_shr_record (Build_shr_record X rb st))
  = if rb && (st || Z.odd X) then X + 1 else X.
Proof.
  destruct rb, st; simpl; try reflexivity.
  rewrite <- Z.negb_odd. now destruct (Z.odd X).
Qed.

Lemma fexp_normal (e : Z) : -1021 <= e -> fexp prec emax e = e - 53.
Proof. unfold fexp, SpecFloat.emin, prec, emax. lia. Qed.

Lemma shifted_mantissa_bounds (M s : Z) :
  0 < M -> 0 <= s -> Zdigits2 M = s + 53 ->
  2 ^ 52 <= M / 2 ^ s < 2 ^ 53.
Proof.
  intros HM Hs HD. pose proof (Zdigits2_bounds M HM) as [Hlo Hhi].
  rewrite HD in Hlo, Hhi.
  assert (Hp : 0 < 2 ^ s) by (apply Z.pow_pos_nonneg; lia).
  replace (s + 53 - 1) with (52 + s) in Hlo by lia.
  replace (s + 53) with (53 + s) in Hhi by lia.
  rewrite Z.pow_add_r in Hlo, Hhi by lia.
  split.
  - apply Z.div_le_lower_bound; lia.
  - apply Z.div_lt_upper_bound; lia.
Qed.

Lemma rne_shift_bounds (M s : Z) :
  M / 2 ^ s <= rne_shift M s <= M / 2 ^ s + 1.
Proof. unfold rne_shift. destruct (_ && _); lia. Qed.

(** Rounding a product or quotient that needs a right shift of [s] bits
    and stays in the normal range. *)
Lemma round_aux_normal (M : positive) (E s : Z) :
  0 < s -> Zdigits2 (Z.pos M) = s + 53 ->
  -1074 <= E + s -> E + s + 1 <= 971 ->
  exists m' e',
    binary_round_aux prec emax false (Z.pos M) E loc_Exact
      = S754_finite false m' e'
    /\ 2 ^ 52 <= Z.pos m' < 2 ^ 53
    /\ ((Z.pos m' = rne_shift (Z.pos M) s /\ e' = E + s)
        \/ (rne_shift (Z.pos M) s = 2 ^ 53 /\ Z.pos m' = 2 ^ 52
            /\ e' = E + s + 1)).
Proof.
  intros Hs HD Hlo Hhi.
  pose proof (shifted_mantissa_bounds (Z.pos M) s ltac:(lia) ltac:(lia) HD)
    as HX.
  pose proof (rne_shift_bounds (Z.pos M) s) as Hr.
  unfold binary_round_aux, shr_fexp. rewrite HD.
  rewrite fexp_normal by lia.
  replace (s + 53 + E - 53 - E) with s by lia.
  cbn [shr_record_of_loc]. rewrite shr_exact by lia.
  cbn [shr_m]. rewrite rne_loc. fold (rne_shift (Z.pos M) s).
  set (m1 := rne_shift (Z.pos M) s) in *.
  destruct (Z.ltb_spec m1 (2 ^ 53)) as [Hlt|Hge].
  - assert (Hd1 : Zdigits2 m1 = 53) by (apply Zdigits2_unique; simpl; lia).
    rewrite Hd1, fexp_normal by lia.
    replace (53 + (E + s) - 53 - (E + s)) with 0 by lia.
    cbn [shr shr_m].
    destruct m1 as [|p|p] eqn:Em; try lia.
    destruct (Z.leb_spec (E + s) (emax - prec)) as [_|Hbad];
      [|unfold emax, prec in Hbad; lia].
    exists p, (E + s). split; [reflexivity|]. split; [lia|]. left. auto.
  - assert (Em : m1 = 2 ^ 53) by lia.
    assert (Hd1 : Zdigits2 m1 = 54) by (rewrite Em; reflexivity).
    rewrite Hd1, fexp_normal by lia.
    replace (54 + (E + s) - 53 - (E + s)) with 1 by lia.
    rewrite Em. cbn [shr shr_m SpecFloat.iter_pos shr_1].
    destruct (Z.leb_spec (E + s + 1) (emax - prec)) as [_|Hbad];
      [|unfold emax, prec in Hbad; lia].
    eexists _, (E + s + 1). split; [reflexivity|]. split; [simpl; lia|].
    right. auto.
Qed.

Lemma even_div_succ (X t : Z) :
  Z.odd X = false -> 1 <= t -> (X + 1) / 2 ^ t = X / 2 ^ t.
Proof.
  intros Hodd Ht.
  replace t with (1 + (t - 1)) by lia. rewrite Z.pow_add_r by lia.
  change (2 ^ 1) with 2.
  assert (Hp : 0 < 2 ^ (t - 1)) by (apply Z.pow_pos_nonneg; lia).
  rewrite <- !Z.div_div by lia. f_equal.
  rewrite (Z.div_mod X 2) at 1 by lia.
  rewrite Zmod_odd, Hodd.
  replace (2 * (X / 2) + 0 + 1) with (1 + (X / 2) * 2) by lia.
  rewrite Z.div_add by lia. reflexivity.
Qed.

Lemma half_up_div (M s : Z) :
  0 <= M -> 1 <= s ->
  (M + 2 ^ (s - 1)) / 2 ^ s = M / 2 ^ s + Z.b2z (Z.testbit M (s - 1)).
Proof.
  intros HM Hs.
  assert (Hh : 0 < 2 ^ (s - 1)) by (apply Z.pow_pos_nonneg; lia).
  assert (E2 : 2 ^ s = 2 ^ (s - 1) * 2).
  { replace s with (s - 1 + 1) at 1 by lia. now rewrite Z.pow_add_r by lia. }
  rewrite Z.testbit_spec' by lia.
  set (h := 2 ^ (s - 1)) in *. rewrite E2.
  rewrite <- !Z.div_div by lia.
  replace (M + h) with (M + 1 * h) by lia. rewrite Z.div_add by lia.
  pose proof (Z.div_mod (M / h) 2 ltac:(lia)) as Hdm.
  pose proof (Z.mod_pos_bound (M / h) 2 ltac:(lia)) as Hb.
  set (q := M / h / 2) in *. set (r := (M / h) mod 2) in *.
  rewrite Hdm.
  replace (2 * q + r + 1) with ((r + 1) + q * 2) by lia.
  rewrite Z.div_add by lia.
  assert (Hr : (r + 1) / 2 = r).
  { assert (r = 0 \/ r = 1) as [-> | ->] by lia; reflexivity. }
  lia.
Qed.

Lemma rne_shift_div (M s t : Z) :
  0 <= M -> 1 <= s -> 1 <= t ->
  rne_shift M s / 2 ^ t = (M + 2 ^ (s - 1)) / 2 ^ (s + t).
Proof.
  intros HM Hs Ht.
  assert (Hps : 0 < 2 ^ s) by (apply Z.pow_pos_nonneg; lia).
  assert (Hpt : 0 < 2 ^ t) by (apply Z.pow_pos_nonneg; lia).
  rewrite Z.pow_add_r by lia. rewrite <- Z.div_div by lia.
  rewrite half_up_div by lia. unfold rne_shift.
  destruct (Z.testbit M (s - 1)); simpl.
  - destruct (negb (M mod 2 ^ (s - 1) =? 0)); simpl; [reflexivity|].
    destruct (Z.odd (M / 2 ^ s)) eqn:Hodd; [reflexivity|].
    symmetry. now apply even_div_succ.
  - now rewrite Z.add_0_r.
Qed.

Lemma iter_xO_pow (m p : positive) :
  Z.pos (Pos.iter xO m p) = Z.pos m * 2 ^ Z.pos p.
Proof.
  change (Pos.iter xO m p) with (shift_pos p m).
  rewrite shift_pos_correct. change (Z.pow_pos 2 p) with (2 ^ Z.pos p).
  ring.
Qed.

Lemma round_aux_exact (mz : positive) (ez : Z) :
  Zdigits2 (Z.pos mz) = 53 -> -1074 <= ez <= 971 ->
  binary_round_aux prec emax false (Z.pos mz) ez loc_Exact
  = S754_finite false mz ez.
Proof.
  intros Hd He. unfold binary_round_aux, shr_fexp.
  rewrite Hd, fexp_normal by lia.
  replace (53 + ez - 53 - ez) with 0 by lia.
  cbn [shr_record_of_loc shr shr_m loc_of_shr_record round_nearest_even].
  rewrite Hd, fexp_normal by lia.
  replace (53 + ez - 53 - ez) with 0 by lia.
  cbn [shr_record_of_loc shr shr_m].
  destruct (Z.leb_spec ez (emax - prec)) as [_|Hbad];
    [reflexivity | unfold emax, prec in Hbad; lia].
Qed.

(** [float64(n)] is exact below 2^53: the normalised mantissa and its
    exponent. *)
Lemma of_int_exact (n : Z) :
  1 <= n < 2 ^ 53 ->
  of_int n
  = S754_finite false (Z.to_pos (n * 2 ^ (53 - Zdigits2 n))) (Zdigits2 n - 53).
Proof.
  intros Hn. destruct n as [|m|m]; try lia.
  pose proof (Zdigits2_bounds (Z.pos m) ltac:(lia)) as [Hlo Hhi].
  pose proof (Zdigits2_pos (Z.pos m) ltac:(lia)) as Hd0.
  assert (Hd53 : Zdigits2 (Z.pos m) <= 53).
  { destruct (Z.leb_spec (Zdigits2 (Z.pos m)) 53) as [|Hgt]; [assumption|].
    assert (2 ^ 53 <= 2 ^ (Zdigits2 (Z.pos m) - 1))
      by (apply Z.pow_le_mono_r; lia). lia. }
  unfold of_int, binary_normalize, binary_round.
  change (Z.pos (digits2_pos m)) with (Zdigits2 (Z.pos m)).
  set (d := Zdigits2 (Z.pos m)) in *.
  rewrite Z.add_0_r, fexp_normal by lia.
  unfold shl_align. rewrite Z.sub_0_r.
  assert (Hmz : forall mz, Z.pos mz = Z.pos m * 2 ^ (53 - d) ->
            Zdigits2 (Z.pos mz) = 53).
  { intros mz Hmz. apply Zdigits2_unique; [|lia]. rewrite Hmz.
    assert (Hp : 0 < 2 ^ (53 - d)) by (apply Z.pow_pos_nonneg; lia).
    split.
    - replace (53 - 1) with (d - 1 + (53 - d)) by lia.
      rewrite Z.pow_add_r by lia. nia.
    - replace 53 with (d + (53 - d)) at 2 by lia.
      rewrite Z.pow_add_r by lia. nia. }
  destruct (d - 53) as [|p|p] eqn:Ed; try lia.
  - assert (Ed' : 53 - d = 0) by lia. rewrite Ed'.
    rewrite Z.mul_1_r. simpl Z.to_pos.
    apply round_aux_exact; [|lia].
    apply Hmz. rewrite Ed'. lia.
  - assert (Ed' : 53 - d = Z.pos p) by lia. rewrite Ed'.
    assert (Hz : Z.pos (Pos.iter xO m p) = Z.pos m * 2 ^ Z.pos p)
      by apply iter_xO_pow.
    rewrite <- Hz. simpl Z.to_pos.
    apply round_aux_exact; [|lia].
    apply Hmz. rewrite Ed'. exact Hz.
Qed.

Lemma pow2_pos (k : Z) : 0 <= k -> 0 < 2 ^ k.
Proof. intros. apply Z.pow_pos_nonneg; lia. Qed.

Lemma pow2_split (a b : Z) : 0 <= a -> 0 <= b -> 2 ^ (a + b) = 2 ^ a * 2 ^ b.
Proof. intros. apply Z.pow_add_r; lia. Qed.

Lemma digits_le_of_lt_pow (z k : Z) : 0 < z -> z < 2 ^ k -> 0 <= k -> Zdigits2 z <= k.
Proof.
  intros Hz Hlt Hk. pose proof (Zdigits2_bounds z Hz) as [Hlo _].
  destruct (Z.leb_spec (Zdigits2 z) k) as [|Hgt]; [assumption|].
  assert (2 ^ k <= 2 ^ (Zdigits2 z - 1)) by (apply Z.pow_le_mono_r; lia).
  lia.
Qed.

Lemma digits_gt_of_pow_le (z k : Z) : 0 < z -> 2 ^ k <= z -> 0 <= k -> k < Zdigits2 z.
Proof.
  intros Hz Hle Hk. pose proof (Zdigits2_bounds z Hz) as [_ Hhi].
  pose proof (Zdigits2_pos z Hz).
  apply (Z.pow_lt_mono_r_iff 2); lia.
Qed.

Lemma digits_shift (z u : Z) :
  0 < z -> 0 <= u -> Zdigits2 (z * 2 ^ u) = Zdigits2 z + u.
Proof.
  intros Hz Hu. pose proof (Zdigits2_bounds z Hz) as [Hlo Hhi].
  pose proof (Zdigits2_pos z Hz) as Hd. pose proof (pow2_pos u Hu) as Hp.
  apply Zdigits2_unique; [|nia].
  replace (Zdigits2 z + u - 1) with (Zdigits2 z - 1 + u) by lia.
  rewrite !pow2_split by lia. nia.
Qed.

(** The integer that [int(c * float64(n))] yields for a normalised
    positive [c] at most 1 and a count below 2^45: the exact product plus
    half a unit in its last place, truncated. *)
Lemma mul_to_int (mc : positive) (ec n : Z) :
  2 ^ 52 <= Z.pos mc < 2 ^ 53 -> -59 <= ec <= -52 -> 1 <= n < 2 ^ 45 ->
  Z.pos mc <= 2 ^ (- ec) ->
  to_int (mul (S754_finite false mc ec) (of_int n))
  = (2 * (Z.pos mc * n) + 2 ^ (Zdigits2 (Z.pos mc * n) - 53)) / 2 ^ (1 - ec).
Proof.
  intros Hmc Hec Hn Hle.
  rewrite of_int_exact by lia. unfold mul, SFmul. cbn [xorb].
  pose proof (Zdigits2_bounds n ltac:(lia)) as [Hnlo Hnhi].
  pose proof (Zdigits2_pos n ltac:(lia)) as Hdn0.
  assert (Hdn : Zdigits2 n <= 45) by (apply digits_le_of_lt_pow; lia).
  set (dn := Zdigits2 n) in *. set (u := 53 - dn).
  assert (Hu : 8 <= u <= 52) by (unfold u; lia).
  pose proof (pow2_pos u ltac:(lia)) as Hpu.
  set (P := Z.pos mc * n) in *.
  assert (HP : 0 < P) by (unfold P; nia).
  assert (HM : Z.pos (mc * Z.to_pos (n * 2 ^ u)) = P * 2 ^ u).
  { rewrite Pos2Z.inj_mul, Z2Pos.id by nia. unfold P. ring. }
  rewrite HM.
  set (dq := Zdigits2 P) in *.
  pose proof (Zdigits2_bounds P HP) as [HPlo HPhi]. fold dq in HPlo, HPhi.
  assert (Hdq1 : 51 + dn < dq).
  { apply digits_gt_of_pow_le; [lia| |lia].
    replace (51 + dn) with (52 + (dn - 1)) by lia.
    rewrite pow2_split by lia. unfold P. nia. }
  assert (Hdq2 : dq <= 45 - ec).
  { apply digits_le_of_lt_pow; [lia| |lia].
    replace (45 - ec) with (- ec + 45) by lia.
    rewrite pow2_split by lia. unfold P.
    pose proof (pow2_pos (- ec) ltac:(lia)). nia. }
  set (s := dq + u - 53).
  assert (HD : Zdigits2 (P * 2 ^ u) = s + 53).
  { rewrite digits_shift by lia. unfold s. fold dq. lia. }
  assert (HMpos : 0 < P * 2 ^ u) by nia.
  destruct (P * 2 ^ u) as [|M|M] eqn:EM; try lia.
  destruct (round_aux_normal M (ec + (dn - 53)) s)
    as (m' & e' & Heq & Hcan & Hcases); try (unfold s, u in *; lia).
  rewrite Heq. clear Heq.
  set (t := 53 - ec - dq).
  assert (Ht : 8 <= t) by (unfold t; lia).
  assert (Hrank : Z.pos m' / 2 ^ (- e') = rne_shift (Z.pos M) s / 2 ^ t).
  { destruct Hcases as [(Hm & He) | (Hr & Hm & He)].
    - rewrite Hm. f_equal. f_equal. unfold t, s, u in *. lia.
    - rewrite Hr, Hm.
      replace (- e') with (t - 1) by (unfold t, s, u in *; lia).
      replace (2 ^ 53) with (2 * 2 ^ 52) by reflexivity.
      replace (2 ^ t) with (2 * 2 ^ (t - 1)).
      + rewrite Z.div_mul_cancel_l; [reflexivity| |lia].
        pose proof (pow2_pos (t - 1) ltac:(lia)). lia.
      + replace t with (1 + (t - 1)) at 2 by lia.
        rewrite pow2_split by lia. reflexivity. }
  assert (He' : e' < 0) by (destruct Hcases as [(_ & ->) | (_ & _ & ->)];
                           unfold t, s, u in *; lia).
  unfold to_int. destruct e' as [|pe|pe]; try lia. cbv zeta.
  set (a := Z.pos m' / 2 ^ (- Z.neg pe)) in *.
  assert (Ha : 0 <= a <= Z.pos m').
  { unfold a. pose proof (pow2_pos (- Z.neg pe) ltac:(lia)) as Hp. split.
    - apply Z.div_pos; lia.
    - apply Z.div_le_upper_bound; nia. }
  destruct (Z.leb_spec a Int64.max_int) as [_|Hbad];
    [|unfold Int64.max_int in Hbad; lia].
  cbn [cond_Zopp]. rewrite Hrank.
  rewrite rne_shift_div by (unfold s, u in *; lia).
  rewrite <- (Z.div_mul_cancel_l _ _ 2)
    by (pose proof (pow2_pos (s + t) ltac:(unfold s, u in *; lia)); lia).
  assert (Hnum : 2 * (Z.pos M + 2 ^ (s - 1))
                 = 2 ^ u * (2 * P + 2 ^ (dq - 53))).
  { rewrite <- EM.
    replace (2 * (P * 2 ^ u + 2 ^ (s - 1)))
      with (2 ^ u * (2 * P) + 2 ^ 1 * 2 ^ (s - 1)) by (change (2 ^ 1) with 2; ring).
    rewrite <- pow2_split by (unfold s, u in *; lia).
    replace (1 + (s - 1)) with (u + (dq - 53)) by (unfold s; lia).
    rewrite pow2_split by lia. ring. }
  assert (Hden : 2 * 2 ^ (s + t) = 2 ^ u * 2 ^ (1 - ec)).
  { change 2 with (2 ^ 1) at 1.
    rewrite <- !pow2_split by (unfold s, t, u in *; lia).
    f_equal. unfold s, t. lia. }
  rewrite Hnum, Hden.
  apply Z.div_mul_cancel_l; [|lia].
  pose proof (pow2_pos (1 - ec) ltac:(lia)). lia.
Qed.

End Float64Facts.

(** ** Percentiles *)

Section Percentiles.
Import Float64 Metrics.

Lemma forallb_seqZ (f : Z -> bool) (m len p : Z) :
  forallb f (seqZ m len) = true -> m <= p < m + len -> f p = true.
Proof.
  intros H Hp. rewrite forallb_forall in H. apply H.
  apply list_elem_of_In, elem_of_seqZ. exact Hp.
Qed.

(** The 100 quotients, checked by evaluation. *)
Lemma table_rows_ok : forallb table_row (seqZ 1 100) = true.
Proof. vm_compute. reflexivity. Qed.

Lemma table_facts (p : Z) :
  1 <= p <= 100 ->
  quotient_ok p = true
  /\ quotient_exact p = negb (bool_decide (p ∈ inexact_percentiles))
  /\ forall p', p <= p' <= 100 -> scaled p <= scaled p'.
Proof.
  intros Hp.
  pose proof (forallb_seqZ table_row 1 100 p table_rows_ok ltac:(lia)) as H.
  unfold table_row in H.
  apply andb_prop in H. destruct H as [H H3].
  apply andb_prop in H. destruct H as [H1 H2].
  split; [exact H1|]. split; [apply eqb_prop in H2; exact H2|].
  intros p' Hp'.
  pose proof (forallb_seqZ _ 1 100 p' H3 ltac:(lia)) as H4.
  cbv beta in H4.
  destruct (Z.leb_spec p p') as [_|]; [|lia].
  apply Z.leb_le. exact H4.
Qed.

Lemma rank_scaled (p n : Z) :
  1 <= p <= 100 -> 1 <= n < 2 ^ 45 ->
  rank p n = rounded (scaled p) n / 2 ^ 60
  /\ 2 ^ 52 <= scaled p <= 2 ^ 59.
Proof.
  intros Hp Hn. destruct (table_facts p Hp) as (Hok & _ & _).
  unfold quotient_ok, scaled in *. unfold rank, rounded.
  fold (quotient p).
  destruct (quotient p) as [| | |[] mc ec]; try discriminate.
  repeat (apply andb_prop in Hok; destruct Hok as [Hok ?]).
  assert (K1 : 2 ^ 52 <= Z.pos mc) by (apply Z.leb_le; assumption).
  assert (K2 : Z.pos mc < 2 ^ 53) by (apply Z.ltb_lt; assumption).
  assert (K3 : -59 <= ec) by (apply Z.leb_le; assumption).
  assert (K4 : ec <= -52) by (apply Z.leb_le; assumption).
  assert (K5 : Z.pos mc <= 2 ^ (- ec)) by (apply Z.leb_le; assumption).
  rewrite mul_to_int by lia.
  pose proof (pow2_pos (59 + ec) ltac:(lia)) as Hp2.
  assert (Hv : Z.pos mc * n * 2 ^ (59 + ec) = n * (Z.pos mc * 2 ^ (59 + ec)))
    by ring.
  split.
  - rewrite <- (Z.div_mul_cancel_r _ (2 ^ (1 - ec)) (2 ^ (59 + ec)))
      by (pose proof (pow2_pos (1 - ec) ltac:(lia)); lia).
    rewrite <- pow2_split by lia.
    replace (1 - ec + (59 + ec)) with 60 by lia. f_equal.
    rewrite Z.mul_add_distr_r.
    rewrite <- pow2_split.
    + rewrite <- Hv, digits_shift by nia.
      f_equal; [ring | f_equal; lia].
    + pose proof (Zdigits2_bounds (Z.pos mc * n) ltac:(nia)) as [Hlo _].
      destruct (Z.leb_spec 53 (Zdigits2 (Z.pos mc * n))) as [|Hlt]; [lia|].
      assert (2 ^ (Zdigits2 (Z.pos mc * n)) <= 2 ^ 52)
        by (apply Z.pow_le_mono_r; lia).
      pose proof (Zdigits2_bounds (Z.pos mc * n) ltac:(nia)) as [_ Hhi].
      nia.
    + lia.
  - split.
    + transitivity (Z.pos mc * 1); [lia|].
      apply Z.mul_le_mono_nonneg_l; lia.
    + replace (2 ^ 59) with (2 ^ (- ec) * 2 ^ (59 + ec)).
      * apply Z.mul_le_mono_nonneg_r; lia.
      * rewrite <- pow2_split by lia. f_equal. lia.
Qed.

Lemma rank_zero (n : Z) : 1 <= n < 2 ^ 45 -> rank 0 n = 0.
Proof.
  intros Hn. unfold rank. rewrite (of_int_exact n) by lia. reflexivity.
Qed.

Lemma digits_mono (a b : Z) : 0 < a <= b -> Zdigits2 a <= Zdigits2 b.
Proof.
  intros Hab.
  pose proof (Zdigits2_bounds a ltac:(lia)) as [Hlo _].
  pose proof (Zdigits2_bounds b ltac:(lia)) as [_ Hhi].
  pose proof (Zdigits2_pos b ltac:(lia)).
  assert (Zdigits2 a - 1 < Zdigits2 b); [|lia].
  apply (Z.pow_lt_mono_r_iff 2); lia.
Qed.

Lemma rounded_mono (v v' n : Z) :
  0 < v <= v' -> 1 <= n -> rounded v n <= rounded v' n.
Proof.
  intros Hv Hn. unfold rounded.
  assert (Hnv : 0 < n * v <= n * v') by nia.
  pose proof (digits_mono _ _ Hnv) as Hd.
  assert (2 ^ (Zdigits2 (n * v) - 53) <= 2 ^ (Zdigits2 (n * v') - 53))
    by (apply Z.pow_le_mono_r; lia).
  lia.
Qed.

Lemma rank_nonneg (p n : Z) :
  0 <= p <= 100 -> 1 <= n < 2 ^ 45 -> 0 <= rank p n.
Proof.
  intros Hp Hn. destruct (Z.eq_dec p 0) as [->|Hne].
  - rewrite rank_zero; lia.
  - destruct (rank_scaled p n) as [-> Hv]; [lia|lia|].
    apply Z.div_pos; [|lia]. unfold rounded.
    pose proof (Z.pow_nonneg 2 (Zdigits2 (n * scaled p) - 53) ltac:(lia)).
    nia.
Qed.

Lemma rank_mono (p p' n : Z) :
  0 <= p <= p' -> p' <= 100 -> 1 <= n < 2 ^ 45 -> rank p n <= rank p' n.
Proof.
  intros Hp Hp' Hn. destruct (Z.eq_dec p 0) as [->|Hne].
  - rewrite rank_zero by lia. apply rank_nonneg; lia.
  - destruct (rank_scaled p n) as [-> Hv]; [lia|lia|].
    destruct (rank_scaled p' n) as [-> Hv']; [lia|lia|].
    apply Z.div_le_mono; [lia|].
    apply rounded_mono; [|lia].
    destruct (table_facts p ltac:(lia)) as (_ & _ & Hmono).
    specialize (Hmono p' ltac:(lia)). lia.
Qed.

(** The exact product and the rounded one, against [p * n / 100]. *)
Lemma rank_window (p n : Z) :
  1 <= p <= 100 -> 1 <= n < 2 ^ 45 ->
  spec_rank p n - 1 <= rank p n <= spec_rank p n
  /\ (quotient_exact p = true -> rank p n = spec_rank p n).
Proof.
  intros Hp Hn. destruct (rank_scaled p n Hp Hn) as [Hr Hv].
  destruct (table_facts p Hp) as (Hok & _ & _).
  unfold quotient_ok in Hok.
  destruct (quotient p) as [| | |[] mc ec]; try discriminate.
  repeat (apply andb_prop in Hok; destruct Hok as [Hok ?]).
  assert (K1 : -6400 <= 100 * scaled p - p * 2 ^ 59)
    by (apply Z.leb_le; assumption).
  assert (K2 : 100 * scaled p - p * 2 ^ 59 <= 6400)
    by (apply Z.leb_le; assumption).
  clear - Hp Hn Hr Hv K1 K2.
  unfold quotient_exact, spec_rank. rewrite Hr. unfold rounded.
  set (v := scaled p) in *. set (N := n * v).
  assert (HN : 2 ^ 52 <= N) by (unfold N; nia).
  pose proof (Zdigits2_bounds N ltac:(lia)) as [Hlo Hhi].
  assert (Hdq : 53 <= Zdigits2 N).
  { assert (52 < Zdigits2 N); [|lia].
    apply digits_gt_of_pow_le; lia. }
  set (R := 2 ^ (Zdigits2 N - 53)) in *.
  assert (HR1 : 2 ^ (Zdigits2 N - 1) = R * 2 ^ 52).
  { unfold R. rewrite <- pow2_split by lia. f_equal. lia. }
  assert (HR2 : 2 ^ Zdigits2 N = R * 2 ^ 53).
  { unfold R. rewrite <- pow2_split by lia. f_equal. lia. }
  rewrite HR1 in Hlo. rewrite HR2 in Hhi.
  set (D := (100 * v - p * 2 ^ 59) * n).
  assert (HD : -6400 * n <= D <= 6400 * n) by (unfold D; nia).
  assert (Heq : 100 * N = (p * n) * 2 ^ 59 + D) by (unfold N, D; ring).
  assert (HNle : N <= n * 2 ^ 59) by (unfold N; nia).
  pose proof (Z.div_mod (p * n) 100 ltac:(lia)) as Hdm.
  pose proof (Z.mod_pos_bound (p * n) 100 ltac:(lia)) as Hrm.
  set (q := p * n / 100) in *. set (r := (p * n) mod 100) in *.
  change (2 ^ 45) with 35184372088832 in *.
  change (2 ^ 52) with 4503599627370496 in *.
  change (2 ^ 53) with 9007199254740992 in *.
  change (2 ^ 59) with 576460752303423488 in *.
  change (2 ^ 60) with 1152921504606846976 in *.
  split; [split|].
  - apply Z.div_le_lower_bound; lia.
  - assert (2 * N + R < (q + 1) * 1152921504606846976) by lia.
    assert ((2 * N + R) / 1152921504606846976 < q + 1)
      by (apply Z.div_lt_upper_bound; lia).
    lia.
  - intros Hex. apply Z.leb_le in Hex.
    assert (Hex' : 0 <= 2 ^ 54 * D + 100 * N).
    { replace (2 ^ 54 * D + 100 * N)
        with (n * (2 ^ 54 * (100 * v - p * 576460752303423488) + 100 * v))
        by (unfold D, N; ring).
      apply Z.mul_nonneg_nonneg; lia. }
    change (2 ^ 54) with 18014398509481984 in Hex'.
    symmetry. apply Z.div_unique with (2 * N + R - q * 1152921504606846976);
      lia.
Qed.

Lemma sort_latencies_sorted (lat : list Duration) :
  StronglySorted Z.le (sort_latencies lat).
Proof. unfold sort_latencies. apply StronglySorted_merge_sort; apply _. Qed.

Lemma sort_latencies_perm (lat : list Duration) : sort_latencies lat ≡ₚ lat.
Proof. apply merge_sort_Permutation. Qed.

Lemma sorted_lookup_le (l : list Z) (i j : nat) (x y : Z) :
  StronglySorted Z.le l -> (i <= j)%nat ->
  l !! i = Some x -> l !! j = Some y -> x <= y.
Proof.
  intros Hs. revert i j. induction Hs as [|a l Hs IH Hall]; intros i j Hij Hi Hj.
  - rewrite lookup_nil in Hi. discriminate.
  - destruct i as [|i], j as [|j]; simpl in *; try lia.
    + injection Hi as <-. injection Hj as <-. lia.
    + injection Hi as <-. rewrite Forall_forall in Hall. apply Hall.
      eapply list_elem_of_lookup_2, Hj.
    + apply (IH i j); [lia | exact Hi | exact Hj].
Qed.

Lemma percentile_index (sorted : list Duration) (p : Z) :
  let n := Z.of_nat (length sorted) in
  1 <= n < 2 ^ 45 -> 0 <= p <= 100 ->
  percentile sorted p = sorted !! Z.to_nat (Z.min (rank p n) (n - 1))
  /\ is_Some (percentile sorted p).
Proof.
  intros n Hn Hp. unfold percentile. fold n.
  pose proof (rank_nonneg p n Hp Hn) as Hr.
  destruct (Z.eqb_spec n 0) as [|_]; [lia|].
  assert (Hidx : (if rank p n >=? n then n - 1 else rank p n)
                 = Z.min (rank p n) (n - 1)).
  { destruct (Z.geb_spec (rank p n) n); lia. }
  rewrite Hidx.
  destruct (Z.ltb_spec (Z.min (rank p n) (n - 1)) 0) as [|_]; [lia|].
  split; [reflexivity|]. apply lookup_lt_is_Some. unfold n in *. lia.
Qed.

Lemma rank_exact (p n : Z) :
  0 <= p <= 100 -> 1 <= n < 2 ^ 45 -> p ∉ inexact_percentiles ->
  rank p n = spec_rank p n.
Proof.
  intros Hp Hn Hex. destruct (Z.eq_dec p 0) as [->|Hne].
  - rewrite rank_zero by lia. unfold spec_rank.
    now rewrite Z.mul_0_l, Z.div_0_l by lia.
  - destruct (rank_window p n ltac:(lia) Hn) as [_ H]. apply H.
    destruct (table_facts p ltac:(lia)) as (_ & -> & _).
    now rewrite bool_decide_eq_false_2.
Qed.

Lemma rank_near (p n : Z) :
  0 <= p <= 100 -> 1 <= n < 2 ^ 45 ->
  spec_rank p n - 1 <= rank p n <= spec_rank p n.
Proof.
  intros Hp Hn. destruct (Z.eq_dec p 0) as [->|Hne].
  - rewrite rank_zero by lia. unfold spec_rank.
    rewrite Z.mul_0_l, Z.div_0_l by lia. lia.
  - now destruct (rank_window p n ltac:(lia) Hn).
Qed.

Lemma percentile_exact (sorted : list Duration) (p : Z) :
  1 <= Z.of_nat (length sorted) < 2 ^ 45 -> 0 <= p <= 100 ->
  p ∉ inexact_percentiles ->
  percentile sorted p = spec_percentile sorted p.
Proof.
  intros Hn Hp Hex. destruct (percentile_index sorted p Hn Hp) as [-> _].
  unfold spec_percentile. now rewrite rank_exact.
Qed.

Lemma percentile_mono (sorted : list Duration) (p p' : Z) (v v' : Duration) :
  StronglySorted Z.le sorted ->
  1 <= Z.of_nat (length sorted) < 2 ^ 45 -> 0 <= p <= p' -> p' <= 100 ->
  percentile sorted p = Some v -> percentile sorted p' = Some v' -> v <= v'.
Proof.
  intros Hs Hn Hp Hp'.
  destruct (percentile_index sorted p Hn ltac:(lia)) as [-> _].
  destruct (percentile_index sorted p' Hn ltac:(lia)) as [-> _].
  apply sorted_lookup_le; [exact Hs|].
  pose proof (rank_mono p p' _ Hp Hp' Hn).
  pose proof (rank_nonneg p _ ltac:(lia) Hn). lia.
Qed.

Lemma percentile_extremes (sorted : list Duration) :
  StronglySorted Z.le sorted ->
  1 <= Z.of_nat (length sorted) < 2 ^ 45 ->
  exists lo hi,
    percentile sorted 0 = Some lo /\ percentile sorted 100 = Some hi
    /\ sorted !! 0%nat = Some lo
    /\ sorted !! (length sorted - 1)%nat = Some hi
    /\ forall x, x ∈ sorted -> lo <= x <= hi.
Proof.
  intros Hs Hn.
  destruct (percentile_index sorted 0 Hn ltac:(lia)) as [E0 [lo Hlo]].
  destruct (percentile_index sorted 100 Hn ltac:(lia)) as [E1 [hi Hhi]].
  rewrite Hlo in E0. rewrite Hhi in E1.
  rewrite rank_zero in E0 by lia.
  rewrite rank_exact in E1 by (try lia; compute_done).
  unfold spec_rank in E1.
  replace (100 * Z.of_nat (length sorted) / 100) with (Z.of_nat (length sorted))
    in E1 by (rewrite Z.mul_comm, Z.div_mul; lia).
  replace (Z.to_nat (Z.min 0 (Z.of_nat (length sorted) - 1))) with 0%nat
    in E0 by lia.
  replace (Z.to_nat (Z.min (Z.of_nat (length sorted))
                       (Z.of_nat (length sorted) - 1)))
    with (length sorted - 1)%nat in E1 by lia.
  exists lo, hi. split; [exact Hlo|]. split; [exact Hhi|].
  split; [symmetry; exact E0|]. split; [symmetry; exact E1|].
  intros x Hx. apply list_elem_of_lookup_1 in Hx. destruct Hx as [i Hi].
  pose proof (lookup_lt_Some _ _ _ Hi) as Hlt. split.
  - apply (sorted_lookup_le sorted 0 i lo x Hs); [lia| |exact Hi].
    symmetry. exact E0.
  - apply (sorted_lookup_le sorted i (length sorted - 1) x hi Hs);
      [lia|exact Hi|]. symmetry. exact E1.
Qed.

(** C1, as the code has it: for every non-empty list of fewer than 2^45
    samples, the snapshot sorts a copy ascending; for a percentile [p] in
    0..100 over [n] samples [percentile] returns the element at the index
    [int(float64(p) / 100.0 * float64(n))], computed in binary64 and clamped
    to [n - 1]; that index is [floor(p * n / 100)] or one less, and is
    [floor(p * n / 100)] for every [p] other than 29, 35, 41, 47, 57, 58,
    69, 70, 82 and 94, so for the 50, 95 and 99 of [GetStats];
    [percentile sorted 0] is the minimum and [percentile sorted 100] the
    maximum sample, and the value does not decrease as [p] grows. *)
Theorem percentile_nearest_rank (lat : list Duration) :
  lat <> [] -> Z.of_nat (length lat) < 2 ^ 45 ->
  let sorted := sort_latencies lat in
  let n := Z.of_nat (length lat) in
  (StronglySorted Z.le sorted /\ sorted ≡ₚ lat)
  /\ (forall p, 0 <= p <= 100 ->
        percentile sorted p = sorted !! Z.to_nat (Z.min (rank p n) (n - 1))
        /\ is_Some (percentile sorted p)
        /\ spec_rank p n - 1 <= rank p n <= spec_rank p n
        /\ (p ∉ inexact_percentiles ->
            rank p n = spec_rank p n
            /\ percentile sorted p = spec_percentile sorted p))
  /\ (exists lo hi,
        percentile sorted 0 = Some lo /\ percentile sorted 100 = Some hi
        /\ lo ∈ lat /\ hi ∈ lat /\ forall x, x ∈ lat -> lo <= x <= hi)
  /\ (forall p p' v v', 0 <= p <= p' -> p' <= 100 ->
        percentile sorted p = Some v -> percentile sorted p' = Some v' ->
        v <= v')
  /\ (forall now c, latencies c = lat ->
        exists st v50 v95 v99,
          GetStats now c = Some st
          /\ spec_percentile sorted 50 = Some v50
          /\ spec_percentile sorted 95 = Some v95
          /\ spec_percentile sorted 99 = Some v99
          /\ MedianLatency st = toMs v50 /\ P95Latency st = toMs v95
          /\ P99Latency st = toMs v99).
Proof.
  intros Hne Hlen sorted n.
  assert (Hs : StronglySorted Z.le sorted) by apply sort_latencies_sorted.
  assert (Hperm : sorted ≡ₚ lat) by apply sort_latencies_perm.
  assert (Hl : length sorted = length lat) by (now rewrite Hperm).
  assert (Hn : 1 <= Z.of_nat (length sorted) < 2 ^ 45).
  { rewrite Hl. destruct lat; [contradiction|]. simpl length in *. lia. }
  assert (Hn' : 1 <= n < 2 ^ 45) by (unfold n; rewrite <- Hl; exact Hn).
  split; [split; assumption|]. split; [|split; [|split]].
  - intros p Hp.
    destruct (percentile_index sorted p Hn Hp) as [E Hsome].
    rewrite Hl in E. fold n in E.
    split; [exact E|]. split; [exact Hsome|].
    split; [now apply rank_near|].
    intros Hex. split; [now apply rank_exact|now apply percentile_exact].
  - destruct (percentile_extremes sorted Hs Hn)
      as (lo & hi & H0 & H100 & Hlo & Hhi & Hall).
    exists lo, hi. split; [exact H0|]. split; [exact H100|].
    split; [rewrite <- Hperm; eapply list_elem_of_lookup_2, Hlo|].
    split; [rewrite <- Hperm; eapply list_elem_of_lookup_2, Hhi|].
    intros x Hx. apply Hall. now rewrite Hperm.
  - intros p p' v v' Hp Hp'. now apply percentile_mono.
  - intros now c Hc.
    assert (Hex : forall p, In p [50; 95; 99] ->
              exists v, percentile sorted p = Some v
                /\ spec_percentile sorted p = Some v).
    { intros p Hin.
      assert (Hp : 0 <= p <= 100) by (simpl in Hin; lia).
      assert (Hgood : p ∉ inexact_percentiles).
      { simpl in Hin. destruct Hin as [<-|[<-|[<-|[]]]]; compute_done. }
      destruct (percentile_index sorted p Hn Hp) as [_ [v Hv]].
      exists v. split; [exact Hv|].
      now rewrite <- percentile_exact. }
    destruct (Hex 50) as (v50 & P50 & S50); [simpl; auto|].
    destruct (Hex 95) as (v95 & P95 & S95); [simpl; auto|].
    destruct (Hex 99) as (v99 & P99 & S99); [simpl; auto|].
    destruct (percentile_extremes sorted Hs Hn)
      as (lo & hi & _ & _ & Hlo & Hhi & _).
    unfold GetStats, latency_stats. rewrite Hc.
    destruct lat as [|x lat']; [contradiction|].
    fold sorted. cbv zeta.
    replace (Z.to_nat (Z.of_nat (length sorted) - 1))
      with (length sorted - 1)%nat by lia.
    rewrite Hlo, Hhi, P50, P95, P99. cbn [mbind option_bind].
    eexists _, v50, v95, v99. split; [reflexivity|]. cbn.
    repeat split; assumption.
Qed.

Lemma percentile_nearest_rank_witness :
  percentile (sort_latencies hundred_samples) 95
  = spec_percentile (sort_latencies hundred_samples) 95.
Proof.
  destruct (percentile_nearest_rank hundred_samples) as (_ & H & _).
  - discriminate.
  - vm_compute. reflexivity.
  - destruct (H 95 ltac:(lia)) as (_ & _ & _ & Hex).
    apply Hex. compute_done.
Defined.

(** C1 as stated fails: over the 100 samples 1ns..100ns the 29th
    percentile is the element at index 28, since binary64 gives
    0.29 * 100 = 28.999999999999996, not the one at [floor(29/100 * 100)]
    = 29. *)
Lemma percentile_29_of_100 : ~ spec_percentile_claim hundred_samples 29.
Proof.
  unfold spec_percentile_claim. vm_compute. discriminate.
Qed.

End Percentiles.

(** ** The collector: samples and snapshot figures *)

Section SampleLog.
Import Metrics Float64 Samples.

Lemma run_samples (evs : list event) (c : Collector) :
  Forall (fun ev => is_reset ev = false) evs ->
  latencies (run evs c) = latencies c ++ omap sample_of evs.
Proof.
  revert c. induction evs as [|ev evs IH]; intros c Hall; simpl.
  - now rewrite app_nil_r.
  - apply Forall_cons in Hall. destruct Hall as [Hev Hall].
    rewrite (IH _ Hall).
    destruct ev as [now [l s | | a b | | ]]; simpl in *;
      try discriminate; try reflexivity.
    now rewrite <- app_assoc.
Qed.

Lemma run_sample_count (evs : list event) (k : Z) (c : Collector) :
  k + Z.of_nat (length evs) <= Int64.max_int ->
  0 <= successRequests c -> 0 <= errorRequests c ->
  successRequests c + errorRequests c <= k ->
  Z.of_nat (length (latencies c)) = successRequests c + errorRequests c ->
  Z.of_nat (length (latencies (run evs c)))
  = successRequests (run evs c) + errorRequests (run evs c).
Proof.
  revert k c. induction evs as [|ev evs IH]; intros k c Hk Hs He Hle Hc;
    simpl in *; [exact Hc|].
  assert (Hw : forall x, 0 <= x <= k -> Int64.add x 1 = x + 1).
  { intros x Hx. unfold Int64.add. apply wrap_small.
    unfold Int64.min_int, Int64.max_int in *. lia. }
  apply (IH (k + 1)); [lia| | | |];
    destruct ev as [now [l [] | | a b | | ]]; simpl;
    rewrite ?Hw by lia; rewrite ?length_app; simpl; lia.
Qed.

(** X1: the samples a collector holds are exactly the latencies passed to
    [RecordRequest] since it was built or last [Reset], in call order;
    [RecordRejection], [RecordMemory] and [Stop] add none.  Below 2^63 calls
    their number is [successRequests + errorRequests]. *)
Theorem samples_since_reset (t0 : Time) (pre post : list event) :
  (pre = [] \/ exists pre' t, pre = pre' ++ [(t, CReset)]) ->
  Forall (fun ev => is_reset ev = false) post ->
  let c := run (pre ++ post) (NewCollector t0) in
  latencies c = omap sample_of post
  /\ (Z.of_nat (length post) <= Int64.max_int ->
      Z.of_nat (length (latencies c)) = successRequests c + errorRequests c).
Proof.
  intros Hpre Hpost c. unfold c. rewrite run_app.
  assert (Hfresh : exists t, run pre (NewCollector t0) = NewCollector t).
  { destruct Hpre as [->|(pre' & t & ->)]; [now exists t0|].
    exists t. rewrite run_app. reflexivity. }
  destruct Hfresh as [t ->]. split.
  - now rewrite run_samples.
  - intros Hlen. apply (run_sample_count post 0); simpl; lia.
Qed.

Lemma samples_since_reset_witness :
  latencies (run ([(5, CRecordRequest 7 true); (6, CReset)]
                  ++ [(8, CRecordRequest 9 false); (9, CStop)])
               (NewCollector 1)) = [9].
Proof.
  refine (proj1 (samples_since_reset 1 [(5, CRecordRequest 7 true); (6, CReset)]
            [(8, CRecordRequest 9 false); (9, CStop)] _ _)).
  - right. exists [(5, CRecordRequest 7 true)], 6. reflexivity.
  - repeat constructor.
Defined.

End SampleLog.

Section Snapshot.
Import Metrics Float64 Samples.

Lemma latency_stats_figures (lat : list Duration) :
  lat <> [] -> Z.of_nat (length lat) < 2 ^ 45 ->
  exists lo v50 v95 v99 hi,
    latency_stats lat
    = Some (mkLatencyStats (toMs lo) (toMs hi)
              (toMs (Z.quot (sum_latencies (sort_latencies lat))
                       (Z.of_nat (length lat))))
              (toMs v50) (toMs v95) (toMs v99))
    /\ lo <= v50 /\ v50 <= v95 /\ v95 <= v99 /\ v99 <= hi
    /\ lo ∈ lat /\ hi ∈ lat /\ (forall x, x ∈ lat -> lo <= x <= hi).
Proof.
  intros Hne Hlen. set (sorted := sort_latencies lat).
  assert (Hs : StronglySorted Z.le sorted) by apply sort_latencies_sorted.
  assert (Hperm : sorted ≡ₚ lat) by apply sort_latencies_perm.
  assert (Hl : length sorted = length lat) by (now rewrite Hperm).
  assert (Hn : 1 <= Z.of_nat (length sorted) < 2 ^ 45).
  { rewrite Hl. destruct lat; [contradiction|]. simpl length in *. lia. }
  destruct (percentile_index sorted 50 Hn ltac:(lia)) as [_ [v50 P50]].
  destruct (percentile_index sorted 95 Hn ltac:(lia)) as [_ [v95 P95]].
  destruct (percentile_index sorted 99 Hn ltac:(lia)) as [_ [v99 P99]].
  destruct (percentile_extremes sorted Hs Hn)
    as (lo & hi & H0 & H100 & Hlo & Hhi & Hall).
  exists lo, v50, v95, v99, hi. split.
  - unfold latency_stats. destruct lat as [|x lat']; [contradiction|].
    fold sorted. cbv zeta.
    replace (Z.to_nat (Z.of_nat (length sorted) - 1))
      with (length sorted - 1)%nat by lia.
    rewrite Hlo, Hhi, P50, P95, P99, Hl. reflexivity.
  - split; [apply (percentile_mono sorted 0 50 lo v50 Hs Hn); auto; lia|].
    split; [apply (percentile_mono sorted 50 95 v50 v95 Hs Hn); auto; lia|].
    split; [apply (percentile_mono sorted 95 99 v95 v99 Hs Hn); auto; lia|].
    split; [apply (percentile_mono sorted 99 100 v99 hi Hs Hn); auto; lia|].
    split; [rewrite <- Hperm; eapply list_elem_of_lookup_2, Hlo|].
    split; [rewrite <- Hperm; eapply list_elem_of_lookup_2, Hhi|].
    intros x Hx. apply Hall. now rewrite Hperm.
Qed.

(** X2: for a collector with at least one and fewer than 2^45 samples,
    [GetStats] returns a snapshot whose minimum, median, P95, P99 and maximum
    are the milliseconds of five durations in ascending order, the first the
    least and the last the greatest sample recorded. *)
Theorem snapshot_latency_order (now : Time) (c : Collector) :
  latencies c <> [] -> Z.of_nat (length (latencies c)) < 2 ^ 45 ->
  exists st lo v50 v95 v99 hi,
    GetStats now c = Some st
    /\ MinLatency st = toMs lo /\ MedianLatency st = toMs v50
    /\ P95Latency st = toMs v95 /\ P99Latency st = toMs v99
    /\ MaxLatency st = toMs hi
    /\ lo <= v50 /\ v50 <= v95 /\ v95 <= v99 /\ v99 <= hi
    /\ lo ∈ latencies c /\ hi ∈ latencies c
    /\ (forall x, x ∈ latencies c -> lo <= x <= hi).
Proof.
  intros Hne Hlen.
  destruct (latency_stats_figures _ Hne Hlen)
    as (lo & v50 & v95 & v99 & hi & E & H).
  unfold GetStats. rewrite E. cbn [mbind option_bind].
  eexists _, lo, v50, v95, v99, hi. split; [reflexivity|]. cbn.
  repeat (split; [reflexivity|]). exact H.
Qed.

Lemma snapshot_latency_order_witness :
  exists st lo v50 v95 v99 hi,
    GetStats 30000000000 (run ten_requests (NewCollector 1000000000)) = Some st
    /\ MinLatency st = toMs lo /\ MedianLatency st = toMs v50
    /\ P95Latency st = toMs v95 /\ P99Latency st = toMs v99
    /\ MaxLatency st = toMs hi
    /\ lo <= v50 /\ v50 <= v95 /\ v95 <= v99 /\ v99 <= hi
    /\ lo ∈ latencies (run ten_requests (NewCollector 1000000000))
    /\ hi ∈ latencies (run ten_requests (NewCollector 1000000000))
    /\ (forall x, x ∈ latencies (run ten_requests (NewCollector 1000000000)) ->
          lo <= x <= hi).
Proof.
  apply (snapshot_latency_order 30000000000
           (run ten_requests (NewCollector 1000000000))).
  - vm_compute. discriminate.
  - vm_compute. reflexivity.
Defined.

Lemma total_perm (l l' : list Z) : l ≡ₚ l' -> total l = total l'.
Proof.
  induction 1 as [|x l l' _ IH|x y l|l l' l'' _ IH1 _ IH2]; simpl;
    unfold total in *; simpl; lia.
Qed.

Lemma total_nonneg (l : list Z) : Forall (fun x => 0 <= x) l -> 0 <= total l.
Proof.
  induction 1 as [|x l Hx _ IH]; unfold total in *; simpl; lia.
Qed.

Lemma sum_latencies_exact (l : list Duration) (a : Z) :
  0 <= a -> Forall (fun x => 0 <= x) l -> a + total l <= Int64.max_int ->
  foldl Int64.add a l = a + total l.
Proof.
  intros Ha Hall. revert a Ha.
  induction Hall as [|x l Hx Hall IH]; intros a Ha Hle.
  - unfold total. simpl. lia.
  - pose proof (total_nonneg l Hall) as Hl.
    change (total (x :: l)) with (x + total l) in *.
    simpl. unfold Int64.add at 2.
    rewrite wrap_small by (unfold Int64.min_int, Int64.max_int in *; lia).
    rewrite IH; lia.
Qed.

Lemma total_bounds (l : list Z) (lo hi : Z) :
  (forall x, x ∈ l -> lo <= x <= hi) ->
  lo * Z.of_nat (length l) <= total l <= hi * Z.of_nat (length l).
Proof.
  induction l as [|x l IH]; intros H; [unfold total; simpl; lia|].
  change (total (x :: l)) with (x + total l).
  pose proof (H x ltac:(left)) as Hx.
  destruct IH as [IH1 IH2]; [intros y Hy; apply H; now right|].
  rewrite length_cons, Nat2Z.inj_succ. lia.
Qed.

(** X3: for non-negative samples whose sum fits an int64, the mean that
    [GetStats] reports is the milliseconds of the integer quotient of the sum
    by the count, and that quotient lies between the least and the greatest
    sample. *)
Theorem snapshot_mean_between (now : Time) (c : Collector) :
  latencies c <> [] -> Z.of_nat (length (latencies c)) < 2 ^ 45 ->
  Forall (fun x => 0 <= x) (latencies c) ->
  total (latencies c) <= Int64.max_int ->
  exists st lo hi,
    GetStats now c = Some st
    /\ MinLatency st = toMs lo /\ MaxLatency st = toMs hi
    /\ MeanLatency st
       = toMs (total (latencies c) / Z.of_nat (length (latencies c)))
    /\ lo <= total (latencies c) / Z.of_nat (length (latencies c)) <= hi.
Proof.
  intros Hne Hlen Hpos Hsum.
  destruct (latency_stats_figures _ Hne Hlen)
    as (lo & v50 & v95 & v99 & hi & E & _ & _ & _ & _ & _ & _ & Hall).
  assert (Hn : 0 < Z.of_nat (length (latencies c))).
  { destruct (latencies c); [contradiction|]. simpl length. lia. }
  assert (Hs : sum_latencies (sort_latencies (latencies c))
               = total (latencies c)).
  { unfold sum_latencies.
    rewrite <- (total_perm _ _ (sort_latencies_perm (latencies c))) in *.
    rewrite sum_latencies_exact; [lia|lia| |lia].
    rewrite (sort_latencies_perm (latencies c)). exact Hpos. }
  rewrite Hs in E.
  pose proof (total_nonneg _ Hpos) as Ht.
  rewrite Z.quot_div_nonneg in E by lia.
  unfold GetStats. rewrite E. cbn [mbind option_bind].
  eexists _, lo, hi. split; [reflexivity|]. cbn.
  repeat (split; [reflexivity|]).
  pose proof (total_bounds _ lo hi Hall) as [Hlo Hhi]. split.
  - apply Z.div_le_lower_bound; lia.
  - apply Z.div_le_upper_bound; lia.
Qed.

Lemma snapshot_mean_between_witness :
  exists st lo hi,
    GetStats 30000000000 (run ten_requests (NewCollector 1000000000)) = Some st
    /\ MinLatency st = toMs lo /\ MaxLatency st = toMs hi
    /\ MeanLatency st
       = toMs (total (latencies (run ten_requests (NewCollector 1000000000)))
               / Z.of_nat (length (latencies
                                     (run ten_requests (NewCollector 1000000000)))))
    /\ lo <= total (latencies (run ten_requests (NewCollector 1000000000)))
             / Z.of_nat (length (latencies
                                   (run ten_requests (NewCollector 1000000000))))
          <= hi.
Proof.
  apply (snapshot_mean_between 30000000000
           (run ten_requests (NewCollector 1000000000))).
  - vm_compute. discriminate.
  - vm_compute. reflexivity.
  - vm_compute. repeat constructor; discriminate.
  - vm_compute. discriminate.
Defined.

End Snapshot.

(** ** The simulated database *)

Section QueryRuns.
Import Go Models Float64 Simulator Queries.

Lemma QueryPatient_cases (db : Database) (generate : string -> Patient)
    (id : string) (d : draw) :
  bounds_ok db ->
  exists db' o,
    QueryPatient db (latency_draw d) (ctx_err d) (error_draw d) generate id
    = Ok (db', o)
    /\ minLatency db' = minLatency db /\ maxLatency db' = maxLatency db
    /\ errorRate db' = errorRate db
    /\ errorCount db'
       = (if is_error o then Int64.add (errorCount db) 1 else errorCount db)
    /\ queryCount db'
       = (if live (id, d) then Int64.add (queryCount db) 1 else queryCount db)
    /\ o = match ctx_err d with
           | Some e => QError ("query cancelled: " +:+ e)
           | None =>
               if shouldSimulateError db (error_draw d)
               then QError ("database error: connection timeout for patient "
                              +:+ id)
               else QPatient (generate id)
           end.
Proof.
  unfold bounds_ok, QueryPatient, getRandomLatency, Int63n. intros Hb.
  destruct (Z.leb_spec (Int64.sub (maxLatency db) (minLatency db)) 0); [lia|].
  unfold live. simpl.
  destruct (ctx_err d) as [e|].
  - eexists _, _. split; [reflexivity|]. simpl. auto 10.
  - change (shouldSimulateError (incrementQueryCount db) (error_draw d))
      with (shouldSimulateError db (error_draw d)).
    destruct (shouldSimulateError db (error_draw d));
      eexists _, _; (split; [reflexivity|]); simpl; auto 10.
Qed.

Lemma wrap_succ (a n : Z) :
  Int64.add (Int64.wrap (a + n)) 1 = Int64.wrap (a + (n + 1)).
Proof.
  unfold Int64.add. rewrite wrap_add_idemp_l. f_equal. ring.
Qed.

Lemma add_as_wrap (a : Z) : Int64.add a 1 = Int64.wrap (a + 1).
Proof. reflexivity. Qed.

Lemma run_queries_accounting (generate : string -> Patient)
    (reqs : list (string * draw)) (db : Database) (q e : Z) :
  bounds_ok db ->
  exists db' outs,
    run_queries db generate reqs = Ok (db', outs)
    /\ length outs = length reqs
    /\ minLatency db' = minLatency db /\ maxLatency db' = maxLatency db
    /\ errorRate db' = errorRate db
    /\ Forall2 (fun r o =>
          is_error o
          = negb (live r) || shouldSimulateError db (error_draw r.2)
          /\ forall p, o = QPatient p -> p = generate r.1) reqs outs
    /\ (errorCount db = Int64.wrap e ->
        errorCount db'
        = Int64.wrap (e + Z.of_nat (length (filter (fun o => is_error o = true) outs))))
    /\ (queryCount db = Int64.wrap q ->
        queryCount db'
        = Int64.wrap (q + Z.of_nat (length (filter (fun r => live r = true) reqs)))).
Proof.
  revert db q e. induction reqs as [|[id d] reqs IH]; intros db q e Hb.
  - exists db, []. simpl. rewrite !Z.add_0_r. auto 10.
  - destruct (QueryPatient_cases db generate id d Hb)
      as (db1 & o & E & Hmin & Hmax & Hrate & He & Hq & Ho).
    assert (Hb1 : bounds_ok db1) by (unfold bounds_ok; now rewrite Hmin, Hmax).
    destruct (IH db1
                (if live (id, d) then q + 1 else q)
                (if is_error o then e + 1 else e) Hb1)
      as (db2 & outs & E2 & Hlen & Hmin2 & Hmax2 & Hrate2 & Hall & He2 & Hq2).
    exists db2, (o :: outs). simpl. rewrite E, E2.
    split; [reflexivity|]. split; [simpl; now rewrite Hlen|].
    split; [congruence|]. split; [congruence|]. split; [congruence|].
    split.
    { constructor.
      - rewrite Ho. unfold live. simpl.
        destruct (ctx_err d) as [e0|]; simpl.
        + split; [reflexivity|]. intros p Hp. discriminate Hp.
        + destruct (shouldSimulateError db (error_draw d)); simpl.
          * split; [reflexivity|]. intros p Hp. discriminate Hp.
          * split; [reflexivity|]. intros p [= <-]. reflexivity.
      - eapply Forall2_impl; [exact Hall|]. intros r o' [H1 H2].
        split; [|exact H2]. rewrite H1. unfold shouldSimulateError.
        now rewrite Hrate. }
    split.
    + intros He0. rewrite He2.
      * rewrite filter_cons. destruct (decide (is_error o = true)) as [Hd|Hd].
        -- rewrite Hd. simpl length. f_equal. lia.
        -- destruct (is_error o); [now destruct Hd|]. reflexivity.
      * rewrite He, He0. destruct (is_error o); [|reflexivity].
        unfold Int64.add. now rewrite wrap_add_idemp_l.
    + intros Hq0. rewrite Hq2.
      * rewrite filter_cons.
        destruct (decide (live (id, d) = true)) as [Hd|Hd].
        -- rewrite Hd. simpl length. f_equal. lia.
        -- destruct (live (id, d)); [now destruct Hd|]. reflexivity.
      * rewrite Hq, Hq0. destruct (live (id, d)); [|reflexivity].
        unfold Int64.add. now rewrite wrap_add_idemp_l.
Qed.


(** X4: on a database whose latency bounds allow a draw, a sequence of
    [QueryPatient] calls never panics and answers every call; a call fails
    exactly when its context ends during the delay or its error draw is
    below the error rate, a successful one returns the generated patient of
    its id.  Afterwards [queryCount] has grown by the number of calls whose
    context stayed live and [errorCount] by the number of failed calls, both
    in int64 arithmetic: a cancelled call is an error but no query. *)
Theorem queries_accounting (db : Database) (generate : string -> Patient)
    (reqs : list (string * draw)) :
  bounds_ok db ->
  Int64.in_range (queryCount db) -> Int64.in_range (errorCount db) ->
  exists db' outs,
    run_queries db generate reqs = Ok (db', outs)
    /\ length outs = length reqs
    /\ Forall2 (fun r o =>
          is_error o
          = negb (live r) || shouldSimulateError db (error_draw r.2)
          /\ forall p, o = QPatient p -> p = generate r.1) reqs outs
    /\ GetStats db'
       = (Int64.wrap (queryCount db
                      + Z.of_nat (length (filter (fun r => live r = true) reqs))),
          Int64.wrap (errorCount db
                      + Z.of_nat (length (filter (fun o => is_error o = true)
                                            outs)))).
Proof.
  intros Hb Hq He.
  destruct (run_queries_accounting generate reqs db (queryCount db)
              (errorCount db) Hb)
    as (db' & outs & E & Hlen & _ & _ & _ & Hall & He' & Hq').
  exists db', outs. split; [exact E|]. split; [exact Hlen|].
  split; [exact Hall|]. unfold GetStats.
  rewrite He', Hq' by (symmetry; now apply wrap_small). reflexivity.
Qed.

Lemma sample_db_bounds : bounds_ok sample_db.
Proof. vm_compute. reflexivity. Qed.

Lemma queries_accounting_witness :
  exists db' outs,
    run_queries sample_db (fun _ => Optimized.sample_patient) sample_draws
    = Ok (db', outs)
    /\ length outs = length sample_draws
    /\ Forall2 (fun r o =>
          is_error o
          = negb (live r) || shouldSimulateError sample_db (error_draw r.2)
          /\ forall p, o = QPatient p -> p = Optimized.sample_patient)
         sample_draws outs
    /\ GetStats db'
       = (Int64.wrap (queryCount sample_db
                      + Z.of_nat (length (filter (fun r => live r = true)
                                            sample_draws))),
          Int64.wrap (errorCount sample_db
                      + Z.of_nat (length (filter (fun o => is_error o = true)
                                            outs)))).
Proof.
  apply (queries_accounting sample_db (fun _ => Optimized.sample_patient)
           sample_draws).
  - exact sample_db_bounds.
  - vm_compute. split; discriminate.
  - vm_compute. split; discriminate.
Defined.

Lemma batch_loop (generate : string -> Patient)
    (reqs : list (string * draw)) (db : Database) (acc : list Patient) :
  bounds_ok db ->
  (exists db',
     BatchQueryPatients_loop db generate reqs acc
     = Ok (db', inl (acc ++ map (fun r => generate r.1) reqs))
     /\ run_queries db generate reqs
        = Ok (db', map (fun r => QPatient (generate r.1)) reqs))
  \/ (exists db' done id d rest err,
        reqs = done ++ (id, d) :: rest
        /\ BatchQueryPatients_loop db generate reqs acc
           = Ok (db', inr ("failed to query patient " +:+ id +:+ ": " +:+ err))
        /\ run_queries db generate (done ++ [(id, d)])
           = Ok (db', map (fun r => QPatient (generate r.1)) done
                       ++ [QError err])).
Proof.
  revert db acc. induction reqs as [|[id d] reqs IH]; intros db acc Hb.
  - left. exists db. simpl. now rewrite app_nil_r.
  - destruct (QueryPatient_cases db generate id d Hb)
      as (db1 & o & E & Hmin & Hmax & _ & _ & _ & Ho).
    assert (Hb1 : bounds_ok db1) by (unfold bounds_ok; now rewrite Hmin, Hmax).
    destruct o as [p|err].
    + assert (Hp : p = generate id).
      { destruct (ctx_err d); [discriminate|].
        destruct (shouldSimulateError _ _); [discriminate|]. congruence. }
      subst p.
      destruct (IH db1 (acc ++ [generate id]) Hb1)
        as [(db' & E1 & E2) | (db' & done & id' & d' & rest & err & -> & E1 & E2)].
      * left. exists db'. simpl. rewrite E, E1, E2.
        rewrite <- app_assoc. split; reflexivity.
      * right. exists db', ((id, d) :: done), id', d', rest, err.
        simpl. rewrite E, E1, E2. auto.
    + right. exists db1, [], id, d, reqs, err. simpl. rewrite E. auto.
Qed.

(** X5: [BatchQueryPatients] either returns the patients of all ids, in
    order, having made exactly the queries of the whole list, or it stops at
    the first id whose query fails: it returns no patients and the error
    [failed to query patient <id>: <err>], having made the queries up to and
    including that one only. *)
Theorem BatchQueryPatients_all_or_first_error (db : Database)
    (generate : string -> Patient) (reqs : list (string * draw)) :
  bounds_ok db ->
  (exists db',
     BatchQueryPatients db generate reqs
     = Ok (db', inl (map (fun r => generate r.1) reqs))
     /\ run_queries db generate reqs
        = Ok (db', map (fun r => QPatient (generate r.1)) reqs))
  \/ (exists db' done id d rest err,
        reqs = done ++ (id, d) :: rest
        /\ BatchQueryPatients db generate reqs
           = Ok (db', inr ("failed to query patient " +:+ id +:+ ": " +:+ err))
        /\ run_queries db generate (done ++ [(id, d)])
           = Ok (db', map (fun r => QPatient (generate r.1)) done
                       ++ [QError err])).
Proof. intros Hb. exact (batch_loop generate reqs db [] Hb). Qed.

Lemma BatchQueryPatients_all_or_first_error_witness :
  (exists db',
     BatchQueryPatients sample_db (fun _ => Optimized.sample_patient)
       sample_draws
     = Ok (db', inl (map (fun r => Optimized.sample_patient) sample_draws))
     /\ run_queries sample_db (fun _ => Optimized.sample_patient) sample_draws
        = Ok (db', map (fun r => QPatient Optimized.sample_patient)
                     sample_draws))
  \/ (exists db' done id d rest err,
        sample_draws = done ++ (id, d) :: rest
        /\ BatchQueryPatients sample_db (fun _ => Optimized.sample_patient)
             sample_draws
           = Ok (db', inr ("failed to query patient " +:+ id +:+ ": " +:+ err))
        /\ run_queries sample_db (fun _ => Optimized.sample_patient)
             (done ++ [(id, d)])
           = Ok (db', map (fun r => QPatient Optimized.sample_patient) done
                       ++ [QError err])).
Proof.
  apply (BatchQueryPatients_all_or_first_error sample_db
           (fun _ => Optimized.sample_patient) sample_draws).
  exact sample_db_bounds.
Defined.

(** X6: with an error rate of zero or less, a query whose context stays
    live succeeds whatever the draw of [rng.Float64()] (which is not
    negative): it returns the generated patient and increments [queryCount]
    only. *)
Theorem no_simulated_error_at_rate_zero (db : Database)
    (generate : string -> Patient) (id : string) (d : draw) :
  bounds_ok db -> SFleb (errorRate db) zero = true ->
  SFleb zero (error_draw d) = true -> ctx_err d = None ->
  exists db',
    QueryPatient db (latency_draw d) (ctx_err d) (error_draw d) generate id
    = Ok (db', QPatient (generate id))
    /\ GetStats db' = (Int64.add (queryCount db) 1, errorCount db).
Proof.
  intros Hb Hrate Hu Hctx.
  destruct (QueryPatient_cases db generate id d Hb)
    as (db' & o & E & _ & _ & _ & He & Hq & Ho).
  assert (Hs : shouldSimulateError db (error_draw d) = false).
  { unfold shouldSimulateError, ltb, zero in *.
    destruct (errorRate db) as [[]|[]| |[] m e],
             (error_draw d) as [[]|[]| |[] m' e'];
      try discriminate; reflexivity. }
  rewrite Hctx, Hs in Ho. subst o. exists db'. split; [exact E|].
  unfold GetStats. rewrite He, Hq. unfold live. simpl. rewrite Hctx.
  reflexivity.
Qed.

Lemma no_simulated_error_at_rate_zero_witness :
  exists db',
    QueryPatient sample_db 7 None (S754_zero false)
      (fun _ => Optimized.sample_patient) "P00001"
    = Ok (db', QPatient Optimized.sample_patient)
    /\ GetStats db' = (Int64.add (queryCount sample_db) 1, errorCount sample_db).
Proof.
  apply (no_simulated_error_at_rate_zero sample_db
           (fun _ => Optimized.sample_patient) "P00001"
           (mkDraw 7 None (S754_zero false))).
  - exact sample_db_bounds.
  - reflexivity.
  - reflexivity.
  - reflexivity.
Defined.

(** The outcomes of a sequence of queries do not depend on the
    counters. *)
Lemma run_queries_outcomes (generate : string -> Patient)
    (reqs : list (string * draw)) (db1 db2 : Database) :
  bounds_ok db1 ->
  minLatency db2 = minLatency db1 -> maxLatency db2 = maxLatency db1 ->
  errorRate db2 = errorRate db1 ->
  exists d1 d2 outs,
    run_queries db1 generate reqs = Ok (d1, outs)
    /\ run_queries db2 generate reqs = Ok (d2, outs).
Proof.
  revert db1 db2. induction reqs as [|[id d] reqs IH];
    intros db1 db2 Hb Hmin Hmax Hrate.
  - exists db1, db2, []. split; reflexivity.
  - assert (Hb2 : bounds_ok db2) by (unfold bounds_ok; now rewrite Hmin, Hmax).
    destruct (QueryPatient_cases db1 generate id d Hb)
      as (e1 & o1 & E1 & Hmin1 & Hmax1 & Hrate1 & _ & _ & Ho1).
    destruct (QueryPatient_cases db2 generate id d Hb2)
      as (e2 & o2 & E2 & Hmin2 & Hmax2 & Hrate2 & _ & _ & Ho2).
    assert (Ho : o2 = o1).
    { rewrite Ho1, Ho2. unfold shouldSimulateError. now rewrite Hrate. }
    clear Ho1 Ho2. subst o2.
    destruct (IH e1 e2) as (d1 & d2 & outs & R1 & R2);
      [unfold bounds_ok; now rewrite Hmin1, Hmax1|congruence|congruence
      |congruence|].
    exists d1, d2, (o1 :: outs). simpl. rewrite E1, E2, R1, R2.
    split; reflexivity.
Qed.

(** X7: [ResetStats] sets both counters to zero and changes nothing else:
    the same queries have the same outcomes with it as without it, and after
    fewer than 2^63 of them [GetStats] gives exactly the number of calls
    whose context stayed live and the number of failed calls of this run. *)
Theorem ResetStats_restarts_accounting (db : Database)
    (generate : string -> Patient) (reqs : list (string * draw)) :
  bounds_ok db -> Z.of_nat (length reqs) <= Int64.max_int ->
  GetStats (ResetStats db) = (0, 0)
  /\ exists db1 db2 outs,
       run_queries db generate reqs = Ok (db1, outs)
       /\ run_queries (ResetStats db) generate reqs = Ok (db2, outs)
       /\ GetStats db2
          = (Z.of_nat (length (filter (fun r => live r = true) reqs)),
             Z.of_nat (length (filter (fun o => is_error o = true) outs))).
Proof.
  intros Hb Hlen. split; [reflexivity|].
  assert (Hb' : bounds_ok (ResetStats db)) by exact Hb.
  destruct (run_queries_outcomes generate reqs db (ResetStats db) Hb
              eq_refl eq_refl eq_refl) as (db1 & db2 & outs & R1 & R2).
  exists db1, db2, outs. split; [exact R1|]. split; [exact R2|].
  destruct (run_queries_accounting generate reqs (ResetStats db) 0 0 Hb')
    as (db' & outs' & E & Hl & _ & _ & _ & _ & He & Hq).
  rewrite R2 in E. injection E as <- <-.
  unfold GetStats. rewrite He, Hq by reflexivity.
  assert (Hmax : Int64.max_int = 9223372036854775807) by reflexivity.
  pose proof (length_filter (fun r => live r = true) reqs) as F1.
  pose proof (length_filter (fun o => is_error o = true) outs) as F2.
  rewrite !wrap_small; [reflexivity| |];
    unfold Int64.in_range, Int64.min_int, Int64.max_int in *; lia.
Qed.

Lemma ResetStats_restarts_accounting_witness :
  GetStats (ResetStats sample_db) = (0, 0)
  /\ exists db1 db2 outs,
       run_queries sample_db (fun _ => Optimized.sample_patient) sample_draws
       = Ok (db1, outs)
       /\ run_queries (ResetStats sample_db)
            (fun _ => Optimized.sample_patient) sample_draws
          = Ok (db2, outs)
       /\ GetStats db2
          = (Z.of_nat (length (filter (fun r => live r = true) sample_draws)),
             Z.of_nat (length (filter (fun o => is_error o = true) outs))).
Proof.
  apply (ResetStats_restarts_accounting sample_db
           (fun _ => Optimized.sample_patient) sample_draws).
  - exact sample_db_bounds.
  - vm_compute. discriminate.
Defined.

End QueryRuns.

Section LatencyRange.
Import Go Simulator.

(** X8: for bounds between 0 and 9223372036854 ms (the conversion to
    nanoseconds does not overflow) with [min < max], every latency drawn lies
    in the half-open range from [minLatency] to [maxLatency], the upper bound
    excluded, and every value of that range is drawn for some raw value of
    the generator; with [max <= min] every draw panics. *)
Theorem latency_draw_range (minMs maxMs : Z) (rate : Float64.float64) :
  0 <= minMs <= 9223372036854 -> 0 <= maxMs <= 9223372036854 ->
  let db := NewDatabase minMs maxMs rate in
  (minMs < maxMs ->
     (forall v, exists d,
        getRandomLatency db v = Ok d /\ minLatency db <= d < maxLatency db)
     /\ (forall d, minLatency db <= d < maxLatency db ->
           exists v, 0 <= v < 2 ^ 63 /\ getRandomLatency db v = Ok d))
  /\ (maxMs <= minMs ->
      forall v, getRandomLatency db v = Panic "invalid argument to Int63n").
Proof.
  intros Hmin Hmax db. unfold db, getRandomLatency, NewDatabase, Int63n.
  cbn [minLatency maxLatency].
  unfold Int64.sub, Int64.mul, Int64.add, Metrics.Millisecond.
  rewrite !(wrap_small (_ * 1000000))
    by (unfold Int64.min_int, Int64.max_int; lia).
  rewrite (wrap_small (_ - _)) by (unfold Int64.min_int, Int64.max_int; lia).
  split.
  - intros Hlt.
    destruct (Z.leb_spec (maxMs * 1000000 - minMs * 1000000) 0) as [Hle|Hpos];
      [lia|].
    split.
    + intros v.
      pose proof (Z.mod_pos_bound v (maxMs * 1000000 - minMs * 1000000) Hpos).
      eexists. split; [reflexivity|].
      rewrite wrap_small by (unfold Int64.min_int, Int64.max_int; lia). lia.
    + intros d Hd. exists (d - minMs * 1000000).
      split; [change (2 ^ 63) with 9223372036854775808; lia|].
      rewrite Z.mod_small by lia.
      rewrite wrap_small by (unfold Int64.min_int, Int64.max_int; lia).
      f_equal. lia.
  - intros Hge v.
    destruct (Z.leb_spec (maxMs * 1000000 - minMs * 1000000) 0) as [Hle|Hpos];
      [reflexivity|lia].
Qed.

Lemma latency_draw_range_witness :
  (50 < 100 ->
     (forall v, exists d,
        getRandomLatency (NewDatabase 50 100 Float64.zero) v = Ok d
        /\ minLatency (NewDatabase 50 100 Float64.zero) <= d
           < maxLatency (NewDatabase 50 100 Float64.zero))
     /\ (forall d, minLatency (NewDatabase 50 100 Float64.zero) <= d
                   < maxLatency (NewDatabase 50 100 Float64.zero) ->
           exists v, 0 <= v < 2 ^ 63
             /\ getRandomLatency (NewDatabase 50 100 Float64.zero) v = Ok d))
  /\ (100 <= 50 ->
      forall v, getRandomLatency (NewDatabase 50 100 Float64.zero) v
                = Panic "invalid argument to Int63n").
Proof.
  apply (latency_draw_range 50 100 Float64.zero); lia.
Defined.

End LatencyRange.

(** ** Patient records *)

Section PatientRecords.
Import Go Models Patients.

Lemma wrap_congr (a b : Z) :
  a mod 2 ^ 64 = b mod 2 ^ 64 -> Int64.wrap a = Int64.wrap b.
Proof.
  intros H. unfold Int64.wrap. f_equal.
  rewrite (Zplus_mod a), (Zplus_mod b), H. reflexivity.
Qed.

Lemma wrap_mod (a : Z) : Int64.wrap a mod 2 ^ 64 = a mod 2 ^ 64.
Proof.
  unfold Int64.wrap.
  rewrite Zminus_mod, Zmod_mod, <- Zminus_mod. f_equal. ring.
Qed.

Lemma hash_step (a c : Z) :
  Int64.add (Int64.mul 31 (Int64.wrap a)) c = Int64.wrap (31 * a + c).
Proof.
  unfold Int64.add, Int64.mul. rewrite wrap_add_idemp_l.
  apply wrap_congr.
  rewrite (Zplus_mod (31 * Int64.wrap a)), (Zmult_mod 31 (Int64.wrap a)),
    wrap_mod, <- Zmult_mod, <- Zplus_mod. reflexivity.
Qed.

Lemma hash_horner (s : list Z) (a : Z) :
  foldl (fun h c => Int64.add (Int64.mul 31 h) c) (Int64.wrap a) s
  = Int64.wrap (horner a s).
Proof.
  revert a. induction s as [|c s IH]; intros a; simpl; [reflexivity|].
  rewrite hash_step. apply IH.
Qed.

Lemma horner_shift (s : list Z) (a : Z) :
  horner a s = a * 31 ^ Z.of_nat (length s) + horner 0 s.
Proof.
  revert a. induction s as [|c s IH]; intros a.
  - simpl. lia.
  - change (horner a (c :: s)) with (horner (31 * a + c) s).
    change (horner 0 (c :: s)) with (horner (31 * 0 + c) s).
    rewrite (IH (31 * a + c)), (IH (31 * 0 + c)).
    rewrite length_cons, Nat2Z.inj_succ, Z.pow_succ_r by lia. ring.
Qed.

(** X9: [hashString] is the polynomial hash of the code points to the
    base 31, reduced to int64 by wrap-around; it is an int64 for every
    string, and the hash of a concatenation is the hash of the first part
    times 31 to the length of the second, plus the hash of the second,
    wrapped. *)
Theorem hashString_polynomial (s t : list Z) :
  hashString s = Int64.wrap (horner 0 s)
  /\ Int64.in_range (hashString s)
  /\ hashString (s ++ t)
     = Int64.wrap (hashString s * 31 ^ Z.of_nat (length t) + hashString t).
Proof.
  assert (H : forall u, hashString u = Int64.wrap (horner 0 u)).
  { intros u. unfold hashString. apply (hash_horner u 0). }
  split; [apply H|]. split; [rewrite H; apply wrap_in_range|].
  rewrite !H. unfold horner at 1. rewrite foldl_app.
  fold (horner 0 s). fold (horner (horner 0 s) t).
  rewrite horner_shift. apply wrap_congr.
  generalize (horner 0 s) (horner 0 t) (31 ^ Z.of_nat (length t)).
  intros a b P.
  rewrite (Zplus_mod (Int64.wrap a * P)), (Zmult_mod (Int64.wrap a)),
    !wrap_mod, <- Zmult_mod, <- Zplus_mod. reflexivity.
Qed.

(** X10: [GetAge] is the number of full calendar years from the date of
    birth to today (years below 2^62 in absolute value): the birthday of
    that many years after birth is today or earlier, the following one is
    later; the age is negative exactly for a date of birth after today. *)
Theorem GetAge_full_years (now dob : Date) :
  - 2 ^ 62 < Year now < 2 ^ 62 -> - 2 ^ 62 < Year dob < 2 ^ 62 ->
  date_le (anniversary dob (GetAge now dob)) now
  /\ ~ date_le (anniversary dob (GetAge now dob + 1)) now
  /\ (date_le dob now <-> 0 <= GetAge now dob).
Proof.
  intros Hn Hd. unfold GetAge, date_le, anniversary. simpl.
  unfold Int64.sub.
  rewrite (wrap_small (Year now - Year dob))
    by (unfold Int64.min_int, Int64.max_int; lia).
  destruct (Z.ltb_spec (Month now) (Month dob));
    destruct (Z.eqb_spec (Month now) (Month dob));
    destruct (Z.ltb_spec (Day now) (Day dob)); simpl;
    rewrite ?wrap_small by (unfold Int64.min_int, Int64.max_int; lia);
    lia.
Qed.

Lemma GetAge_full_years_witness :
  date_le (anniversary (mkDate 1990 12 25)
             (GetAge (mkDate 2026 10 30) (mkDate 1990 12 25)))
    (mkDate 2026 10 30)
  /\ ~ date_le (anniversary (mkDate 1990 12 25)
                  (GetAge (mkDate 2026 10 30) (mkDate 1990 12 25) + 1))
         (mkDate 2026 10 30)
  /\ (date_le (mkDate 1990 12 25) (mkDate 2026 10 30)
      <-> 0 <= GetAge (mkDate 2026 10 30) (mkDate 1990 12 25)).
Proof.
  apply (GetAge_full_years (mkDate 2026 10 30) (mkDate 1990 12 25)).
  - simpl. lia.
  - simpl. lia.
Defined.

End PatientRecords.

Section Generate.
Import Go Models Patients.

Lemma Intn_ok (n : Z) (src : nat -> Z) (k : nat) :
  0 < n -> Intn n src k = Ok (src k mod n, S k).
Proof.
  intros Hn. unfold Intn. destruct (Z.leb_spec n 0); [lia|reflexivity].
Qed.

Lemma index_ok (table : list string) (i : Z) (src : nat -> Z) (k : nat) :
  0 <= i < len table ->
  exists x, index table i src k = Ok (x, k) /\ x ∈ table.
Proof.
  intros Hi. unfold index, len in *.
  destruct (Z.ltb_spec i 0); [lia|].
  destruct (table !! Z.to_nat i) as [x|] eqn:E.
  - exists x. split; [reflexivity|]. eapply list_elem_of_lookup_2, E.
  - apply lookup_ge_None in E. lia.
Qed.

Lemma choose_ok (count : nat) (table : list string) (src : nat -> Z) (k : nat) :
  0 < len table ->
  exists l, choose count table src k = Ok (l, (k + count)%nat)
    /\ length l = count /\ Forall (fun x => x ∈ table) l.
Proof.
  intros Ht. revert k. induction count as [|c IH]; intros k.
  - exists []. simpl. rewrite Nat.add_0_r. auto.
  - simpl. unfold mbind, Rand_bind. rewrite Intn_ok by exact Ht.
    destruct (index_ok table (src k mod len table) src (S k))
      as (x & E & Hx); [apply Z.mod_pos_bound; exact Ht|].
    rewrite E. destruct (IH (S k)) as (l & El & Hlen & Hall). rewrite El.
    exists (x :: l).
    split; [replace (k + S c)%nat with (S k + c)%nat by lia; reflexivity|].
    split; [simpl; now rewrite Hlen|]. now constructor.
Qed.

Ltac draw :=
  match goal with
  | |- context [Intn ?n ?src ?k] =>
      rewrite (Intn_ok n src k) by reflexivity
  end.

Ltac pick x Hx :=
  match goal with
  | |- context [index ?t ?i ?src ?k] =>
      let E := fresh "E" in
      destruct (index_ok t i src k) as (x & E & Hx);
      [apply Z.mod_pos_bound; reflexivity | rewrite E; clear E]
  end.

Ltac pick_many l Hlen Hall :=
  match goal with
  | |- context [choose ?c ?t ?src ?k] =>
      let E := fresh "E" in
      destruct (choose_ok c t src k) as (l & E & Hlen & Hall);
      [reflexivity | rewrite E; clear E]
  end.

(** X11: [GeneratePatient] returns a record for every id and every random
    source, without an index out of range: the record has the id given, first
    and last name, physician, insurer and blood type from their tables,
    gender Male or Female, one to three diagnosis codes, at most four
    medications and one or two allergies from their tables, and a date of
    birth 18 to 89 years, 0 to 11 months and 0 to 27 days before now.  For a
    non-empty id [Validate] accepts it, or rejects it for a date of birth in
    the future only. *)
Theorem GeneratePatient_shape
    (AddDate : Metrics.Time -> Z -> Z -> Z -> Metrics.Time)
    (now_dob now_visit : Metrics.Time) (id : string) (src : nat -> Z)
    (k : nat) :
  exists p k',
    GeneratePatient AddDate now_dob now_visit id src k = Ok (p, k')
    /\ ID p = id
    /\ FirstName p ∈ firstNames /\ LastName p ∈ lastNames
    /\ (Gender p = "Male" \/ Gender p = "Female")
    /\ (1 <= length (DiagnosisCodes p) <= 3)%nat
    /\ Forall (fun x => x ∈ diagnosisCodes) (DiagnosisCodes p)
    /\ (length (Medications p) <= 4)%nat
    /\ Forall (fun x => x ∈ medications) (Medications p)
    /\ (1 <= length (Allergies p) <= 2)%nat
    /\ Forall (fun x => x ∈ allergies) (Allergies p)
    /\ PrimaryPhysician p ∈ physicians
    /\ InsuranceProvider p ∈ insuranceProviders
    /\ BloodType p ∈ bloodTypes
    /\ (exists years months days,
          18 <= years <= 89 /\ 0 <= months <= 11 /\ 0 <= days <= 27
          /\ DateOfBirth p = AddDate now_dob (- years) (- months) (- days))
    /\ (id <> "" ->
        forall now, Validate now p = None
          \/ Validate now p = Some "date of birth cannot be in the future").
Proof.
  unfold GeneratePatient, mbind, Rand_bind.
  draw. draw. draw. draw.
  pick_many dl Hdlen Hdall.
  draw.
  pick_many ml Hmlen Hmall.
  draw.
  pick_many al Halen Haall.
  draw. draw. draw. draw.
  draw. pick fname Hfirst.
  draw. pick lname Hlast.
  draw. pick phys Hphys.
  draw. pick ins Hins.
  draw. pick blood Hblood.
  unfold mret, Rand_ret.
  eexists _, _. split; [reflexivity|]. cbn [ID FirstName LastName Gender
    DiagnosisCodes Medications Allergies PrimaryPhysician InsuranceProvider
    BloodType DateOfBirth].
  pose proof (Z.mod_pos_bound (src k) 72 ltac:(lia)) as By.
  pose proof (Z.mod_pos_bound (src (S k)) 12 ltac:(lia)) as Bm.
  pose proof (Z.mod_pos_bound (src (S (S k))) 28 ltac:(lia)) as Bd.
  pose proof (Z.mod_pos_bound (src (S (S (S k)))) 3 ltac:(lia)) as Bdc.
  split; [reflexivity|]. split; [exact Hfirst|]. split; [exact Hlast|].
  split.
  { match goal with |- (if ?b then _ else _) = _ \/ _ => destruct b; auto end. }
  split.
  { rewrite Hdlen. unfold Int64.add.
    rewrite wrap_small by (unfold Int64.min_int, Int64.max_int; lia). lia. }
  split; [exact Hdall|].
  split.
  { rewrite Hmlen.
    match goal with |- (Z.to_nat (?a mod 5) <= 4)%nat =>
      pose proof (Z.mod_pos_bound a 5 ltac:(lia)) end. lia. }
  split; [exact Hmall|].
  split.
  { rewrite Halen.
    match goal with |- context [?a mod 3 =? 0] =>
      pose proof (Z.mod_pos_bound a 3 ltac:(lia));
      destruct (Z.eqb_spec (a mod 3) 0) end; lia. }
  split; [exact Haall|].
  split; [exact Hphys|]. split; [exact Hins|]. split; [exact Hblood|].
  split.
  { exists (src k mod 72 + 18), (src (S k) mod 12), (src (S (S k)) mod 28).
    split; [lia|]. split; [lia|]. split; [lia|].
    unfold Int64.add, Int64.sub.
    rewrite (wrap_small (src k mod 72 + 18))
      by (unfold Int64.min_int, Int64.max_int; lia).
    rewrite !(wrap_small (0 - _))
      by (unfold Int64.min_int, Int64.max_int; lia).
    reflexivity. }
  intros Hid now. unfold Validate.
  cbn [ID FirstName LastName DateOfBirth].
  destruct (String.eqb_spec id ""); [contradiction|].
  assert (Hf : String.eqb fname "" = false).
  { apply String.eqb_neq. intros ->. revert Hfirst. compute_done. }
  assert (Hl : String.eqb lname "" = false).
  { apply String.eqb_neq. intros ->. revert Hlast. compute_done. }
  rewrite Hf, Hl. simpl. destruct (_ <? _); auto.
Qed.

End Generate.

(** ** The load test *)

Section LoadPlan.
Import Go Metrics Samples Float64 Loadtest.

Lemma total_app (l l' : list Z) : total (l ++ l') = total l + total l'.
Proof.
  induction l as [|x l IH]; [reflexivity|].
  change (total ((x :: l) ++ l')) with (x + total (l ++ l')).
  change (total (x :: l)) with (x + total l). lia.
Qed.

Lemma plan_sum (q r : Z) (n : nat) :
  0 <= r -> 0 <= q -> q + 1 <= Int64.max_int ->
  total (numRequests q r <$> seqZ 0 (Z.of_nat n))
  = Z.of_nat n * q + Z.min (Z.of_nat n) r.
Proof.
  intros Hr Hq Hmax. induction n as [|n IH].
  { change (0 = 0 * q + Z.min 0 r). lia. }
  rewrite seqZ_S, fmap_app, total_app, IH, Nat2Z.inj_succ.
  unfold total, numRequests. simpl. unfold Int64.add.
  rewrite wrap_small by (unfold Int64.min_int, Int64.max_int in *; lia).
  destruct (Z.ltb_spec (0 + Z.of_nat n) r); lia.
Qed.

(** The numbers of requests that [runTest] hands to its clients. *)
Lemma plan_numbers (config : LoadTestConfig) :
  0 <= TotalRequests config < Int64.max_int ->
  0 < Concurrency config <= Int64.max_int ->
  exists numbers,
    plan config = Ok numbers
    /\ Z.of_nat (length numbers) = Concurrency config
    /\ total numbers = TotalRequests config
    /\ Forall (fun n => TotalRequests config / Concurrency config <= n
                        <= TotalRequests config / Concurrency config + 1)
         numbers.
Proof.
  intros Ht Hc. unfold plan, quo, rem.
  destruct (Z.eqb_spec (Concurrency config) 0); [lia|].
  rewrite Z.quot_div_nonneg, Z.rem_mod_nonneg by lia.
  pose proof (Z.div_mod (TotalRequests config) (Concurrency config) ltac:(lia))
    as Hdm.
  pose proof (Z.mod_pos_bound (TotalRequests config) (Concurrency config)
                ltac:(lia)) as Hr.
  assert (Hq : 0 <= TotalRequests config / Concurrency config
               <= TotalRequests config).
  { split; [apply Z.div_pos; lia|].
    apply Z.div_le_upper_bound; [lia|]. nia. }
  rewrite wrap_small by (unfold Int64.min_int, Int64.max_int in *; lia).
  eexists. split; [reflexivity|].
  split; [rewrite length_fmap, length_seqZ; lia|]. split.
  - replace (seqZ 0 (Concurrency config))
      with (seqZ 0 (Z.of_nat (Z.to_nat (Concurrency config))))
      by (rewrite Z2Nat.id; [reflexivity|lia]).
    rewrite plan_sum by lia. rewrite Z2Nat.id by lia. lia.
  - apply Forall_fmap, Forall_forall. intros i _. simpl.
    unfold numRequests, Int64.add.
    rewrite wrap_small by (unfold Int64.min_int, Int64.max_int in *; lia).
    destruct (_ <? _); lia.
Qed.

(** X12: [runTest] splits the requests over its client goroutines: for a
    total that is not negative and a positive concurrency there is one number
    per client, the numbers add up to the total, and each is the quotient of
    total by concurrency or one more. *)
Theorem plan_splits_total (config : LoadTestConfig) :
  0 <= TotalRequests config < Int64.max_int ->
  0 < Concurrency config <= Int64.max_int ->
  exists numbers,
    plan config = Ok numbers
    /\ Z.of_nat (length numbers) = Concurrency config
    /\ total numbers = TotalRequests config
    /\ Forall (fun n => TotalRequests config / Concurrency config <= n
                        <= TotalRequests config / Concurrency config + 1)
         numbers.
Proof. exact (plan_numbers config). Qed.

Lemma plan_splits_total_witness :
  exists numbers,
    plan sample_config = Ok numbers
    /\ Z.of_nat (length numbers) = Concurrency sample_config
    /\ total numbers = TotalRequests sample_config
    /\ Forall (fun n => TotalRequests sample_config / Concurrency sample_config
                        <= n
                        <= TotalRequests sample_config
                           / Concurrency sample_config + 1)
         numbers.
Proof.
  apply (plan_splits_total sample_config).
  - vm_compute. split; [discriminate|reflexivity].
  - vm_compute. split; [reflexivity|discriminate].
Defined.

End LoadPlan.

Section LoadTestRun.
Import Go Metrics Samples Float64 Loadtest.

Lemma total_nonneg' (l : list Z) : Forall (fun x => 0 <= x) l -> 0 <= total l.
Proof.
  induction 1 as [|x l Hx _ IH]; unfold total in *; simpl; lia.
Qed.

Lemma all_calls_length (outcome : Z -> Z -> Duration * bool)
    (numbers : list Z) :
  Forall (fun n => 0 <= n) numbers ->
  Z.of_nat (length (all_calls outcome numbers)) = total numbers.
Proof.
  unfold all_calls. intros Hall.
  enough (H : forall g : nat -> Z,
            Z.of_nat (length (concat (imap (fun i n =>
                        client_calls outcome (g i) n) numbers)))
            = total numbers) by apply (H Z.of_nat).
  induction Hall as [|n numbers Hn Hall IH]; intros g; [reflexivity|].
  change (total (n :: numbers)) with (n + total numbers).
  simpl. rewrite length_app, Nat2Z.inj_add.
  unfold client_calls at 1. rewrite length_fmap, length_seqZ.
  specialize (IH (fun i => g (S i))). unfold compose in *.
  rewrite IH. lia.
Qed.

Lemma all_calls_records (outcome : Z -> Z -> Duration * bool)
    (numbers : list Z) :
  Forall is_record (all_calls outcome numbers).
Proof.
  unfold all_calls.
  enough (H : forall g : nat -> Z,
            Forall is_record (concat (imap (fun i n =>
              client_calls outcome (g i) n) numbers))) by apply (H Z.of_nat).
  induction numbers as [|n numbers IH]; intros g; [constructor|].
  simpl. apply Forall_app. split; [|apply (IH (fun i => g (S i)))].
  unfold client_calls. apply Forall_fmap, Forall_forall. intros j _.
  simpl. now eexists _, _.
Qed.

Lemma run_records (evs : list event) (k : Z) (c : Collector) :
  Forall is_record (snd <$> evs) ->
  k + Z.of_nat (length evs) <= Int64.max_int ->
  0 <= successRequests c -> 0 <= errorRequests c ->
  successRequests c + errorRequests c = k -> totalRequests c = k ->
  rejectedRequests c = 0 -> Z.of_nat (length (latencies c)) = k ->
  let c' := run evs c in
  totalRequests c' = k + Z.of_nat (length evs)
  /\ successRequests c' + errorRequests c' = k + Z.of_nat (length evs)
  /\ 0 <= successRequests c' /\ 0 <= errorRequests c'
  /\ rejectedRequests c' = 0
  /\ Z.of_nat (length (latencies c')) = k + Z.of_nat (length evs)
  /\ startTime c' = startTime c /\ endTime c' = endTime c.
Proof.
  revert k c. induction evs as [|[t ev] evs IH];
    intros k c Hall Hk Hs He Hse Ht Hr Hl; simpl in *.
  - rewrite Z.add_0_r. auto 10.
  - apply Forall_cons in Hall. destruct Hall as [(l & s & ->) Hall].
    assert (Hw : forall x, 0 <= x <= k -> Int64.add x 1 = x + 1).
    { intros x Hx. unfold Int64.add. apply wrap_small.
      unfold Int64.min_int, Int64.max_int in *. lia. }
    destruct (IH (k + 1) (RecordRequest l s c) Hall) as (H1 & H2 & H3 & H4 & H5 & H6 & H7 & H8);
      try (destruct s; simpl; rewrite ?Hw by lia; rewrite ?length_app; simpl; lia).
    repeat split; try assumption; try lia.
Qed.

Lemma zero_rate (n : Z) :
  1 <= n < 2 ^ 53 ->
  mul (div (of_int 0) (of_int n)) (of_int 100) = zero.
Proof.
  intros Hn. rewrite (of_int_exact n Hn). reflexivity.
Qed.

(** X13: whatever the order in which the clients of [runTest] reach the
    collector, the statistics of a run of fewer than 2^45 requests count
    every request once: [TotalRequests] is the configured total, successes
    and errors add up to it, and no rejection is recorded, the rejection rate
    being zero. *)
Theorem runTest_records_every_request (config : LoadTestConfig)
    (outcome : Z -> Z -> Duration * bool) (evs : list event)
    (t0 t_stop now : Time) :
  0 <= TotalRequests config < 2 ^ 45 ->
  0 < Concurrency config <= Int64.max_int ->
  exists numbers,
    plan config = Ok numbers
    /\ (snd <$> evs ≡ₚ all_calls outcome numbers ->
        exists st,
          runTest_stats t0 evs t_stop now = Some st
          /\ Metrics.TotalRequests st = TotalRequests config
          /\ SuccessRequests st + ErrorRequests st = TotalRequests config
          /\ RejectedRequests st = 0
          /\ RejectionRate st = zero).
Proof.
  intros Ht Hc. change (2 ^ 45) with 35184372088832 in Ht.
  assert (Hmax : Int64.max_int = 9223372036854775807) by reflexivity.
  destruct (plan_numbers config) as (numbers & Hplan & Hlen & Hsum & Hall);
    [lia | exact Hc |].
  exists numbers. split; [exact Hplan|]. intros Hperm.
  assert (Hpos : Forall (fun n => 0 <= n) numbers).
  { eapply Forall_impl; [exact Hall|]. intros n [Hn _]. simpl in Hn.
    pose proof (Z.div_pos (TotalRequests config) (Concurrency config)
                  ltac:(lia) ltac:(lia)). lia. }
  assert (Hn : Z.of_nat (length evs) = TotalRequests config).
  { rewrite <- Hsum, <- (all_calls_length outcome numbers Hpos), <- Hperm.
    now rewrite length_fmap. }
  assert (Hrec : Forall is_record (snd <$> evs)).
  { rewrite Hperm. apply all_calls_records. }
  destruct (run_records evs 0 (NewCollector t0) Hrec)
    as (H1 & H2 & H3 & H4 & H5 & H6 & H7 & H8);
    try reflexivity; try (simpl; lia).
  unfold runTest_stats. rewrite run_app.
  set (c := run evs (NewCollector t0)) in *.
  change (run [(t_stop, CStop)] c) with (Stop t_stop c).
  assert (Hst : exists ls, latency_stats (latencies c) = Some ls).
  { destruct (latencies c) as [|x l] eqn:E; [now eexists|].
    destruct (latency_stats_figures (x :: l))
      as (lo & v50 & v95 & v99 & hi & Els & _);
      [discriminate | change (2 ^ 45) with 35184372088832; lia | eauto]. }
  destruct Hst as [ls Hls].
  unfold GetStats. cbn [latencies Stop]. rewrite Hls. cbn [mbind option_bind].
  eexists. split; [reflexivity|].
  cbn [Metrics.TotalRequests SuccessRequests ErrorRequests RejectedRequests
       RejectionRate totalRequests successRequests errorRequests
       rejectedRequests Stop].
  rewrite H1, H5. split; [lia|]. split; [lia|]. split; [reflexivity|].
  destruct (Z.ltb_spec 0 (0 + Z.of_nat (length evs))); [|reflexivity].
  apply zero_rate. change (2 ^ 53) with 9007199254740992. lia.
Qed.

Lemma runTest_records_every_request_witness :
  exists st,
    runTest_stats 1 sample_events 8 9 = Some st
    /\ Metrics.TotalRequests st = TotalRequests sample_config
    /\ SuccessRequests st + ErrorRequests st = TotalRequests sample_config
    /\ RejectedRequests st = 0
    /\ RejectionRate st = zero.
Proof.
  destruct (runTest_records_every_request sample_config sample_outcome
              sample_events 1 8 9) as (numbers & Hplan & H).
  - vm_compute. split; [discriminate|reflexivity].
  - vm_compute. split; [reflexivity|discriminate].
  - apply H. vm_compute in Hplan. injection Hplan as <-.
    vm_compute. etrans; [apply perm_swap|]. constructor. apply perm_swap.
Defined.

End LoadTestRun.

(** ** Server start *)

Section Startup.
Import Go Main.

Lemma validPatterns_lookup (p : string) :
  default false (validPatterns !! p) = true
  <-> p = "naive" \/ p = "workerpool" \/ p = "optimized".
Proof.
  unfold validPatterns. split.
  - destruct (validPatterns !! p) as [b|] eqn:E; unfold validPatterns in E;
      rewrite E; simpl; [|discriminate].
    intros ->.
    apply lookup_insert_Some in E. destruct E as [ [ <- _ ] | [ _ E ] ]; [auto|].
    apply lookup_insert_Some in E. destruct E as [ [ <- _ ] | [ _ E ] ]; [auto|].
    apply lookup_singleton_Some in E. destruct E as [ <- _ ]. auto.
  - intros [ -> | [ -> | -> ] ]; reflexivity.
Qed.

(** X14: a pattern passes the check of [parseFlags] exactly when
    [createHandler] does not answer with its unknown-pattern error; for such
    a pattern and a queue size that is not negative a handler is built, and
    for a negative queue size the two pool patterns panic in [make]. *)
Theorem createHandler_after_validation (config : Config) :
  (validate config = Some config
   <-> forall e, createHandler config <> Ok (inr e))
  /\ (validate config = Some config -> 0 <= QueueSize config ->
      exists h, createHandler config = Ok (inl h))
  /\ (validate config = Some config -> Pattern config <> "naive" ->
      QueueSize config < 0 ->
      createHandler config = Panic "makechan: size out of range").
Proof.
  assert (Hv : validate config = Some config
               <-> Pattern config = "naive" \/ Pattern config = "workerpool"
                   \/ Pattern config = "optimized").
  { rewrite <- validPatterns_lookup. unfold validate.
    destruct (default false _); split; congruence. }
  unfold createHandler, Pool.NewWorkerPoolHandler, Pool.NewOptimizedHandler,
    Pool.NewHandler. cbn [Pool.QueueSize Pool.Workers].
  rewrite Hv. clear Hv.
  destruct (String.eqb_spec (Pattern config) "naive") as [E1|E1].
  { split; [split; [intros _ e; discriminate | auto]|].
    split; [intros _ _; now eexists | intros _ Hn; contradiction]. }
  destruct (String.eqb_spec (Pattern config) "workerpool") as [E2|E2].
  { destruct (Z.ltb_spec (QueueSize config) 0) as [Hq|Hq].
    - split; [split; [intros _ e; discriminate | auto]|].
      split; [intros _ Hq'; lia | reflexivity].
    - split; [split; [intros _ e; discriminate | auto]|].
      split; [intros _ _; now eexists | intros _ _ Hq'; lia]. }
  destruct (String.eqb_spec (Pattern config) "optimized") as [E3|E3].
  { destruct (Z.ltb_spec (QueueSize config) 0) as [Hq|Hq].
    - split; [split; [intros _ e; discriminate | auto]|].
      split; [intros _ Hq'; lia | reflexivity].
    - split; [split; [intros _ e; discriminate | auto]|].
      split; [intros _ _; now eexists | intros _ _ Hq'; lia]. }
  split; [split; [tauto|]|split; tauto].
  intros H. exfalso. eapply H. reflexivity.
Qed.

Lemma createHandler_after_validation_witness :
  exists h, createHandler default_config = Ok (inl h).
Proof.
  refine (proj1 (proj2 (createHandler_after_validation default_config)) _ _).
  - reflexivity.
  - vm_compute. discriminate.
Defined.

End Startup.

(** ** The pool handlers: bounds, queue order, shutdown, containers *)

Section PoolBounds.
Import Go Models Pool PoolInvariants.

Lemma busy_count_app (l1 l2 : list wstate) :
  length (filter (fun w => busy w = true) (l1 ++ l2))
  = (length (filter (fun w => busy w = true) l1)
     + length (filter (fun w => busy w = true) l2))%nat.
Proof. now rewrite filter_app, length_app. Qed.

Lemma busy_count_cons (x : wstate) (l : list wstate) :
  length (filter (fun w => busy w = true) (x :: l))
  = ((if busy x then 1 else 0)
     + length (filter (fun w => busy w = true) l))%nat.
Proof.
  rewrite filter_cons. destruct (decide (busy x = true)) as [->|H];
    [reflexivity|]. destruct (busy x); [now destruct H|reflexivity].
Qed.

Lemma busy_count_insert (ws : list wstate) (w : worker_id) (x y : wstate) :
  ws !! w = Some x ->
  Z.of_nat (length (filter (fun w => busy w = true) (<[w := y]> ws)))
  = Z.of_nat (length (filter (fun w => busy w = true) ws))
    - (if busy x then 1 else 0) + (if busy y then 1 else 0).
Proof.
  intros Hw.
  assert (Hlt : (w < length ws)%nat) by (eapply lookup_lt_Some, Hw).
  rewrite insert_take_drop by exact Hlt.
  rewrite <- (take_drop_middle ws w x Hw) at 3.
  rewrite !busy_count_app, !busy_count_cons.
  destruct (busy x), (busy y); lia.
Qed.

Lemma busy_count_le (ws : list wstate) :
  (length (filter (fun w => busy w = true) ws) <= length ws)%nat.
Proof. apply length_filter. Qed.

Lemma busy_count_wake (ws : list wstate) :
  length (filter (fun w => busy w = true) (wake ws))
  = length (filter (fun w => busy w = true) ws).
Proof.
  induction ws as [|x ws IH]; [reflexivity|].
  change (wake (x :: ws))
    with ((match x with WParked => WSelect | _ => x end) :: wake ws).
  rewrite !busy_count_cons, IH. destruct x; reflexivity.
Qed.

Lemma length_wake (ws : list wstate) : length (wake ws) = length ws.
Proof. unfold wake. apply length_fmap. Qed.

Lemma busy_count_lt (ws : list wstate) (w : worker_id) (x : wstate) :
  ws !! w = Some x -> busy x = false ->
  (length (filter (fun w => busy w = true) ws) < length ws)%nat.
Proof.
  intros Hw Hx. rewrite <- (take_drop_middle ws w x Hw).
  rewrite busy_count_app, busy_count_cons, Hx, !length_app. simpl.
  pose proof (busy_count_le (take w ws)).
  pose proof (busy_count_le (drop (S w) ws)). lia.
Qed.

(** The bounded-concurrency invariant, for a pool of [n] workers. *)
Lemma send_job_active (n : nat) (id : string) (done : bool) (s s' : state)
    (j : job_id) :
  send_job id done s = Ok (j, s') -> active_ok n s -> active_ok n s'.
Proof.
  unfold send_job, chansend_status, active_ok, busy_workers.
  intros E [Hlen Hact].
  destruct (queue_closed s); [discriminate|].
  destruct (find_parked (workers s)) as [w|] eqn:Hp.
  - injection E as <- <-. simpl. rewrite length_insert.
    split; [exact Hlen|].
    apply find_parked_Some in Hp.
    rewrite (busy_count_insert _ _ _ _ Hp). simpl. lia.
  - destruct (_ <? _); injection E as <- <-; simpl; auto.
Qed.

Lemma begin_job_active (n : nat) (w : worker_id) (j : job_id)
    (pick : option nat) (q : list job_id) (s : state) (x : wstate) :
  Z.of_nat n <= Int64.max_int ->
  workers s !! w = Some x -> busy x = false ->
  active_ok n s -> active_ok n (begin_job w j pick (set_jobQueue q s)).
Proof.
  unfold active_ok, busy_workers. intros Hn Hw Hx [Hlen Hact].
  pose proof (busy_count_lt _ _ _ Hw Hx) as Hlt.
  assert (Ha : Int64.add (activeJobs s) 1 = activeJobs s + 1).
  { unfold Int64.add. apply wrap_small.
    unfold Int64.min_int, Int64.max_int in *. lia. }
  unfold begin_job. cbn -[Int64.add Optimized.getResponse].
  destruct (pool s) as [h|].
  - destruct (Optimized.getResponse pick h) as [l h'].
    cbn -[Int64.add].
    rewrite length_insert, (busy_count_insert _ _ _ _ Hw), Hx, Ha. simpl.
    split; [exact Hlen|lia].
  - cbn -[Int64.add].
    rewrite length_insert, (busy_count_insert _ _ _ _ Hw), Hx, Ha. simpl.
    split; [exact Hlen|lia].
Qed.

Lemma set_jobQueue_same (s : state) : set_jobQueue (jobQueue s) s = s.
Proof. now destruct s. Qed.

Lemma active_ok_invariant (n : nat) :
  Z.of_nat n <= Int64.max_int -> invariant (active_ok n).
Proof.
  intros Hn l s s' Hs.
  destruct l as [r c|p d t c|j pb c|w c pk|w qo now c|j| | |]; simpl.
  - unfold ServeHTTP_submit. destruct (String.eqb _ _); [intros [= <-]; exact Hs|].
    destruct (select_case _ c) as [[]|]; try (intros [= <-]; exact Hs).
    destruct (send_job _ _ s) as [[j s1]|] eqn:E; [|discriminate].
    intros [= <-]. eapply send_job_active; eauto.
  - unfold HandleRequest_submit.
    destruct (select_case _ c) as [[]|]; try (intros [= <-]; exact Hs).
    destruct (send_job _ _ s) as [[j s1]|] eqn:E; [|discriminate].
    intros [= <-]. eapply send_job_active; eauto.
  - destruct (await j pb c s) as [[d s1]|] eqn:E; intros [= <-]; [|exact Hs].
    unfold active_ok, busy_workers in *.
    pose proof (await_frame _ _ _ _ _ _ E) as (Hw & _).
    rewrite Hw. destruct Hs as [Hlen Hact]. split; [exact Hlen|].
    rewrite <- Hact. clear - E. unfold await in E.
    destruct (jobs s !! j) as [jb|]; simpl in E; [|discriminate].
    destruct (select_case _ c) as [[]|]; simpl in E; try discriminate.
    + destruct (head (resultChan jb)) as [[r|l]|]; simpl in E;
        [| |discriminate]; injection E as _ <-; [reflexivity|].
      destruct pb; reflexivity.
    + destruct (head (errChan jb)); simpl in E; [|discriminate].
      injection E as _ <-. reflexivity.
    + injection E as _ <-. reflexivity.
  - intros [= <-]. unfold worker_step.
    destruct (workers s !! w) as [[| |j|j c0|]|] eqn:Hw; try exact Hs.
    + assert (Hplain : forall y, busy y = false ->
                active_ok n (set_workers (<[w := y]> (workers s)) s)).
      { intros y Hy. destruct Hs as [Hlen Hact].
        unfold active_ok, busy_workers in *. simpl.
        rewrite length_insert, (busy_count_insert _ _ _ _ Hw), Hy. simpl.
        split; [exact Hlen|lia]. }
      destruct (select_case _ c) as [[]|]; try (now apply Hplain).
      destruct (jobQueue s) as [|j rest]; [now apply Hplain|].
      eapply begin_job_active; eauto.
    + rewrite <- (set_jobQueue_same s) at 1.
      eapply begin_job_active; eauto.
  - intros [= <-]. unfold finish_job.
    destruct (workers s !! w) as [[| |j|j c0|]|] eqn:Hw; try exact Hs.
    destruct (jobs s !! j) as [jb|]; [|exact Hs].
    assert (Hend : forall s1, workers s1 = workers s ->
              activeJobs s1 = activeJobs s -> active_ok n (end_job w s1)).
    { intros s1 Hw1 Ha1. destruct Hs as [Hlen Hact].
      unfold active_ok, busy_workers, end_job in *. simpl.
      rewrite Hw1, Ha1, length_insert, (busy_count_insert _ _ _ _ Hw). simpl.
      split; [exact Hlen|].
      pose proof (busy_count_le (workers s)).
      assert (Hpos : (0 < length (filter (fun w => busy w = true) (workers s)))%nat).
      { rewrite <- (take_drop_middle _ _ _ Hw), busy_count_app, busy_count_cons.
        simpl. lia. }
      unfold Int64.add. rewrite wrap_small
        by (unfold Int64.min_int, Int64.max_int in *; lia). lia. }
    destruct qo as [p|err];
      destruct (select_case _ c) as [[]|]; try exact Hs;
      apply Hend; destruct c0; reflexivity.
  - intros [= <-]. exact Hs.
  - unfold Shutdown_close. destruct (queue_closed s); [discriminate|].
    intros [= <-]. destruct Hs as [Hlen Hact].
    unfold active_ok, busy_workers in *.
    cbn [workers activeJobs set_workers set_queue_closed].
    rewrite length_wake, busy_count_wake. auto.
  - intros [= <-]. destruct Hs as [Hlen Hact].
    unfold active_ok, busy_workers, Shutdown_cancel in *.
    cbn [workers activeJobs set_workers set_cancelled].
    rewrite length_wake, busy_count_wake. auto.
  - intros [= <-]. unfold waiter_step. destruct (forallb _ _); exact Hs.
Qed.

(** X15: in every state either pool handler reaches, the number of worker
    goroutines is the configured [Workers] (none for a count below one), and
    the active-jobs figure of [GetStats] is the number of workers inside
    [processJob], so it lies between 0 and [Workers]. *)
Theorem active_jobs_bounded (optimized : bool) (config : WorkerPoolConfig)
    (s0 : state) (ls : list label) (s : state) :
  Workers config <= Int64.max_int ->
  NewHandler optimized config = Ok s0 -> exec ls s0 = Ok s ->
  Z.of_nat (length (workers s)) = Z.max 0 (Workers config)
  /\ (GetStats s).1.1 = Z.of_nat (busy_workers s)
  /\ 0 <= (GetStats s).1.1 <= Z.max 0 (Workers config).
Proof.
  intros Hw Hnew Hexec.
  assert (H0 : active_ok (Z.to_nat (Workers config)) s0).
  { unfold NewHandler in Hnew. destruct (_ <? _); [discriminate|].
    injection Hnew as <-. unfold active_ok, busy_workers. simpl.
    rewrite length_replicate. split; [reflexivity|].
    clear. induction (Z.to_nat (Workers config)) as [|k IH]; [reflexivity|].
    simpl. rewrite busy_count_cons. simpl. exact IH. }
  assert (Hmax : 0 <= Int64.max_int) by (unfold Int64.max_int; lia).
  assert (Hn : Z.of_nat (Z.to_nat (Workers config)) <= Int64.max_int) by lia.
  assert (Hinv : active_ok (Z.to_nat (Workers config)) s).
  { eapply (exec_invariant _ (active_ok_invariant _ Hn)); eauto. }
  destruct Hinv as [Hlen Hact]. unfold GetStats. simpl.
  split; [lia|]. split; [exact Hact|].
  rewrite Hact. unfold busy_workers.
  pose proof (busy_count_le (workers s)). lia.
Qed.

End PoolBounds.

Section PoolQueue.
Import Go Models Pool PoolInvariants.

Lemma select_send_ready {A : Type} (b1 : bool) (rest : list submit_case)
    (choice : nat) :
  CaseSend ∉ rest ->
  select_case (when b1 CaseSend ++ rest) choice = Some CaseSend -> b1 = true.
Proof.
  intros Hrest H. apply select_case_elem in H.
  destruct b1; [reflexivity|]. simpl in H. contradiction.
Qed.

Lemma send_job_queue (id : string) (done : bool) (s s' : state) (j : job_id) :
  send_ready s = true -> send_job id done s = Ok (j, s') ->
  queue_ok s -> queue_ok s'.
Proof.
  unfold send_ready, send_job, chansend_status, queue_ok.
  intros Hr E (Hlen & Hs & Hall).
  destruct (queue_closed s); [discriminate|].
  destruct (find_parked (workers s)) as [w|].
  - injection E as <- <-. simpl. rewrite length_app. simpl.
    split; [exact Hlen|]. split; [exact Hs|].
    eapply Forall_impl; [exact Hall|]. simpl. lia.
  - destruct (Z.ltb_spec (Z.of_nat (length (jobQueue s))) (queueSize s));
      [|discriminate].
    injection E as <- <-. simpl. rewrite !length_app. simpl.
    split; [lia|]. split.
    + clear - Hs Hall. induction Hs as [|x l Hs IH Hx]; simpl.
      * repeat constructor.
      * apply Forall_cons in Hall. destruct Hall as [Hx' Hall].
        constructor; [now apply IH|].
        apply Forall_app. split; [exact Hx|]. repeat constructor. exact Hx'.
    + apply Forall_app. split.
      * eapply Forall_impl; [exact Hall|]. simpl. lia.
      * repeat constructor. simpl. lia.
Qed.

Lemma begin_job_frame (w : worker_id) (j : job_id) (pick : option nat)
    (s : state) :
  jobQueue (begin_job w j pick s) = jobQueue s
  /\ jobs (begin_job w j pick s) = jobs s
  /\ queueSize (begin_job w j pick s) = queueSize s
  /\ queue_closed (begin_job w j pick s) = queue_closed s.
Proof.
  unfold begin_job. simpl. destruct (pool s) as [h|]; simpl.
  - destruct (Optimized.getResponse pick h). simpl. auto.
  - auto.
Qed.

Lemma queue_ok_tail (s : state) (j : job_id) (rest : list job_id) :
  jobQueue s = j :: rest -> queue_ok s -> queue_ok (set_jobQueue rest s).
Proof.
  unfold queue_ok. intros Hq (Hlen & Hs & Hall). rewrite Hq in *. simpl in *.
  apply StronglySorted_inv in Hs. apply Forall_cons in Hall.
  split; [lia|]. split; [apply Hs|apply Hall].
Qed.

Lemma queue_ok_frame (s s' : state) :
  jobQueue s' = jobQueue s -> queueSize s' = queueSize s ->
  length (jobs s') = length (jobs s) -> queue_ok s -> queue_ok s'.
Proof. unfold queue_ok. intros -> -> ->. auto. Qed.

Lemma finish_job_jobs (w : worker_id) (qo : Simulator.query_outcome)
    (now : Metrics.Time) (choice : nat) (s : state) :
  length (jobs (finish_job w qo now choice s)) = length (jobs s).
Proof.
  unfold finish_job.
  destruct (workers s !! w) as [[| |j|j c|]|]; auto.
  destruct (jobs s !! j) as [jb|]; auto.
  destruct qo as [p|err];
    destruct (select_case _ choice) as [[]|]; auto;
    destruct c; simpl; rewrite ?length_insert; reflexivity.
Qed.

Lemma await_jobs (j : job_id) (put_back : bool) (choice : nat) (s s' : state)
    (d : delivered) :
  await j put_back choice s = Some (d, s') ->
  length (jobs s') = length (jobs s).
Proof.
  unfold await. destruct (jobs s !! j) as [jb|]; simpl; [|discriminate].
  destruct (select_case _ choice) as [[]|]; simpl; [| |intros [= <- <-]; auto|discriminate].
  - destruct (head (resultChan jb)) as [[r|l]|]; simpl; [| |discriminate];
      intros [= <- <-]; [simpl; now rewrite length_insert|].
    destruct put_back; simpl; now rewrite length_insert.
  - destruct (head (errChan jb)); simpl; [|discriminate].
    intros [= <- <-]. simpl. now rewrite length_insert.
Qed.

Lemma queue_ok_invariant : invariant queue_ok.
Proof.
  intros l s s' Hs.
  destruct l as [r c|p d t c|j pb c|w c pk|w qo now c|j| | |]; simpl.
  - unfold ServeHTTP_submit. destruct (String.eqb _ _); [intros [= <-]; exact Hs|].
    destruct (select_case _ c) as [[]|] eqn:Hsel; try (intros [= <-]; exact Hs).
    destruct (send_job _ _ s) as [[j s1]|] eqn:E; [|discriminate].
    intros [= <-]. eapply send_job_queue; eauto.
    apply (select_send_ready (A := unit)) in Hsel; [exact Hsel|].
    destruct (req_ctx_done r); simpl; [|apply not_elem_of_nil].
    intros H. apply list_elem_of_singleton in H. discriminate.
  - unfold HandleRequest_submit.
    destruct (select_case _ c) as [[]|] eqn:Hsel; try (intros [= <-]; exact Hs).
    destruct (send_job _ _ s) as [[j s1]|] eqn:E; [|discriminate].
    intros [= <-]. eapply send_job_queue; eauto.
    apply (select_send_ready (A := unit)) in Hsel; [exact Hsel|].
    intros H. apply elem_of_app in H.
    destruct H as [H|H]; [destruct (bool_decide _)|destruct t]; simpl in H;
      try (apply list_elem_of_singleton in H; discriminate);
      inversion H.
  - destruct (await j pb c s) as [[d s1]|] eqn:E; intros [= <-]; [|exact Hs].
    pose proof (await_frame _ _ _ _ _ _ E) as (_ & Hq & Hsz & _).
    eapply queue_ok_frame; eauto. eapply await_jobs; eauto.
  - intros [= <-]. unfold worker_step.
    destruct (workers s !! w) as [[| |j|j c0|]|] eqn:Hw; try exact Hs.
    + destruct (select_case _ c) as [[]|]; try exact Hs.
      destruct (jobQueue s) as [|j rest] eqn:Hq; [exact Hs|].
      destruct (begin_job_frame w j pk (set_jobQueue rest s)) as (H1 & H2 & H3 & _).
      eapply queue_ok_frame; [exact H1|exact H3|now rewrite H2|].
      eapply queue_ok_tail; eauto.
    + destruct (begin_job_frame w j pk s) as (H1 & H2 & H3 & _).
      eapply queue_ok_frame; [exact H1|exact H3|now rewrite H2|exact Hs].
  - intros [= <-].
    destruct (finish_job_workers w qo now c s) as (_ & Hq & Hsz & _).
    eapply queue_ok_frame; eauto. apply finish_job_jobs.
  - intros [= <-]. eapply queue_ok_frame; [| | |exact Hs]; try reflexivity.
    unfold cancel_request. simpl. apply length_alter.
  - unfold Shutdown_close. destruct (queue_closed s); [discriminate|].
    intros [= <-]. exact Hs.
  - intros [= <-]. exact Hs.
  - intros [= <-]. unfold waiter_step. destruct (forallb _ _); exact Hs.
Qed.

Lemma queue_ok_reachable (optimized : bool) (config : WorkerPoolConfig)
    (s0 : state) (ls : list label) (s : state) :
  NewHandler optimized config = Ok s0 -> exec ls s0 = Ok s ->
  queue_ok s /\ queueSize s = QueueSize config /\ 0 <= QueueSize config.
Proof.
  intros Hnew Hexec.
  pose proof (NewHandler_init _ _ _ Hnew) as (_ & _ & _ & Hsz0 & Hpos).
  split; [|split; [|exact Hpos]].
  - eapply (exec_invariant _ queue_ok_invariant); [|exact Hexec].
    unfold NewHandler in Hnew. destruct (_ <? _); [discriminate|].
    injection Hnew as <-. unfold queue_ok. simpl.
    split; [lia|]. split; constructor.
  - eapply (exec_invariant _ (queueSize_invariant (QueueSize config))); eauto.
Qed.

(** X16: in every state either pool handler reaches, the job queue holds
    at most [QueueSize] jobs, and [GetStats] reports [QueueSize] as the
    capacity. *)
Theorem queue_never_exceeds_capacity (optimized : bool)
    (config : WorkerPoolConfig) (s0 : state) (ls : list label) (s : state) :
  NewHandler optimized config = Ok s0 -> exec ls s0 = Ok s ->
  Z.of_nat (length (jobQueue s)) <= QueueSize config
  /\ (GetStats s).2 = QueueSize config.
Proof.
  intros Hnew Hexec.
  destruct (queue_ok_reachable _ _ _ _ _ Hnew Hexec) as ((Hlen & _) & Hsz & Hpos).
  unfold GetStats. simpl. split; [lia|exact Hsz].
Qed.

(** X17: the jobs wait in the queue in the order of their submission (a
    job's identifier is its rank among the submissions), and a worker that
    moves either leaves the queue as it is or takes its head, the job that
    has waited longest. *)
Theorem queue_is_fifo (optimized : bool) (config : WorkerPoolConfig)
    (s0 : state) (ls : list label) (s : state) :
  NewHandler optimized config = Ok s0 -> exec ls s0 = Ok s ->
  StronglySorted lt (jobQueue s)
  /\ (forall j, j ∈ jobQueue s -> is_Some (jobs s !! j))
  /\ (forall w choice pick,
        jobQueue (worker_step w choice pick s) = jobQueue s
        \/ exists j,
             jobQueue s = j :: jobQueue (worker_step w choice pick s)
             /\ holds_job <$> workers (worker_step w choice pick s) !! w
                = Some (Some j)
             /\ Forall (lt j) (jobQueue (worker_step w choice pick s))).
Proof.
  intros Hnew Hexec.
  destruct (queue_ok_reachable _ _ _ _ _ Hnew Hexec) as ((_ & Hs & Hall) & _).
  split; [exact Hs|]. split.
  - intros j Hj. rewrite Forall_forall in Hall.
    apply lookup_lt_is_Some. apply Hall. exact Hj.
  - intros w choice pick. unfold worker_step.
    destruct (workers s !! w) as [[| |j|j c0|]|] eqn:Hw; auto.
    + destruct (select_case _ choice) as [[]|]; auto.
      destruct (jobQueue s) as [|j rest] eqn:Hq; auto.
      right. exists j.
      assert (Hlt : (w < length (workers s))%nat)
        by (eapply lookup_lt_Some, Hw).
      apply StronglySorted_inv in Hs. destruct Hs as [_ Hj].
      unfold begin_job. simpl. destruct (pool s) as [h|]; simpl.
      * destruct (Optimized.getResponse pick h) as [l h']. simpl.
        rewrite list_lookup_insert_eq by exact Hlt. auto.
      * rewrite list_lookup_insert_eq by exact Hlt. auto.
    + left. now destruct (begin_job_frame w j pick s) as (-> & _).
Qed.

Lemma step_closed (l : label) (s s' : state) :
  step l s = Ok s' -> l <> LShutdownClose ->
  queue_closed s' = queue_closed s.
Proof.
  intros Hstep Hl.
  destruct l as [r c|p d t c|j pb c|w c pk|w qo now c|j| | |]; simpl in Hstep.
  - unfold ServeHTTP_submit in Hstep.
    destruct (String.eqb _ _); [now injection Hstep as <-|].
    destruct (select_case _ c) as [[]|]; try (now injection Hstep as <-).
    destruct (send_job _ _ s) as [[j s1]|] eqn:E; [|discriminate].
    injection Hstep as <-. apply send_job_inv in E.
    now destruct E as (_ & _ & _ & _ & -> & _).
  - unfold HandleRequest_submit in Hstep.
    destruct (select_case _ c) as [[]|]; try (now injection Hstep as <-).
    destruct (send_job _ _ s) as [[j s1]|] eqn:E; [|discriminate].
    injection Hstep as <-. apply send_job_inv in E.
    now destruct E as (_ & _ & _ & _ & -> & _).
  - destruct (await j pb c s) as [[d s1]|] eqn:E; injection Hstep as <-;
      [|reflexivity].
    apply await_frame in E. now destruct E as (_ & _ & _ & -> & _).
  - injection Hstep as <-. now destruct (worker_step_frame w c pk s).
  - injection Hstep as <-.
    now destruct (finish_job_workers w qo now c s) as (_ & _ & _ & -> & _).
  - now injection Hstep as <-.
  - contradiction.
  - now injection Hstep as <-.
  - injection Hstep as <-. unfold waiter_step. now destruct (forallb _ _).
Qed.

Lemma exec_closed (ls : list label) (s s' : state) :
  exec ls s = Ok s' ->
  (queue_closed s = true -> (LShutdownClose ∉ ls) /\ queue_closed s' = true)
  /\ (queue_closed s = false ->
      (queue_closed s' = true <-> LShutdownClose ∈ ls)).
Proof.
  revert s. induction ls as [|l ls IH]; intros s; simpl.
  - intros [= <-]. split.
    + intros H. split; [apply not_elem_of_nil|exact H].
    + intros H. rewrite H. split; [discriminate|]. intros Hin. inversion Hin.
  - destruct (step l s) as [s1|] eqn:E; [|discriminate]. intros Hexec.
    destruct (IH s1 Hexec) as [IHt IHf].
    assert (Hl : l = LShutdownClose \/ l <> LShutdownClose)
      by (destruct l; (now left) || (right; discriminate)).
    destruct Hl as [->|Hne].
    + simpl in E. unfold Shutdown_close in E.
      destruct (queue_closed s) eqn:Hc; [discriminate|].
      injection E as <-. split; [discriminate|]. intros _.
      destruct IHt as [_ ->]; [reflexivity|]. split; [|reflexivity].
      intros _. now left.
    + rewrite <- (step_closed _ _ _ E Hne). split.
      * intros Hc. destruct (IHt Hc) as [Hnot ->]. split; [|reflexivity].
        intros Hin. apply elem_of_cons in Hin. destruct Hin; congruence.
      * intros Hc. rewrite (IHf Hc). split; [now right|].
        intros Hin. apply elem_of_cons in Hin. destruct Hin; congruence.
Qed.

(** X18: the job queue is closed exactly when [Shutdown] has closed it,
    and from then on a further [Shutdown] panics on closing the closed
    channel: no run closes the queue twice. *)
Theorem shutdown_not_repeatable (optimized : bool) (config : WorkerPoolConfig)
    (s0 : state) (ls : list label) (s : state) :
  NewHandler optimized config = Ok s0 -> exec ls s0 = Ok s ->
  (queue_closed s = true <-> LShutdownClose ∈ ls)
  /\ (LShutdownClose ∈ ls ->
      Shutdown_close s = Panic "close of closed channel"
      /\ forall ls' s', exec ls' s = Ok s' -> LShutdownClose ∉ ls').
Proof.
  intros Hnew Hexec.
  assert (H0 : queue_closed s0 = false).
  { unfold NewHandler in Hnew. destruct (_ <? _); [discriminate|].
    now injection Hnew as <-. }
  destruct (exec_closed ls s0 s Hexec) as [_ Hf]. specialize (Hf H0).
  split; [exact Hf|]. intros Hin. apply Hf in Hin. split.
  - unfold Shutdown_close. now rewrite Hin.
  - intros ls' s' Hexec'.
    destruct (exec_closed ls' s s' Hexec') as [Ht _]. now apply Ht.
Qed.

End PoolQueue.

Section Stranded.
Import Go Models Pool PoolInvariants.

Lemma all_exited_worker_step (w : worker_id) (c : nat) (pk : option nat)
    (s : state) :
  forallb exited (workers s) = true -> worker_step w c pk s = s.
Proof.
  intros Hall. unfold worker_step.
  destruct (workers s !! w) as [x|] eqn:Hw; [|reflexivity].
  apply (forallb_exited_lookup _ _ _ Hall) in Hw. now subst x.
Qed.

Lemma all_exited_finish_job (w : worker_id) (qo : Simulator.query_outcome)
    (now : Metrics.Time) (c : nat) (s : state) :
  forallb exited (workers s) = true -> finish_job w qo now c s = s.
Proof.
  intros Hall. unfold finish_job.
  destruct (workers s !! w) as [x|] eqn:Hw; [|reflexivity].
  apply (forallb_exited_lookup _ _ _ Hall) in Hw. now subst x.
Qed.

Lemma await_stranded (j : job_id) (done : bool) (pb : bool) (c : nat)
    (s : state) :
  stranded j done s ->
  await j pb c s = if done then Some (GotCancelled, s) else None.
Proof.
  intros (_ & jb & Hj & Hr & He & Hd). unfold await.
  rewrite Hj. cbn [mbind option_bind]. rewrite Hr, He, Hd.
  cbn [nonempty when app]. destruct done; cbn [when app]; [|reflexivity].
  rewrite select_case_singleton. reflexivity.
Qed.

Lemma await_other (j j' : job_id) (pb : bool) (c : nat) (s s' : state)
    (d : delivered) :
  await j' pb c s = Some (d, s') -> j <> j' ->
  jobs s' !! j = jobs s !! j.
Proof.
  unfold await. intros E Hne.
  destruct (jobs s !! j') as [jb|]; simpl in E; [|discriminate].
  destruct (select_case _ c) as [[]|]; simpl in E; try discriminate.
  - destruct (head (resultChan jb)) as [[r|l]|]; simpl in E;
      [| |discriminate]; injection E as _ <-.
    + simpl. now rewrite list_lookup_insert_ne by congruence.
    + destruct pb; simpl; now rewrite list_lookup_insert_ne by congruence.
  - destruct (head (errChan jb)); simpl in E; [|discriminate].
    injection E as _ <-. simpl. now rewrite list_lookup_insert_ne by congruence.
  - now injection E as _ <-.
Qed.

Lemma step_stranded (l : label) (j : job_id) (done : bool) (s s' : state) :
  step l s = Ok s' -> stranded j done s ->
  stranded j (done || cancels j l) s'.
Proof.
  unfold cancels.
  intros Hstep Hs. pose proof Hs as (Hall & jb & Hj & Hr & He & Hd).
  assert (Hsame : forall s1, workers s1 = workers s ->
            jobs s1 !! j = jobs s !! j -> stranded j (done || false) s1).
  { intros s1 Hw Hjs. rewrite orb_false_r. unfold stranded.
    rewrite Hw, Hjs. eauto 10. }
  destruct l as [r c|p d t c|j' pb c|w c pk|w qo now c|j'| | |];
    simpl in Hstep.
  - unfold ServeHTTP_submit in Hstep.
    destruct (String.eqb _ _); [injection Hstep as <-; now apply Hsame|].
    destruct (select_case _ c) as [[]|];
      try (injection Hstep as <-; now apply Hsame).
    destruct (send_job _ _ s) as [[j1 s1]|] eqn:E; [|discriminate].
    injection Hstep as <-. apply Hsame.
    + eapply send_job_all_exited; eauto.
    + apply send_job_inv in E. destruct E as (_ & _ & -> & _).
      apply lookup_app_l. eapply lookup_lt_Some, Hj.
  - unfold HandleRequest_submit in Hstep.
    destruct (select_case _ c) as [[]|];
      try (injection Hstep as <-; now apply Hsame).
    destruct (send_job _ _ s) as [[j1 s1]|] eqn:E; [|discriminate].
    injection Hstep as <-. apply Hsame.
    + eapply send_job_all_exited; eauto.
    + apply send_job_inv in E. destruct E as (_ & _ & -> & _).
      apply lookup_app_l. eapply lookup_lt_Some, Hj.
  - destruct (decide (j' = j)) as [->|Hne].
    + rewrite (await_stranded j done pb c s Hs) in Hstep.
      destruct done; injection Hstep as <-; now apply Hsame.
    + destruct (await j' pb c s) as [[d s1]|] eqn:E; injection Hstep as <-;
        [|now apply Hsame].
      apply Hsame.
      * now apply await_frame in E.
      * eapply await_other; eauto.
  - injection Hstep as <-. rewrite all_exited_worker_step by exact Hall.
    now apply Hsame.
  - injection Hstep as <-. rewrite all_exited_finish_job by exact Hall.
    now apply Hsame.
  - injection Hstep as <-. unfold stranded, cancel_request. simpl.
    split; [exact Hall|].
    destruct (decide (j' = j)) as [->|Hne].
    + rewrite bool_decide_eq_true_2 by reflexivity. rewrite orb_true_r.
      rewrite list_lookup_alter_eq, Hj. simpl. eauto 10.
    + rewrite bool_decide_eq_false_2 by exact Hne. rewrite orb_false_r.
      rewrite list_lookup_alter_ne by exact Hne. eauto 10.
  - unfold Shutdown_close in Hstep. destruct (queue_closed s); [discriminate|].
    injection Hstep as <-. rewrite orb_false_r. unfold stranded. simpl.
    rewrite forallb_exited_wake. eauto 10.
  - injection Hstep as <-. rewrite orb_false_r. unfold stranded. simpl.
    rewrite forallb_exited_wake. eauto 10.
  - injection Hstep as <-. unfold waiter_step.
    destruct (forallb _ _); now apply Hsame.
Qed.

Lemma exec_stranded (ls : list label) (j : job_id) (done : bool)
    (s s' : state) :
  exec ls s = Ok s' -> stranded j done s ->
  stranded j (done || existsb (cancels j) ls) s'.
Proof.
  revert s done. induction ls as [|l ls IH]; intros s done; simpl.
  - intros [= <-] Hs. now rewrite orb_false_r.
  - destruct (step l s) as [s1|] eqn:E; [|discriminate]. intros Hexec Hs.
    pose proof (step_stranded _ _ _ _ _ E Hs) as H1.
    pose proof (IH _ _ Hexec H1) as H2.
    now rewrite orb_assoc.
Qed.

(** X19: once every worker has returned while the conduit of a job is
    empty, that job is never answered: in every later state its submitter's
    wait has nothing to receive, and ends only, with the cancellation, when
    the submitter's own context is done; the workers stay returned. *)
Theorem stranded_job_never_answered (j : job_id) (done : bool)
    (s : state) (ls : list label) (s' : state) (put_back : bool)
    (choice : nat) :
  stranded j done s -> exec ls s = Ok s' ->
  await j put_back choice s'
  = (if done || existsb (cancels j) ls then Some (GotCancelled, s') else None)
  /\ forallb exited (workers s') = true.
Proof.
  intros Hs Hexec. pose proof (exec_stranded _ _ _ _ _ Hexec Hs) as H.
  split; [now apply await_stranded|apply H].
Qed.

Lemma state_one_stranded_eq :
  exec one_stranded pool_1_1 = Ok state_one_stranded.
Proof. vm_compute. reflexivity. Qed.

Lemma stranded_job_never_answered_witness :
  NewWorkerPoolHandler (mkConfig 1 1) = Ok pool_1_1
  /\ exec one_stranded pool_1_1 = Ok state_one_stranded
  /\ jobQueue state_one_stranded = [0%nat]
  /\ await 0 false 0 state_one_stranded = None
  /\ forallb exited (workers state_one_stranded) = true.
Proof.
  split; [exact pool_1_1_eq|]. split; [exact state_one_stranded_eq|].
  split; [reflexivity|].
  apply (stranded_job_never_answered 0%nat false state_one_stranded []
           state_one_stranded false 0%nat).
  - split; [reflexivity|]. eexists. split; [reflexivity|]. auto.
  - reflexivity.
Defined.

End Stranded.

Section PoolCounters.
Import Go Models Pool PoolInvariants.

Lemma getResponse_count (pick : option nat) (h : Optimized.handler) (k : Z) :
  k < Int64.max_int ->
  Optimized.poolMisses h = Z.of_nat (Optimized.next_loc h) ->
  Optimized.poolMisses h <= Optimized.poolHits h <= k ->
  let h' := (Optimized.getResponse pick h).2 in
  Optimized.poolMisses h' = Z.of_nat (Optimized.next_loc h')
  /\ Optimized.poolMisses h' <= Optimized.poolHits h' <= k + 1.
Proof.
  intros Hk Hm Hh. unfold Optimized.getResponse.
  assert (Hw : forall x, 0 <= x <= k -> Int64.add x 1 = x + 1).
  { intros x Hx. unfold Int64.add. apply wrap_small.
    unfold Int64.min_int, Int64.max_int in *. lia. }
  destruct (pool_Get_cases pick h) as [E | (i & l & Hl & E)]; rewrite E.
  - unfold Optimized.pool_New. simpl. rewrite !Hw by lia. lia.
  - simpl. rewrite !Hw by lia. lia.
Qed.

Lemma counters_ok_frame (k : Z) (s s' : state) :
  (forall h', pool s' = Some h' ->
     exists h, pool s = Some h
       /\ Optimized.poolMisses h' = Optimized.poolMisses h
       /\ Optimized.poolHits h' = Optimized.poolHits h
       /\ Optimized.next_loc h' = Optimized.next_loc h) ->
  counters_ok k s -> counters_ok (k + 1) s'.
Proof.
  intros Hf Hs h' Hh'. destruct (Hf h' Hh') as (h & Hh & -> & -> & ->).
  destruct (Hs h Hh). lia.
Qed.

Lemma counters_ok_same (k : Z) (s s' : state) :
  pool s' = pool s -> counters_ok k s -> counters_ok (k + 1) s'.
Proof.
  intros Hp. apply counters_ok_frame. intros h' Hh'. exists h'.
  rewrite <- Hp. auto.
Qed.

Lemma begin_job_counters (k : Z) (w : worker_id) (j : job_id)
    (pick : option nat) (s : state) :
  k < Int64.max_int -> counters_ok k s ->
  counters_ok (k + 1) (begin_job w j pick s).
Proof.
  intros Hk Hs h' Hh'. unfold begin_job in Hh'. simpl in Hh'.
  destruct (pool s) as [h|] eqn:Hp; simpl in Hh'.
  - destruct (Hs h Hp) as [Hm Hh].
    pose proof (getResponse_count pick h k Hk Hm Hh) as H.
    destruct (Optimized.getResponse pick h) as [l h1]. simpl in *.
    injection Hh' as <-. exact H.
  - congruence.
Qed.

Ltac same :=
  match goal with
  | Hs : counters_ok ?k ?s |- counters_ok _ _ =>
      apply (counters_ok_same k s); [first [reflexivity | assumption]|exact Hs]
  end.

Lemma step_counters (k : Z) (l : label) (s s' : state) :
  k < Int64.max_int -> step l s = Ok s' ->
  counters_ok k s -> counters_ok (k + 1) s'.
Proof.
  intros Hk Hstep Hs.
  destruct l as [r c|p d t c|j pb c|w c pk|w qo now c|j| | |]; simpl in Hstep.
  - unfold ServeHTTP_submit in Hstep.
    destruct (String.eqb _ _); [injection Hstep as <-; same|].
    destruct (select_case _ c) as [[]|];
      try (injection Hstep as <-; same).
    destruct (send_job _ _ s) as [[j s1]|] eqn:E; [|discriminate].
    injection Hstep as <-. apply send_job_inv in E.
    destruct E as (_ & _ & _ & _ & _ & _ & _ & Hp & _).
    same.
  - unfold HandleRequest_submit in Hstep.
    destruct (select_case _ c) as [[]|];
      try (injection Hstep as <-; same).
    destruct (send_job _ _ s) as [[j s1]|] eqn:E; [|discriminate].
    injection Hstep as <-. apply send_job_inv in E.
    destruct E as (_ & _ & _ & _ & _ & _ & _ & Hp & _).
    same.
  - destruct (await j pb c s) as [[d s1]|] eqn:E; injection Hstep as <-;
      [|same].
    unfold await in E.
    destruct (jobs s !! j) as [jb|]; simpl in E; [|discriminate].
    destruct (select_case _ c) as [[]|]; simpl in E; try discriminate.
    + destruct (head (resultChan jb)) as [[r|l]|]; simpl in E;
        [| |discriminate]; injection E as _ <-;
        [same|].
      destruct pb; [|same].
      eapply counters_ok_frame; [|exact Hs]. unfold on_pool. simpl.
      intros h' Hh'. destruct (pool s) as [h|]; [|discriminate].
      injection Hh' as <-. exists h. auto.
    + destruct (head (errChan jb)); simpl in E; [|discriminate].
      injection E as _ <-. same.
    + injection E as _ <-. same.
  - injection Hstep as <-. unfold worker_step.
    destruct (workers s !! w) as [[| |j|j c0|]|];
      try (same).
    + destruct (select_case _ c) as [[]|]; try (same).
      destruct (jobQueue s) as [|j rest]; [same|].
      apply begin_job_counters; [exact Hk|]. exact Hs.
    + now apply begin_job_counters.
  - injection Hstep as <-. unfold finish_job.
    destruct (workers s !! w) as [[| |j|j c0|]|];
      try (same).
    destruct (jobs s !! j) as [jb|]; [|same].
    destruct qo as [p|err];
      destruct (select_case _ c) as [[]|]; try (same);
      destruct c0 as [l|]; try (same);
      (eapply counters_ok_frame; [|exact Hs]); unfold end_job, on_pool; simpl;
      intros h' Hh'; (destruct (pool s) as [h|]; [|discriminate]);
      injection Hh' as <-; exists h; auto.
  - injection Hstep as <-. same.
  - unfold Shutdown_close in Hstep. destruct (queue_closed s); [discriminate|].
    injection Hstep as <-. same.
  - injection Hstep as <-. same.
  - injection Hstep as <-. unfold waiter_step.
    destruct (forallb _ _); same.
Qed.

Lemma exec_counters (ls : list label) (k : Z) (s s' : state) :
  k + Z.of_nat (length ls) <= Int64.max_int -> exec ls s = Ok s' ->
  counters_ok k s -> counters_ok (k + Z.of_nat (length ls)) s'.
Proof.
  revert k s. induction ls as [|l ls IH]; intros k s Hk; simpl.
  - intros [= <-]. now rewrite Z.add_0_r.
  - destruct (step l s) as [s1|] eqn:E; [|discriminate]. intros Hexec Hs.
    replace (k + Z.of_nat (S (length ls)))
      with (k + 1 + Z.of_nat (length ls)) by lia.
    apply (IH (k + 1) s1); [simpl in Hk; lia|exact Hexec|].
    eapply step_counters; eauto. simpl in Hk. lia.
Qed.

Lemma pool_present (ls : list label) (s s' : state) :
  exec ls s = Ok s' -> is_Some (pool s) -> is_Some (pool s').
Proof.
  revert s. induction ls as [|l ls IH]; intros s; simpl.
  - now intros [= <-].
  - destruct (step l s) as [s1|] eqn:E; [|discriminate]. intros Hexec Hp.
    apply (IH s1 Hexec). clear IH Hexec.
    destruct l as [r c|p d t c|j pb c|w c pk|w qo now c|j| | |]; simpl in E.
    + unfold ServeHTTP_submit in E.
      destruct (String.eqb _ _); [now injection E as <-|].
      destruct (select_case _ c) as [[]|]; try (now injection E as <-).
      destruct (send_job _ _ s) as [[j s2]|] eqn:E2; [|discriminate].
      injection E as <-. apply send_job_inv in E2.
      destruct E2 as (_ & _ & _ & _ & _ & _ & _ & -> & _). exact Hp.
    + unfold HandleRequest_submit in E.
      destruct (select_case _ c) as [[]|]; try (now injection E as <-).
      destruct (send_job _ _ s) as [[j s2]|] eqn:E2; [|discriminate].
      injection E as <-. apply send_job_inv in E2.
      destruct E2 as (_ & _ & _ & _ & _ & _ & _ & -> & _). exact Hp.
    + destruct (await j pb c s) as [[d s2]|] eqn:E2; injection E as <-;
        [|exact Hp].
      unfold await in E2.
      destruct (jobs s !! j) as [jb|]; simpl in E2; [|discriminate].
      destruct (select_case _ c) as [[]|]; simpl in E2; try discriminate.
      * destruct (head (resultChan jb)) as [[r|l]|]; simpl in E2;
          [| |discriminate]; injection E2 as _ <-; [exact Hp|].
        destruct pb; [|exact Hp]. unfold on_pool. simpl.
        destruct Hp as [h ->]. now eexists.
      * destruct (head (errChan jb)); simpl in E2; [|discriminate].
        injection E2 as _ <-. exact Hp.
      * injection E2 as _ <-. exact Hp.
    + injection E as <-. unfold worker_step.
      assert (Hb : forall j s2, pool s2 = pool s ->
                is_Some (pool (begin_job w j pk s2))).
      { intros j s2 Hp2. unfold begin_job. simpl. rewrite Hp2.
        destruct Hp as [h ->].
        destruct (Optimized.getResponse pk h). simpl. now eexists. }
      destruct (workers s !! w) as [[| |j|j c0|]|]; try exact Hp.
      * destruct (select_case _ c) as [[]|]; try exact Hp.
        destruct (jobQueue s) as [|j rest]; [exact Hp|]. now apply Hb.
      * now apply Hb.
    + injection E as <-. unfold finish_job.
      destruct (workers s !! w) as [[| |j|j c0|]|]; try exact Hp.
      destruct (jobs s !! j) as [jb|]; [|exact Hp].
      destruct Hp as [h Hh].
      destruct qo as [p|err];
        destruct (select_case _ c) as [[]|]; try (rewrite Hh; now eexists);
        destruct c0 as [l|]; unfold end_job, on_pool; simpl;
        rewrite Hh; now eexists.
    + now injection E as <-.
    + unfold Shutdown_close in E. destruct (queue_closed s); [discriminate|].
      now injection E as <-.
    + now injection E as <-.
    + injection E as <-. unfold waiter_step. now destruct (forallb _ _).
Qed.

(** X20: after any run of the optimized handler (fewer than 2^63 steps),
    [poolMisses] is the number of containers ever allocated, and it is at
    most [poolHits], which is at most the number of steps. *)
Theorem pool_counters (config : WorkerPoolConfig) (s0 : state)
    (ls : list label) (s : state) :
  Z.of_nat (length ls) <= Int64.max_int ->
  NewOptimizedHandler config = Ok s0 -> exec ls s0 = Ok s ->
  exists h,
    pool s = Some h
    /\ (Optimized.GetPoolStats h).2 = Z.of_nat (Optimized.next_loc h)
    /\ (Optimized.GetPoolStats h).2 <= (Optimized.GetPoolStats h).1
       <= Z.of_nat (length ls).
Proof.
  intros Hlen Hnew Hexec.
  assert (Hp0 : pool s0 = Some Optimized.NewOptimizedHandler).
  { unfold NewOptimizedHandler, NewHandler in Hnew.
    destruct (_ <? _); [discriminate|]. now injection Hnew as <-. }
  destruct (pool_present ls s0 s Hexec) as [h Hh]; [rewrite Hp0; now eexists|].
  exists h. split; [exact Hh|].
  assert (H0 : counters_ok 0 s0).
  { intros h0 Hh0. rewrite Hp0 in Hh0. injection Hh0 as <-. simpl. lia. }
  pose proof (exec_counters ls 0 s0 s ltac:(lia) Hexec H0 h Hh) as [H1 H2].
  unfold Optimized.GetPoolStats. simpl. split; [exact H1|lia].
Qed.

Lemma opt_1_1_eq : NewOptimizedHandler (mkConfig 1 1) = Ok opt_1_1.
Proof. vm_compute. reflexivity. Qed.

Lemma state_two_served_eq : exec two_served opt_1_1 = Ok state_two_served.
Proof. vm_compute. reflexivity. Qed.

Lemma pool_counters_witness :
  exists h,
    pool state_two_served = Some h
    /\ (Optimized.GetPoolStats h).2 = Z.of_nat (Optimized.next_loc h)
    /\ (Optimized.GetPoolStats h).2 <= (Optimized.GetPoolStats h).1
       <= Z.of_nat (length two_served).
Proof.
  apply (pool_counters (mkConfig 1 1) opt_1_1 two_served state_two_served).
  - vm_compute. discriminate.
  - exact opt_1_1_eq.
  - exact state_two_served_eq.
Defined.

End PoolCounters.

Section Containers.
Import Go Models Pool PoolInvariants.

Lemma omap_insert_perm {A B : Type} (f : A -> option B) (ws : list A)
    (w : nat) (x y : A) :
  ws !! w = Some x ->
  exists rest,
    omap f ws ≡ₚ option_list (f x) ++ rest
    /\ omap f (<[w := y]> ws) ≡ₚ option_list (f y) ++ rest.
Proof.
  intros Hw.
  exists (omap f (take w ws) ++ omap f (drop (S w) ws)).
  assert (Hlt : (w < length ws)%nat) by (eapply lookup_lt_Some, Hw).
  rewrite insert_take_drop by exact Hlt.
  rewrite <- (take_drop_middle ws w x Hw) at 1.
  rewrite !omap_app. simpl. split.
  - destruct (f x); simpl; [|reflexivity].
    now rewrite <- Permutation_middle.
  - destruct (f y); simpl; [|reflexivity].
    now rewrite <- Permutation_middle.
Qed.

Lemma bind_insert_perm {A B : Type} (g : A -> list B) (js : list A)
    (j : nat) (x y : A) :
  js !! j = Some x ->
  exists rest,
    js ≫= g ≡ₚ g x ++ rest /\ <[j := y]> js ≫= g ≡ₚ g y ++ rest.
Proof.
  intros Hj.
  exists ((take j js ≫= g) ++ (drop (S j) js ≫= g)).
  assert (Hlt : (j < length js)%nat) by (eapply lookup_lt_Some, Hj).
  rewrite insert_take_drop by exact Hlt.
  rewrite <- (take_drop_middle js j x Hj) at 1.
  rewrite !bind_app, !bind_cons. split.
  - rewrite !(assoc_L app). f_equiv. apply Permutation_app_comm.
  - rewrite !(assoc_L app). f_equiv. apply Permutation_app_comm.
Qed.

Lemma held_loc_wake (ws : list wstate) :
  omap held_loc (wake ws) = omap held_loc ws.
Proof.
  induction ws as [|x ws IH]; [reflexivity|].
  change (wake (x :: ws))
    with ((match x with WParked => WSelect | _ => x end) :: wake ws).
  destruct x; cbn -[wake]; rewrite IH; reflexivity.
Qed.


Lemma held_loc_insert_none (ws : list wstate) (w : worker_id) (x y : wstate) :
  ws !! w = Some x -> held_loc x = None -> held_loc y = None ->
  omap held_loc (<[w := y]> ws) ≡ₚ omap held_loc ws.
Proof.
  intros Hw Hx Hy.
  destruct (omap_insert_perm held_loc ws w x y Hw) as (R & P1 & P2).
  rewrite P1, P2, Hx, Hy. reflexivity.
Qed.

Lemma in_transit_alter (f : job -> job) (j : job_id) (js : list job) :
  (forall jb, resultChan (f jb) = resultChan jb) ->
  alter f j js ≫= (fun jb => omap chan_loc (resultChan jb))
  = js ≫= (fun jb => omap chan_loc (resultChan jb)).
Proof.
  intros Hf. revert j. induction js as [|jb js IH]; intros j; [reflexivity|].
  destruct j as [|j].
  - change (alter f 0%nat (jb :: js)) with (f jb :: js).
    now rewrite !bind_cons, Hf.
  - change (alter f (S j) (jb :: js)) with (jb :: alter f j js).
    now rewrite !bind_cons, IH.
Qed.

(** The containers in use shrink or stay, the idle ones stay. *)
Lemma containers_sub (s s' : state) (extra : list Optimized.loc) :
  (forall h', pool s' = Some h' ->
     exists h, pool s = Some h
       /\ Optimized.idle h' = Optimized.idle h
       /\ Optimized.next_loc h' = Optimized.next_loc h) ->
  in_use s ≡ₚ extra ++ in_use s' ->
  containers_ok s -> containers_ok s'.
Proof.
  intros Hp Hperm Hs h' Hh'. destruct (Hp h' Hh') as (h & Hh & -> & ->).
  destruct (Hs h Hh) as [Hnd Hall]. rewrite Hperm in Hnd, Hall.
  rewrite (Permutation_app_swap_app (Optimized.idle h) extra) in Hnd, Hall.
  apply NoDup_app in Hnd. apply Forall_app in Hall. split; [apply Hnd|apply Hall].
Qed.

(** A container in use goes back to the idle ones. *)
Lemma containers_put (s s' : state) (l : Optimized.loc) :
  (forall h', pool s' = Some h' ->
     exists h, pool s = Some h
       /\ Optimized.idle h' = Optimized.idle h ++ [l]
       /\ Optimized.next_loc h' = Optimized.next_loc h) ->
  in_use s ≡ₚ l :: in_use s' ->
  containers_ok s -> containers_ok s'.
Proof.
  intros Hp Hperm Hs h' Hh'. destruct (Hp h' Hh') as (h & Hh & -> & ->).
  destruct (Hs h Hh) as [Hnd Hall]. rewrite Hperm in Hnd, Hall.
  assert (E : (Optimized.idle h ++ [l]) ++ in_use s'
              ≡ₚ Optimized.idle h ++ l :: in_use s')
    by (now rewrite <- (assoc_L app)).
  rewrite E. split; assumption.
Qed.

(** An idle or a new container comes into use. *)
Lemma containers_get (s s' : state) (pick : option nat) (h : Optimized.handler) :
  pool s = Some h ->
  pool s' = Some (Optimized.getResponse pick h).2 ->
  in_use s' ≡ₚ (Optimized.getResponse pick h).1 :: in_use s ->
  containers_ok s -> containers_ok s'.
Proof.
  intros Hh Hp' Hperm Hs h' Hh'. rewrite Hp' in Hh'. injection Hh' as <-.
  destruct (Hs h Hh) as [Hnd Hall]. rewrite Hperm.
  unfold Optimized.getResponse.
  destruct (pool_Get_cases pick h) as [E | (i & l & Hl & E)]; rewrite E.
  - unfold Optimized.pool_New. cbn.
    rewrite <- Permutation_middle. split.
    + constructor; [|exact Hnd]. intros Hin.
      rewrite Forall_forall in Hall. specialize (Hall _ Hin). lia.
    + constructor; [lia|]. eapply Forall_impl; [exact Hall|]. simpl. lia.
  - cbn. rewrite <- Permutation_middle.
    assert (E2 : l :: delete i (Optimized.idle h) ≡ₚ Optimized.idle h)
      by (symmetry; now apply delete_Permutation).
    rewrite app_comm_cons, E2. split; assumption.
Qed.

Lemma held_replicate_loc (n : nat) :
  omap held_loc (replicate n WSelect) = [].
Proof. induction n as [|n IH]; [reflexivity|]. simpl. exact IH. Qed.

Lemma begin_job_containers (w : worker_id) (j : job_id) (pick : option nat)
    (s : state) (x : wstate) :
  workers s !! w = Some x -> held_loc x = None ->
  containers_ok s -> containers_ok (begin_job w j pick s).
Proof.
  intros Hw Hx Hs. unfold begin_job.
  cbn [pool set_queuedJobs set_activeJobs workers].
  destruct (pool s) as [h|] eqn:Hp.
  - destruct (Optimized.getResponse pick h) as [l h'] eqn:Eg.
    apply (containers_get s _ pick h Hp);
      [rewrite Eg; reflexivity | rewrite Eg | exact Hs].
    unfold in_use, in_transit.
    cbn [workers jobs set_pool set_workers set_queuedJobs set_activeJobs fst].
    destruct (omap_insert_perm held_loc (workers s) w x (WBusy j (Some l)) Hw)
      as (R & P1 & P2).
    rewrite P1, P2, Hx. reflexivity.
  - intros h' Hh'. cbn in Hh'. congruence.
Qed.

Ltac pool_step s :=
  let h' := fresh "h'" in
  let Hh' := fresh "Hh'" in
  let h := fresh "h" in
  intros h' Hh'; cbn in Hh';
  destruct (pool s) as [h|]; [|discriminate];
  injection Hh' as <-; exists h;
  split; [reflexivity|split; reflexivity].

Lemma containers_ok_invariant : invariant containers_ok.
Proof.
  intros l s s' Hs.
  assert (Hsame : forall s1, pool s1 = pool s -> in_use s1 ≡ₚ in_use s ->
            containers_ok s1).
  { intros s1 Hp Hu. apply (containers_sub s s1 []); [|now rewrite Hu|exact Hs].
    intros h' Hh'. exists h'. rewrite <- Hp. auto. }
  assert (Hsend : forall id done j s1, send_job id done s = Ok (j, s1) ->
            containers_ok s1).
  { intros id done j s1 E. apply send_job_inv in E.
    destruct E as (_ & _ & Hj & _ & _ & _ & _ & Hp & Hw).
    apply Hsame; [exact Hp|]. unfold in_use, in_transit. rewrite Hj.
    rewrite bind_app. cbn. rewrite app_nil_r.
    destruct Hw as [(w & Hpk & -> & _) | (_ & -> & _)]; [|reflexivity].
    apply find_parked_Some in Hpk.
    now rewrite (held_loc_insert_none _ _ _ _ Hpk). }
  destruct l as [r c|p d t c|j pb c|w c pk|w qo now c|j| | |]; simpl.
  - unfold ServeHTTP_submit. destruct (String.eqb _ _); [intros [= <-]; exact Hs|].
    destruct (select_case _ c) as [[]|]; try (intros [= <-]; exact Hs).
    destruct (send_job _ _ s) as [[j s1]|] eqn:E; [|discriminate].
    intros [= <-]. eapply Hsend; eauto.
  - unfold HandleRequest_submit.
    destruct (select_case _ c) as [[]|]; try (intros [= <-]; exact Hs).
    destruct (send_job _ _ s) as [[j s1]|] eqn:E; [|discriminate].
    intros [= <-]. eapply Hsend; eauto.
  - destruct (await j pb c s) as [[d s1]|] eqn:E; intros [= <-]; [|exact Hs].
    unfold await in E.
    destruct (jobs s !! j) as [jb|] eqn:Hj; simpl in E; [|discriminate].
    destruct (select_case _ c) as [[]|]; simpl in E; try discriminate.
    + destruct (resultChan jb) as [|r rc] eqn:Hrc; simpl in E; [discriminate|].
      injection E as _ <-.
      destruct (bind_insert_perm (fun jb => omap chan_loc (resultChan jb))
                  (jobs s) j jb
                  (mkJob (patientID jb) (ctx_done jb) rc (errChan jb)
                     (written jb)) Hj) as (RJ & Q1 & Q2).
      rewrite Hrc in Q1. cbn [resultChan] in Q2.
      destruct r as [r|l].
      * apply Hsame; [reflexivity|]. unfold in_use, in_transit.
        cbn [workers jobs set_jobs]. rewrite Q1, Q2. reflexivity.
      * destruct pb.
        -- apply (containers_put s _ l); [pool_step s| |exact Hs].
           unfold in_use, in_transit.
           cbn [workers jobs set_jobs on_pool set_pool].
           rewrite Q1, Q2. cbn [omap chan_loc]. solve_Permutation.
        -- apply (containers_sub s _ [l]); [pool_step s| |exact Hs].
           unfold in_use, in_transit. cbn [workers jobs set_jobs].
           rewrite Q1, Q2. cbn [omap chan_loc]. solve_Permutation.
    + destruct (head (errChan jb)) as [e|]; simpl in E; [|discriminate].
      injection E as _ <-.
      destruct (bind_insert_perm (fun jb => omap chan_loc (resultChan jb))
                  (jobs s) j jb
                  (mkJob (patientID jb) (ctx_done jb) (resultChan jb)
                     (tail (errChan jb)) (written jb)) Hj) as (RJ & Q1 & Q2).
      cbn [resultChan] in Q2.
      apply Hsame; [reflexivity|]. unfold in_use, in_transit.
      cbn [workers jobs set_jobs]. rewrite Q1, Q2. reflexivity.
    + injection E as _ <-. exact Hs.
  - intros [= <-]. unfold worker_step.
    destruct (workers s !! w) as [[| |j|j c0|]|] eqn:Hw; try exact Hs.
    + assert (Hplain : forall y, held_loc y = None ->
                containers_ok (set_workers (<[w := y]> (workers s)) s)).
      { intros y Hy. apply Hsame; [reflexivity|]. unfold in_use, in_transit.
        cbn [workers jobs set_workers].
        now rewrite (held_loc_insert_none _ _ _ _ Hw). }
      destruct (select_case _ c) as [[]|]; try (now apply Hplain).
      destruct (jobQueue s) as [|j rest]; [now apply Hplain|].
      apply (begin_job_containers w j pk _ WSelect); [exact Hw|reflexivity|].
      apply Hsame; reflexivity.
    + now apply (begin_job_containers w j pk s (WReceived j)).
  - intros [= <-]. unfold finish_job.
    destruct (workers s !! w) as [[| |j|j c0|]|] eqn:Hw; try exact Hs.
    destruct (jobs s !! j) as [jb|] eqn:Hj; [|exact Hs].
    destruct (omap_insert_perm held_loc (workers s) w (WBusy j c0) WSelect Hw)
      as (RW & P1 & P2).
    cbn [option_list held_loc app] in P2.
    destruct qo as [p|err];
      destruct (select_case _ c) as [[]|]; try exact Hs.
    + destruct (bind_insert_perm (fun jb => omap chan_loc (resultChan jb))
                  (jobs s) j jb
                  (push_result (match c0 with
                                | Some l => Pooled l
                                | None => Fresh (NewPatientResponse now p "")
                                end) jb) Hj) as (RJ & Q1 & Q2).
      cbn [resultChan push_result] in Q2. rewrite omap_app in Q2.
      destruct c0 as [l|].
      * apply (containers_sub s _ []); [pool_step s| |exact Hs].
        unfold in_use, in_transit.
        cbn [workers jobs end_job on_pool set_workers set_jobs set_pool
             set_activeJobs].
        rewrite P1, P2, Q1, Q2. cbn [omap chan_loc option_list held_loc].
        solve_Permutation.
      * apply Hsame; [reflexivity|]. unfold in_use, in_transit.
        cbn [workers jobs end_job set_workers set_jobs set_activeJobs].
        rewrite P1, P2, Q1, Q2. cbn [omap chan_loc option_list held_loc].
        solve_Permutation.
    + destruct c0 as [l|].
      * apply (containers_sub s _ [l]); [pool_step s| |exact Hs].
        unfold in_use, in_transit.
        cbn [workers jobs end_job on_pool set_workers set_jobs set_pool
             set_activeJobs].
        rewrite P1, P2. cbn [option_list held_loc]. solve_Permutation.
      * apply Hsame; [reflexivity|]. unfold in_use, in_transit.
        cbn [workers jobs end_job set_workers set_jobs set_activeJobs].
        rewrite P1, P2. reflexivity.
    + destruct (bind_insert_perm (fun jb => omap chan_loc (resultChan jb))
                  (jobs s) j jb (push_error err jb) Hj) as (RJ & Q1 & Q2).
      cbn [resultChan push_error] in Q2.
      destruct c0 as [l|].
      * apply (containers_put s _ l); [pool_step s| |exact Hs].
        unfold in_use, in_transit.
        cbn [workers jobs end_job on_pool set_workers set_jobs set_pool
             set_activeJobs].
        rewrite P1, P2, Q1, Q2. cbn [option_list held_loc]. solve_Permutation.
      * apply Hsame; [reflexivity|]. unfold in_use, in_transit.
        cbn [workers jobs end_job set_workers set_jobs set_activeJobs].
        rewrite P1, P2, Q1, Q2. reflexivity.
    + destruct c0 as [l|].
      * apply (containers_put s _ l); [pool_step s| |exact Hs].
        unfold in_use, in_transit.
        cbn [workers jobs end_job on_pool set_workers set_jobs set_pool
             set_activeJobs].
        rewrite P1, P2. cbn [option_list held_loc]. solve_Permutation.
      * apply Hsame; [reflexivity|]. unfold in_use, in_transit.
        cbn [workers jobs end_job set_workers set_jobs set_activeJobs].
        rewrite P1, P2. reflexivity.
  - intros [= <-]. apply Hsame; [reflexivity|].
    unfold in_use, in_transit, cancel_request. cbn [workers jobs set_jobs].
    now rewrite in_transit_alter.
  - unfold Shutdown_close. destruct (queue_closed s); [discriminate|].
    intros [= <-]. apply Hsame; [reflexivity|].
    unfold in_use, in_transit. cbn [workers jobs set_workers set_queue_closed].
    now rewrite held_loc_wake.
  - intros [= <-]. apply Hsame; [reflexivity|].
    unfold in_use, in_transit, Shutdown_cancel.
    cbn [workers jobs set_workers set_cancelled].
    now rewrite held_loc_wake.
  - intros [= <-]. unfold waiter_step. destruct (forallb _ _); exact Hs.
Qed.


Lemma omap_NoDup_unique {A B : Type} (f : A -> option B) (ws : list A)
    (w1 w2 : nat) (x1 x2 : A) (y : B) :
  NoDup (omap f ws) ->
  ws !! w1 = Some x1 -> ws !! w2 = Some x2 ->
  f x1 = Some y -> f x2 = Some y -> w1 = w2.
Proof.
  revert w1 w2. induction ws as [|x ws IH]; intros w1 w2 Hnd H1 H2 Hj1 Hj2.
  - rewrite lookup_nil in H1. discriminate.
  - assert (Htl : NoDup (omap f ws)).
    { simpl in Hnd. destruct (f x); [|exact Hnd].
      now apply NoDup_cons in Hnd. }
    assert (Hhd : forall w z, f x = Some y -> ws !! w = Some z ->
                    f z = Some y -> False).
    { intros w z Hx Hw Hz. simpl in Hnd. rewrite Hx in Hnd.
      apply NoDup_cons in Hnd. destruct Hnd as [Hnotin _]. apply Hnotin.
      apply list_elem_of_omap. exists z. split; [|exact Hz].
      eapply list_elem_of_lookup_2, Hw. }
    destruct w1 as [|w1], w2 as [|w2]; simpl in H1, H2.
    + reflexivity.
    + injection H1 as ->. exfalso. eauto.
    + injection H2 as ->. exfalso. eauto.
    + f_equal. eauto.
Qed.

(** X21: in every state the optimized handler reaches, no pooled container
    is at two places at once: idle in the pool, held by a worker, or in a
    result channel.  No two workers hold the same container, and a container
    held or on its way to a submitter is not idle. *)
Theorem pooled_containers_never_shared (optimized : bool)
    (config : WorkerPoolConfig) (s0 : state) (ls : list label) (s : state)
    (h : Optimized.handler) :
  NewHandler optimized config = Ok s0 -> exec ls s0 = Ok s ->
  pool s = Some h ->
  NoDup (Optimized.idle h ++ in_use s)
  /\ (forall w1 w2 j1 j2 l,
        workers s !! w1 = Some (WBusy j1 (Some l)) ->
        workers s !! w2 = Some (WBusy j2 (Some l)) -> w1 = w2)
  /\ (forall w j l,
        workers s !! w = Some (WBusy j (Some l)) ->
        (l ∉ Optimized.idle h)
        /\ forall j' jb, jobs s !! j' = Some jb -> Pooled l ∉ resultChan jb)
  /\ (forall j jb l,
        jobs s !! j = Some jb -> Pooled l ∈ resultChan jb ->
        l ∉ Optimized.idle h).
Proof.
  intros Hnew Hexec Hh.
  assert (H0 : containers_ok s0).
  { unfold NewHandler in Hnew. destruct (_ <? _); [discriminate|].
    injection Hnew as <-. intros h0 Hh0. cbn in Hh0.
    destruct optimized; [|discriminate]. injection Hh0 as <-.
    unfold in_use, in_transit. cbn. rewrite held_replicate_loc.
    split; constructor. }
  pose proof (exec_invariant _ containers_ok_invariant ls s0 s H0 Hexec h Hh)
    as [Hnd _].
  split; [exact Hnd|].
  apply NoDup_app in Hnd. destruct Hnd as (_ & Hidle & Hnd).
  unfold in_use in *. apply NoDup_app in Hnd.
  destruct Hnd as (Hw & Hwt & _).
  assert (Hheld : forall w j l, workers s !! w = Some (WBusy j (Some l)) ->
            l ∈ omap held_loc (workers s)).
  { intros w j l Hl. apply list_elem_of_omap. exists (WBusy j (Some l)).
    split; [eapply list_elem_of_lookup_2, Hl|reflexivity]. }
  assert (Htr : forall j jb l, jobs s !! j = Some jb ->
            Pooled l ∈ resultChan jb -> l ∈ in_transit s).
  { intros j jb l Hj Hl. unfold in_transit. apply list_elem_of_bind.
    exists jb. split; [|eapply list_elem_of_lookup_2, Hj].
    apply list_elem_of_omap. exists (Pooled l). split; [exact Hl|reflexivity]. }
  split; [|split].
  - intros w1 w2 j1 j2 l H1 H2.
    now apply (omap_NoDup_unique held_loc (workers s) w1 w2 _ _ l Hw H1 H2).
  - intros w j l Hl. split.
    + intros Hin. apply (Hidle l Hin). apply elem_of_app. left. eauto.
    + intros j' jb Hj Hin. apply (Hwt l); eauto.
  - intros j jb l Hj Hl Hin. apply (Hidle l Hin). apply elem_of_app. right.
    eauto.
Qed.

Lemma pooled_containers_never_shared_witness :
  exists h,
    pool state_two_served = Some h
    /\ NoDup (Optimized.idle h ++ in_use state_two_served).
Proof.
  eexists. split; [reflexivity|].
  refine (proj1 (pooled_containers_never_shared true (mkConfig 1 1) opt_1_1
                   two_served state_two_served _ opt_1_1_eq
                   state_two_served_eq _)).
  reflexivity.
Defined.

End Containers.

Section PoolWitnesses.
Import Go Models Pool PoolInvariants.

Lemma active_jobs_bounded_witness :
  Z.of_nat (length (workers state_one_in_flight))
  = Z.max 0 (Workers (mkConfig 1 1))
  /\ (GetStats state_one_in_flight).1.1
     = Z.of_nat (busy_workers state_one_in_flight)
  /\ 0 <= (GetStats state_one_in_flight).1.1
       <= Z.max 0 (Workers (mkConfig 1 1)).
Proof.
  apply (active_jobs_bounded false (mkConfig 1 1) pool_1_1 one_in_flight
           state_one_in_flight).
  - vm_compute. discriminate.
  - exact pool_1_1_eq.
  - exact state_one_in_flight_eq.
Defined.

Lemma queue_never_exceeds_capacity_witness :
  Z.of_nat (length (jobQueue state_one_queued)) <= QueueSize (mkConfig 1 1)
  /\ (GetStats state_one_queued).2 = QueueSize (mkConfig 1 1).
Proof.
  apply (queue_never_exceeds_capacity false (mkConfig 1 1) pool_1_1
           one_queued state_one_queued).
  - exact pool_1_1_eq.
  - exact state_one_queued_eq.
Defined.

Lemma queue_is_fifo_witness :
  StronglySorted lt (jobQueue state_one_queued)
  /\ (forall j, j ∈ jobQueue state_one_queued ->
        is_Some (jobs state_one_queued !! j))
  /\ (forall w choice pick,
        jobQueue (worker_step w choice pick state_one_queued)
        = jobQueue state_one_queued
        \/ exists j,
             jobQueue state_one_queued
             = j :: jobQueue (worker_step w choice pick state_one_queued)
             /\ holds_job
                  <$> workers (worker_step w choice pick state_one_queued) !! w
                = Some (Some j)
             /\ Forall (lt j)
                  (jobQueue (worker_step w choice pick state_one_queued))).
Proof.
  apply (queue_is_fifo false (mkConfig 1 1) pool_1_1 one_queued
           state_one_queued).
  - exact pool_1_1_eq.
  - exact state_one_queued_eq.
Defined.

Lemma shutdown_not_repeatable_witness :
  (queue_closed state_one_in_flight = true <-> LShutdownClose ∈ one_in_flight)
  /\ (LShutdownClose ∈ one_in_flight ->
      Shutdown_close state_one_in_flight = Panic "close of closed channel"
      /\ forall ls' s', exec ls' state_one_in_flight = Ok s' ->
           LShutdownClose ∉ ls').
Proof.
  apply (shutdown_not_repeatable false (mkConfig 1 1) pool_1_1 one_in_flight
           state_one_in_flight).
  - exact pool_1_1_eq.
  - exact state_one_in_flight_eq.
Defined.

End PoolWitnesses.

Section RoundTrip.
Import Go Models Pool PoolInvariants.

Lemma await_empty (j : job_id) (pb : bool) (c : nat) (s : state) (jb : job) :
  jobs s !! j = Some jb -> resultChan jb = [] -> errChan jb = [] ->
  ctx_done jb = false -> await j pb c s = None.
Proof.
  intros Hj Hr He Hd. unfold await. rewrite Hj. cbn [mbind option_bind].
  rewrite Hr, He, Hd. reflexivity.
Qed.

Lemma jobs_on_pool (f : Optimized.handler -> Optimized.handler) (s : state) :
  jobs (on_pool f s) = jobs s.
Proof. reflexivity. Qed.

Lemma await_result (j : job_id) (pb : bool) (c : nat) (s : state) (jb : job)
    (r : response_ref) :
  jobs s !! j = Some jb -> resultChan jb = [r] -> errChan jb = [] ->
  ctx_done jb = false ->
  exists s2, await j pb c s = Some (GotResult r, s2)
    /\ forall pb' c2, await j pb' c2 s2 = None.
Proof.
  intros Hj Hr He Hd. unfold await. rewrite Hj. cbn [mbind option_bind].
  rewrite Hr, He, Hd. cbn [nonempty when app].
  rewrite select_case_singleton. cbn [mbind option_bind head tail].
  eexists. split; [reflexivity|]. intros pb' c2.
  assert (Hlt : (j < length (jobs s))%nat) by (eapply lookup_lt_Some, Hj).
  eapply await_empty.
  - destruct r as [r|l]; [|destruct pb]; rewrite ?jobs_on_pool;
      cbn [jobs set_jobs]; now rewrite list_lookup_insert_eq.
  - reflexivity.
  - reflexivity.
  - reflexivity.
Qed.

Lemma await_error (j : job_id) (pb : bool) (c : nat) (s : state) (jb : job)
    (e : string) :
  jobs s !! j = Some jb -> resultChan jb = [] -> errChan jb = [e] ->
  ctx_done jb = false ->
  exists s2, await j pb c s = Some (GotError e, s2)
    /\ forall pb' c2, await j pb' c2 s2 = None.
Proof.
  intros Hj Hr He Hd. unfold await. rewrite Hj. cbn [mbind option_bind].
  rewrite Hr, He, Hd. cbn [nonempty when app].
  rewrite select_case_singleton. cbn [mbind option_bind head tail].
  eexists. split; [reflexivity|]. intros pb' c2.
  assert (Hlt : (j < length (jobs s))%nat) by (eapply lookup_lt_Some, Hj).
  eapply await_empty.
  - cbn [jobs set_jobs]. now rewrite list_lookup_insert_eq.
  - reflexivity.
  - reflexivity.
  - reflexivity.
Qed.

(** X22: when a worker's query returns for a job whose submitter has not
    given up, the worker delivers and is back at its [select]; the
    submitter's wait then receives exactly that outcome, the response or the
    error, and after it nothing more is to be received for the job. *)
Theorem served_job_delivered_once (optimized : bool)
    (config : WorkerPoolConfig) (s0 : state) (ls : list label) (s : state)
    (w : worker_id) (j : job_id) (c : option Optimized.loc) (jb : job)
    (qo : Simulator.query_outcome) (now : Metrics.Time) (choice : nat) :
  NewHandler optimized config = Ok s0 -> exec ls s0 = Ok s ->
  workers s !! w = Some (WBusy j c) -> jobs s !! j = Some jb ->
  ctx_done jb = false ->
  workers (finish_job w qo now choice s) !! w = Some WSelect
  /\ forall put_back c1,
       exists s2,
         await j put_back c1 (finish_job w qo now choice s)
         = Some (delivery c qo now, s2)
         /\ forall put_back' c2, await j put_back' c2 s2 = None.
Proof.
  intros Hnew Hexec Hw Hj Hd.
  assert (Hinv : conduits_ok s).
  { eapply (exec_invariant _ conduits_ok_invariant); [|exact Hexec].
    now apply (NewHandler_init _ _ _ Hnew). }
  assert (Hin : j ∈ in_flight s).
  { unfold in_flight. apply elem_of_app. right. apply list_elem_of_omap.
    exists (WBusy j c). split; [eapply list_elem_of_lookup_2, Hw|reflexivity]. }
  destruct Hinv as (_ & Hun & _).
  destruct (Hun j Hin) as (jb0 & Hjb0 & _ & Hr & He).
  assert (jb0 = jb) by congruence. subst jb0.
  assert (Hwl : (w < length (workers s))%nat) by (eapply lookup_lt_Some, Hw).
  assert (Hjl : (j < length (jobs s))%nat) by (eapply lookup_lt_Some, Hj).
  unfold finish_job. rewrite Hw, Hj, Hr, He, Hd.
  cbn [length Nat.ltb Nat.leb when app]. rewrite !select_case_singleton.
  assert (Hws : forall s1, workers (end_job w s1)
                         = <[w := WSelect]> (workers s1)) by reflexivity.
  destruct qo as [p|err]; unfold delivery; destruct c as [l|].
  - split.
    + rewrite Hws. cbn [workers on_pool set_pool set_jobs].
      now rewrite list_lookup_insert_eq.
    + intros pb c1.
      apply (await_result j pb c1 _ (push_result (Pooled l) jb)).
      * unfold end_job.
        cbn [jobs on_pool set_pool set_jobs set_activeJobs set_workers].
        now rewrite list_lookup_insert_eq.
      * cbn [resultChan push_result]. now rewrite Hr.
      * exact He.
      * exact Hd.
  - split.
    + rewrite Hws. cbn [workers on_pool set_pool set_jobs].
      now rewrite list_lookup_insert_eq.
    + intros pb c1.
      apply (await_result j pb c1 _
               (push_result (Fresh (NewPatientResponse now p "")) jb)).
      * unfold end_job.
        cbn [jobs on_pool set_pool set_jobs set_activeJobs set_workers].
        now rewrite list_lookup_insert_eq.
      * cbn [resultChan push_result]. now rewrite Hr.
      * exact He.
      * exact Hd.
  - split.
    + rewrite Hws. cbn [workers on_pool set_pool set_jobs].
      now rewrite list_lookup_insert_eq.
    + intros pb c1.
      apply (await_error j pb c1 _ (push_error err jb)).
      * unfold end_job.
        cbn [jobs on_pool set_pool set_jobs set_activeJobs set_workers].
        now rewrite list_lookup_insert_eq.
      * exact Hr.
      * cbn [errChan push_error]. now rewrite He.
      * exact Hd.
  - split.
    + rewrite Hws. cbn [workers on_pool set_pool set_jobs].
      now rewrite list_lookup_insert_eq.
    + intros pb c1.
      apply (await_error j pb c1 _ (push_error err jb)).
      * unfold end_job.
        cbn [jobs on_pool set_pool set_jobs set_activeJobs set_workers].
        now rewrite list_lookup_insert_eq.
      * exact Hr.
      * cbn [errChan push_error]. now rewrite He.
      * exact Hd.
Qed.

Lemma state_one_busy_eq : exec one_busy pool_1_1 = Ok state_one_busy.
Proof. vm_compute. reflexivity. Qed.

Lemma served_job_delivered_once_witness :
  workers (finish_job 0 (Simulator.QPatient Optimized.sample_patient) 5000 0
             state_one_busy) !! 0%nat = Some WSelect
  /\ forall put_back c1,
       exists s2,
         await 0 put_back c1
           (finish_job 0 (Simulator.QPatient Optimized.sample_patient) 5000 0
              state_one_busy)
         = Some (delivery None (Simulator.QPatient Optimized.sample_patient)
                   5000, s2)
         /\ forall put_back' c2, await 0 put_back' c2 s2 = None.
Proof.
  apply (served_job_delivered_once false (mkConfig 1 1) pool_1_1 one_busy
           state_one_busy 0%nat 0%nat None (new_job "P00042" false)).
  - exact pool_1_1_eq.
  - exact state_one_busy_eq.
  - reflexivity.
  - reflexivity.
  - reflexivity.
Defined.

End RoundTrip.

Section Contents.
Import Go Models Pool PoolInvariants.













End Contents.
